(** * CSVTOOLv2: identifier normalisation, row admission, master list and
      snapshot diffing

    Shallow embedding of
      - [src/lib/csvUtils.js]: [validateColumns], [cleanData] and
        [normalizeHB];
      - the revised copy of that file that follows [src/lib/database.js]
        (lines 1064-1254 of the file): [cleanData] and [normalizeHB];
      - [localDatabase.js], the copy that follows
        [src/components/MetricsBar.jsx] (lines 72-468 of the file): the
        operations on uploads, report data and the master list, the four
        comparison operations, [getDataGroupedByMBL], [normalizeHB] and
        [hasValueChanged];
      - [src/lib/database.js], second copy (lines 398-1062), Supabase
        branch: [saveMasterList], [updateMasterList], [getMasterList] and
        [getNewItemsData];
      - the dashboard ([src/unnamed/part_003], lines 791-1135):
        [loadUploadData] and [filteredData].

    JavaScript strings are modelled as [string], a sequence of code units
    restricted to the range 0..255; a value that is a string, [null] or
    [undefined] is an [option string].  JavaScript numbers are modelled
    exactly: a finite double is a sign, a 53-bit significand and a binary
    exponent, and the built-ins [parseFloat], [Math.floor] and [String]
    that the source calls are written out over that representation
    following ECMA-262. *)

From Stdlib Require Import ZArith Ascii String List Bool Lia.
From stdpp Require Import base option list gmap strings.

Local Open Scope Z_scope.

(** ** Code units and strings *)

Module JsString.

Definition chars (s : string) : list ascii := list_ascii_of_string s.
Definition str (l : list ascii) : string := string_of_list_ascii l.

Definition code (c : ascii) : Z := Z.of_N (N_of_ascii c).

(** WhiteSpace and LineTerminator code units below 256: TAB, LF, VT, FF,
    CR, SP and NBSP. *)
Definition isWhiteSpace (c : ascii) : bool :=
  let n := code c in
  ((9 <=? n) && (n <=? 13)) || (n =? 32) || (n =? 160).

Definition isDigit (c : ascii) : bool :=
  let n := code c in (48 <=? n) && (n <=? 57).

Definition digitVal (c : ascii) : Z := code c - 48.

Definition digitChar (d : Z) : ascii := ascii_of_N (Z.to_N (d + 48)).

Definition isChar (a c : ascii) : bool := Ascii.eqb a c.

Fixpoint dropWhile {A} (p : A -> bool) (l : list A) : list A :=
  match l with
  | [] => []
  | x :: t => if p x then dropWhile p t else l
  end.

Fixpoint takeWhile {A} (p : A -> bool) (l : list A) : list A :=
  match l with
  | [] => []
  | x :: t => if p x then x :: takeWhile p t else []
  end.

Definition isEmpty {A} (l : list A) : bool :=
  match l with [] => true | _ => false end.

(** Does the list start with a code unit satisfying [p] ? *)
Definition headIs (p : ascii -> bool) (l : list ascii) : bool :=
  match l with c :: _ => p c | [] => false end.

(** The list without its first code unit when that satisfies [p]. *)
Definition skipIf (p : ascii -> bool) (l : list ascii) : list ascii :=
  match l with c :: t => if p c then t else l | [] => [] end.

Definition isMinus (c : ascii) : bool := isChar "-" c.
Definition isSign (c : ascii) : bool := isChar "+" c || isChar "-" c.
Definition isDot (c : ascii) : bool := isChar "." c.
Definition isExpChar (c : ascii) : bool := isChar "e" c || isChar "E" c.

(** [String.prototype.trim]. *)
Definition trimChars (l : list ascii) : list ascii :=
  rev (dropWhile isWhiteSpace (rev (dropWhile isWhiteSpace l))).

Definition trim (s : string) : string := str (trimChars (chars s)).

(** [String.prototype.toLowerCase] on one code unit below 256: the
    letters A..Z and the Latin-1 capitals (all of 192..222 but the
    multiplication sign 215) move up by 32. *)
Definition lowerChar (c : ascii) : ascii :=
  let n := code c in
  if ((65 <=? n) && (n <=? 90))
     || ((192 <=? n) && (n <=? 222) && negb (n =? 215))
  then ascii_of_N (Z.to_N (n + 32)) else c.

Definition toLowerCase (s : string) : string := str (map lowerChar (chars s)).

(** A string is truthy iff it is not empty. *)
Definition truthy (s : string) : bool := negb (String.eqb s "").

(** Value of a run of decimal digits, most significant first. *)
Definition digitsVal (ds : list ascii) : Z :=
  fold_left (fun acc c => 10 * acc + digitVal c) ds 0.

(** Decimal digits of a non-negative integer, most significant first;
    [fuel] bounds the number of digits. *)
Fixpoint digitsOfFuel (fuel : nat) (n : Z) : list ascii :=
  match fuel with
  | O => [digitChar (n mod 10)]
  | S f => if n <? 10 then [digitChar n]
           else digitsOfFuel f (n / 10) ++ [digitChar (n mod 10)]
  end.

Definition digitsOf (n : Z) : list ascii :=
  digitsOfFuel (Z.to_nat (Z.log2 n)) n.

End JsString.

Import JsString.

(** ** JavaScript numbers *)

Module JsNumber.

(** A Number value.  [Fin neg m e] stands for (-1)^neg * m * 2^e with
    0 < m < 2^53 and -1074 <= e <= 971, and m >= 2^52 unless e = -1074. *)
Inductive number : Type :=
| NaN
| Inf (neg : bool)
| Zero (neg : bool)
| Fin (neg : bool) (m : Z) (e : Z).

Definition number_eqb (x y : number) : bool :=
  match x, y with
  | NaN, NaN => true
  | Inf a, Inf b => Bool.eqb a b
  | Zero a, Zero b => Bool.eqb a b
  | Fin a m e, Fin b m' e' => Bool.eqb a b && (m =? m') && (e =? e')
  | _, _ => false
  end.

Definition isNaN (x : number) : bool :=
  match x with NaN => true | _ => false end.

(** floor(log2(n/d)) for n, d > 0. *)
Definition ilog2 (n d : Z) : Z :=
  let l := Z.log2 n - Z.log2 d in
  let ge := if 0 <=? l then d * 2 ^ l <=? n else d <=? n * 2 ^ (- l) in
  if ge then l else l - 1.

(** The Number value for the positive rational n/d: round to nearest,
    ties to even, with gradual underflow and overflow to infinity. *)
Definition roundRatio (neg : bool) (n d : Z) : number :=
  let e := Z.max (ilog2 n d - 52) (-1074) in
  let num := if 0 <=? e then n else n * 2 ^ (- e) in
  let den := if 0 <=? e then d * 2 ^ e else d in
  let q := num / den in
  let r := num mod den in
  let up := (den <? 2 * r) || ((den =? 2 * r) && Z.odd q) in
  let q' := if up then q + 1 else q in
  let m' := if q' =? 2 ^ 53 then 2 ^ 52 else q' in
  let e' := if q' =? 2 ^ 53 then e + 1 else e in
  if m' =? 0 then Zero neg
  else if 971 <? e' then Inf neg
  else Fin neg m' e'.

(** The Number value for the decimal m * 10^p, m >= 0. *)
Definition roundDecimal (neg : bool) (m p : Z) : number :=
  if m =? 0 then Zero neg
  else if 0 <=? p then roundRatio neg (m * 10 ^ p) 1
  else roundRatio neg m (10 ^ (- p)).

(** [Math.floor]. *)
Definition floor (x : number) : number :=
  match x with
  | Fin neg m e =>
      if 0 <=? e then x
      else
        let q := m / 2 ^ (- e) in
        let r := m mod 2 ^ (- e) in
        if r =? 0 then x
        else if neg then roundRatio true (q + 1) 1
        else if q =? 0 then Zero false
        else roundRatio false q 1
  | _ => x
  end.

End JsNumber.

Import JsNumber.

(** ** Built-ins on strings and numbers *)

Module JsBuiltins.

Definition startsWith (p l : list ascii) : bool :=
  if decide (take (length p) l = p) then true else false.

(** The exponent of an ExponentPart at the head of [l], 0 when [l] does
    not start with one. *)
Definition exponentPart (l : list ascii) : Z :=
  if headIs isExpChar l then
    let t := skipIf isExpChar l in
    let neg := headIs isMinus t in
    let d3 := takeWhile isDigit (skipIf isSign t) in
    if isEmpty d3 then 0
    else if neg then - digitsVal d3 else digitsVal d3
  else 0.

(** The Number value of the longest prefix of [l] that is a
    StrDecimalLiteral; NaN when there is none. *)
Definition strDecimalLiteral (l : list ascii) : number :=
  let neg := headIs isMinus l in
  let l1 := skipIf isSign l in
  if startsWith (chars "Infinity") l1 then Inf neg
  else
    let d1 := takeWhile isDigit l1 in
    let l2 := dropWhile isDigit l1 in
    let d2 := if headIs isDot l2 then takeWhile isDigit (skipIf isDot l2) else [] in
    let l3 := if headIs isDot l2 then dropWhile isDigit (skipIf isDot l2) else l2 in
    if isEmpty (d1 ++ d2) then NaN
    else roundDecimal neg (digitsVal (d1 ++ d2))
                      (exponentPart l3 - Z.of_nat (length d2)).

(** [parseFloat]: skip the leading white space, then read a
    StrDecimalLiteral. *)
Definition parseFloat (s : string) : number :=
  strDecimalLiteral (dropWhile isWhiteSpace (chars s)).

(** *** Number::toString, radix 10 *)

Definition ndigits (n : Z) : Z := Z.of_nat (length (digitsOf n)).

(** Least j in [j0, j0 + fuel) with b <= a * 10^j. *)
Fixpoint firstScale (fuel : nat) (a b j : Z) : Z :=
  match fuel with
  | O => j
  | S f => if b <=? a * 10 ^ j then j else firstScale f a b (j + 1)
  end.

(** The n with 10^(n-1) <= a/b < 10^n. *)
Definition decimalPosition (a b : Z) : Z :=
  if b <=? a then ndigits (a / b) else 1 - firstScale 400 a b 1.

(** floor((a/b) / 10^p). *)
Definition scaledFloor (a b p : Z) : Z :=
  if 0 <=? p then a / (b * 10 ^ p) else (a * 10 ^ (- p)) / b.

(** Is a/b strictly below, at, or above the midpoint (2s+1)/2 * 10^p ? *)
Definition cmpMid (a b s p : Z) : comparison :=
  if 0 <=? p then (2 * a ?= (2 * s + 1) * 10 ^ p * b)
  else (2 * a * 10 ^ (- p) ?= (2 * s + 1) * b).

(** Dropping trailing zeros: v * 10^z is rewritten as s * 10^z' with
    z <= z', as long as the fuel lasts. *)
Fixpoint stripZeros (fuel : nat) (v z : Z) : Z * Z :=
  match fuel with
  | O => (v, z)
  | S f => if v mod 10 =? 0 then stripZeros f (v / 10) (z + 1) else (v, z)
  end.

(** A candidate (s, p) stands for the decimal s * 10^p, s without
    trailing zeros. *)
Definition normalize (s p : Z) : Z * Z := stripZeros (Z.to_nat (Z.log2 s)) s p.

(** Is x the Number value for s * 10^p ? *)
Definition valid (x : number) (c : Z * Z) : bool :=
  number_eqb (roundDecimal false c.1 c.2) x.

(** The two decimals with k digits next to a/b, the closer one first. *)
Definition candidates (a b k : Z) : list (Z * Z) :=
  let p := decimalPosition a b - k in
  let lo := scaledFloor a b p in
  let clo := normalize lo p in
  let chi := normalize (lo + 1) p in
  match cmpMid a b lo p with
  | Lt => [clo; chi]
  | Gt => [chi; clo]
  | Eq => if Z.even lo then [clo; chi] else [chi; clo]
  end.

Definition pick (x : number) (cs : list (Z * Z)) : option (Z * Z) :=
  head (filter (fun c => valid x c = true) cs).

(** The first k in [k, k + fuel) that has a candidate whose Number value
    is x. *)
Fixpoint shortestFrom (fuel : nat) (x : number) (a b k : Z) : option (Z * Z) :=
  match fuel with
  | O => None
  | S f => match pick x (candidates a b k) with
           | Some c => Some c
           | None => shortestFrom f x a b (k + 1)
           end
  end.

(** The exact decimal expansion of m * 2^e. *)
Definition exactDigits (m e : Z) : Z * Z :=
  if 0 <=? e then normalize (m * 2 ^ e) 0
  else if m mod 2 ^ (- e) =? 0 then normalize (m / 2 ^ (- e)) 0
  else normalize (m * 5 ^ (- e)) e.

(** Step 5 of Number::toString: the digits s and the scale p of the
    shortest decimal s * 10^p whose Number value is m * 2^e, the one
    closest to m * 2^e when there are two.  Seventeen digits distinguish
    any two doubles; the exact expansion closes the search. *)
Definition shortest (m e : Z) : Z * Z :=
  let a := if 0 <=? e then m * 2 ^ e else m in
  let b := if 0 <=? e then 1 else 2 ^ (- e) in
  match shortestFrom 17 (Fin false m e) a b 1 with
  | Some c => c
  | None => exactDigits m e
  end.

Definition zeros (n : Z) : list ascii := repeat "0"%char (Z.to_nat n).

Definition expSuffix (n : Z) : list ascii :=
  "e"%char :: (if 0 <? n - 1 then "+"%char else "-"%char)
           :: digitsOf (Z.abs (n - 1)).

(** Steps 6 to 10 of Number::toString for the digits s at scale p:
    k is the number of digits of s and n = p + k the position of the
    decimal point. *)
Definition formatDigits (c : Z * Z) : list ascii :=
  let ds := digitsOf c.1 in
  let k := Z.of_nat (length ds) in
  let n := c.2 + k in
  if (k <=? n) && (n <=? 21) then ds ++ zeros (n - k)
  else if (0 <? n) && (n <=? 21) then
    take (Z.to_nat n) ds ++ "."%char :: drop (Z.to_nat n) ds
  else if (-6 <? n) && (n <=? 0) then
    "0"%char :: "."%char :: zeros (- n) ++ ds
  else if k =? 1 then ds ++ expSuffix n
  else take 1 ds ++ "."%char :: drop 1 ds ++ expSuffix n.

(** [String(x)] for a Number x. *)
Definition numberToString (x : number) : string :=
  match x with
  | NaN => "NaN"
  | Zero _ => "0"
  | Inf neg => if neg then "-Infinity" else "Infinity"
  | Fin neg m e =>
      str ((if neg then ["-"%char] else []) ++ formatDigits (shortest m e))
  end.

(** The suffixes of a list, the longest first, the empty one included. *)
Fixpoint suffixes {A} (l : list A) : list (list A) :=
  match l with
  | [] => [[]]
  | _ :: t => l :: suffixes t
  end.

(** [String.prototype.includes]: [t] occurs in [s]. *)
Definition includes (s t : string) : bool :=
  existsb (startsWith (chars t)) (suffixes (chars s)).

(** [Array.prototype.join] on strings. *)
Fixpoint join (sep : string) (l : list string) : string :=
  match l with
  | [] => EmptyString
  | x :: rest =>
      match rest with
      | [] => x
      | _ => String.append x (String.append sep (join sep rest))
      end
  end.

End JsBuiltins.

Import JsBuiltins.

Local Open Scope string_scope.
Local Open Scope list_scope.
Local Open Scope Z_scope.

(** ** Raw CSV rows

    A parsed CSV row is an object from header names to string values;
    [row !! "HB"] is [row['HB']], [None] standing for [undefined]. *)

Abbreviation csv_row := (gmap string string).

(** [v || null] for a string-or-undefined [v]. *)
Definition orNull (v : option string) : option string :=
  match v with
  | Some s => if truthy s then Some s else None
  | None => None
  end.

(** [v && v !== '' && v.toLowerCase() !== 'nan'], coerced to a boolean. *)
Definition hasValue (v : option string) : bool :=
  match v with
  | Some s => truthy s && negb (String.eqb s "") && negb (String.eqb (toLowerCase s) "nan")
  | None => false
  end.

(** ** [src/lib/csvUtils.js] *)

Module CsvUtils.

(** [normalizeHB], lines 97-113: every value goes through [parseFloat]. *)
Definition normalizeHB (value : option string) : string :=
  match value with
  | None => ""
  | Some v =>
      if String.eqb v "" then ""
      else
        let num := parseFloat v in
        if negb (isNaN num) then numberToString (floor num)
        else trim v
  end.

(** The body of the [map] callback of [cleanData]. *)
Definition cleanRow (row : csv_row) : csv_row :=
  map_imap (fun key value =>
              let value := trim value in
              Some (if String.eqb key "HB" then normalizeHB (Some value) else value))
           row.

(** [cleanData], lines 61-90: the filter reads [hb] but tests the
    container only. *)
Definition cleanData (data : list csv_row) : list csv_row :=
  filter (fun row => hasValue (row !! "CONTAINER") = true) (cleanRow <$> data).

(** [REQUIRED_COLUMNS], lines 7-11. *)
Definition REQUIRED_COLUMNS : list string :=
  ["CONTAINER"; "SEAL #"; "CARRIER"; "MBL"; "MI"; "VESSEL"; "HB";
   "OUTER QUANTITY"; "PCS"; "WT_LBS"; "CNEE"; "FRL"; "FILE_NO";
   "DEST"; "VOLUME"; "VBOND#"; "TDF"].

Record validation : Type := {
  isValid : bool;
  message : string;
  missingColumns : list string
}.

(** [validateColumns], lines 38-54; the revised copy (database.js, lines
    1101-1117) has the same text. *)
Definition validateColumns (headers : list string) : validation :=
  let missing := filter (fun col => col ∉ headers) REQUIRED_COLUMNS in
  if (0 <? Z.of_nat (length missing)) then
    {| isValid := false;
       message := "Missing required columns: " +:+ join ", " missing;
       missingColumns := missing |}
  else
    {| isValid := true; message := "CSV is valid"; missingColumns := [] |}.

End CsvUtils.

(** ** [csvUtils.js], revised copy ([src/lib/database.js], lines 1064-1254) *)

Module CsvUtilsRevised.

(** The test of [/^-?\d+\.?\d*[eE][+-]?\d+$/]. *)
Definition sciPattern (l : list ascii) : bool :=
  let l1 := skipIf isMinus l in
  let d1 := takeWhile isDigit l1 in
  let l2 := dropWhile isDigit l1 in
  let l3 := skipIf isDot l2 in
  let l4 := dropWhile isDigit l3 in
  let l5 := skipIf isSign (skipIf isExpChar l4) in
  negb (isEmpty d1) && headIs isExpChar l4
  && negb (isEmpty (takeWhile isDigit l5)) && isEmpty (dropWhile isDigit l5).

Definition isScientific (s : string) : bool := sciPattern (chars s).

(** [normalizeHB], lines 1167-1188. *)
Definition normalizeHB (value : option string) : string :=
  match value with
  | None => ""
  | Some v =>
      if String.eqb v "" then ""
      else
        let strValue := trim v in
        if isScientific strValue then
          let num := parseFloat strValue in
          if negb (isNaN num) then numberToString (floor num)
          else strValue
        else strValue
  end.

Definition cleanRow (row : csv_row) : csv_row :=
  map_imap (fun key value =>
              let value := trim value in
              Some (if String.eqb key "HB" then normalizeHB (Some value) else value))
           row.

(** [cleanData], lines 1124-1158. *)
Definition cleanData (data : list csv_row) : list csv_row :=
  filter (fun row =>
            let hasContainer := hasValue (row !! "CONTAINER") in
            let hasHB := hasValue (row !! "HB") in
            let hasMBL := hasValue (row !! "MBL") in
            hasContainer || hasHB || hasMBL = true)
         (cleanRow <$> data).

End CsvUtilsRevised.

(** [Array.prototype.findIndex]: the first index whose element satisfies
    the predicate, -1 when there is none. *)
Definition findIndex {A} (P : A -> Prop) `{forall x, Decision (P x)} (l : list A) : Z :=
  match list_find P l with
  | Some (i, _) => Z.of_nat i
  | None => -1
  end.

(** ** [localDatabase.js] ([src/components/MetricsBar.jsx], lines 72-468) *)

Module LocalDatabase.

(** [normalizeHB], lines 432-451: the same text as the revised
    [csvUtils.js] one. *)
Definition normalizeHB (value : option string) : string :=
  match value with
  | None => ""
  | Some v =>
      if String.eqb v "" then ""
      else
        let strValue := trim v in
        if CsvUtilsRevised.isScientific strValue then
          let num := parseFloat strValue in
          if negb (isNaN num) then numberToString (floor num)
          else strValue
        else strValue
  end.

(** The seventeen data fields that [saveReportData] and
    [updateMasterList] copy out of a CSV row. *)
Record item : Type := {
  container : option string;
  seal_number : option string;
  carrier : option string;
  mbl : option string;
  mi : option string;
  vessel : option string;
  hb : string;
  outer_quantity : option string;
  pcs : option string;
  wt_lbs : option string;
  cnee : option string;
  frl : option string;
  file_no : option string;
  dest : option string;
  volume : option string;
  vbond : option string;
  tdf : option string
}.

Definition itemOf (hbv : string) (row : csv_row) : item := {|
  container := orNull (row !! "CONTAINER");
  seal_number := orNull (row !! "SEAL #");
  carrier := orNull (row !! "CARRIER");
  mbl := orNull (row !! "MBL");
  mi := orNull (row !! "MI");
  vessel := orNull (row !! "VESSEL");
  hb := hbv;
  outer_quantity := orNull (row !! "OUTER QUANTITY");
  pcs := orNull (row !! "PCS");
  wt_lbs := orNull (row !! "WT_LBS");
  cnee := orNull (row !! "CNEE");
  frl := orNull (row !! "FRL");
  file_no := orNull (row !! "FILE_NO");
  dest := orNull (row !! "DEST");
  volume := orNull (row !! "VOLUME");
  vbond := orNull (row !! "VBOND#");
  tdf := orNull (row !! "TDF")
|}.

Record upload : Type := {
  upload_key : string;          (* id *)
  filename : string;
  row_count : nat;
  upload_date : string
}.

Record report_row : Type := {
  row_key : string;             (* id *)
  upload_id : string;
  row_item : item
}.

Record master_entry : Type := {
  entry_item : item;
  last_updated_upload_id : string;
  updated_at : string;
  entry_key : string;           (* id *)
  first_seen_upload_id : string;
  created_at : string
}.

(** The three localStorage keys. *)
Record storage : Type := {
  UPLOADS : list upload;
  REPORT_DATA : list report_row;
  MASTER_LIST : list master_entry
}.

Definition emptyStorage : storage :=
  {| UPLOADS := []; REPORT_DATA := []; MASTER_LIST := [] |}.

(** What [generateId()] and [new Date().toISOString()] return while one
    row is processed. *)
Record stamp : Type := {
  generateId : string;
  now_updated : string;
  now_created : string
}.

(** [saveUpload], lines 103-114: the new upload goes to the front of the
    list. *)
Definition saveUpload (st : stamp) (s : storage) (name : string) (rowCount : nat)
  : storage * upload :=
  let newUpload := {| upload_key := generateId st; filename := name;
                      row_count := rowCount; upload_date := now_created st |} in
  ({| UPLOADS := newUpload :: UPLOADS s;
      REPORT_DATA := REPORT_DATA s;
      MASTER_LIST := MASTER_LIST s |}, newUpload).

(** [saveReportData], lines 136-165. *)
Definition saveReportData (env : nat -> stamp) (s : storage) (uploadId : string)
    (rows : list csv_row) : storage * nat :=
  let dataToInsert :=
    imap (fun i row => {| row_key := generateId (env i);
                          upload_id := uploadId;
                          row_item := itemOf (normalizeHB (row !! "HB")) row |}) rows in
  ({| UPLOADS := UPLOADS s;
      REPORT_DATA := REPORT_DATA s ++ dataToInsert;
      MASTER_LIST := MASTER_LIST s |}, length dataToInsert).

(** [saveReportData] on an engine that takes at most [maxArguments]
    arguments in one call: [reportData.push(...dataToInsert)] passes
    every new record as an argument, and with more of them the call ends
    in a RangeError before anything is stored ([None]). *)
Definition saveReportDataOn (maxArguments : nat) (env : nat -> stamp) (s : storage)
    (uploadId : string) (rows : list csv_row) : option (storage * nat) :=
  if decide (length rows <= maxArguments)%nat
  then Some (saveReportData env s uploadId rows)
  else None.

(** *** Master list *)

Definition hasKey (h : string) (m : master_entry) : Prop := hb (entry_item m) = h.

#[global] Instance hasKey_dec h m : Decision (hasKey h m).
Proof. unfold hasKey. apply _. Defined.

(** One iteration of the loop of [updateMasterList] on the triple
    (masterList, itemsAdded, itemsUpdated). *)
Definition upsertRow (uploadId : string) (st : stamp)
    (acc : list master_entry * nat * nat) (row : csv_row)
  : list master_entry * nat * nat :=
  let '(masterList, itemsAdded, itemsUpdated) := acc in
  let h := normalizeHB (row !! "HB") in
  if negb (truthy h) then acc
  else
    let itemData := itemOf h row in
    match list_find (hasKey h) masterList with
    | Some (existingIndex, existing) =>
        (<[existingIndex :=
             {| entry_item := itemData;
                last_updated_upload_id := uploadId;
                updated_at := now_updated st;
                entry_key := entry_key existing;
                first_seen_upload_id := first_seen_upload_id existing;
                created_at := created_at existing |}]> masterList,
         itemsAdded, S itemsUpdated)
    | None =>
        (masterList ++
           [{| entry_item := itemData;
               last_updated_upload_id := uploadId;
               updated_at := now_updated st;
               entry_key := generateId st;
               first_seen_upload_id := uploadId;
               created_at := now_created st |}],
         S itemsAdded, itemsUpdated)
    end.

Fixpoint upsertRows (env : nat -> stamp) (i : nat) (uploadId : string)
    (rows : list csv_row) (acc : list master_entry * nat * nat)
  : list master_entry * nat * nat :=
  match rows with
  | [] => acc
  | row :: rest => upsertRows env (S i) uploadId rest (upsertRow uploadId (env i) acc row)
  end.

Record counts : Type := { itemsAdded : nat; itemsUpdated : nat }.

(** [updateMasterList], lines 183-235. *)
Definition updateMasterList (env : nat -> stamp) (s : storage) (uploadId : string)
    (rows : list csv_row) : storage * counts :=
  let '(masterList, added, updated) :=
    upsertRows env 0 uploadId rows (MASTER_LIST s, 0%nat, 0%nat) in
  ({| UPLOADS := UPLOADS s;
      REPORT_DATA := REPORT_DATA s;
      MASTER_LIST := masterList |},
   {| itemsAdded := added; itemsUpdated := updated |}).

(** *** Comparison operations *)

Definition ofUpload (u : string) (r : report_row) : Prop := upload_id r = u.

#[global] Instance ofUpload_dec u r : Decision (ofUpload u r).
Proof. unfold ofUpload. apply _. Defined.

(** [r.upload_id === u && r.hb]. *)
Definition keyedOfUpload (u : string) (r : report_row) : Prop :=
  upload_id r = u /\ truthy (hb (row_item r)) = true.

#[global] Instance keyedOfUpload_dec u r : Decision (keyedOfUpload u r).
Proof. unfold keyedOfUpload. apply _. Defined.

Definition isUpload (u : string) (x : upload) : Prop := upload_key x = u.

#[global] Instance isUpload_dec u x : Decision (isUpload u x).
Proof. unfold isUpload. apply _. Defined.

(** [new Set(reportData.filter(r => r.upload_id === u && r.hb).map(r => r.hb))] *)
Definition hbSet (reportData : list report_row) (u : string) : gset string :=
  list_to_set ((fun r => hb (row_item r)) <$> filter (keyedOfUpload u) reportData).

(** [currentIndex === -1 || currentIndex >= uploads.length - 1] *)
Definition noPrevious (uploads : list upload) (currentIndex : Z) : bool :=
  (currentIndex =? -1) || (Z.of_nat (length uploads) - 1 <=? currentIndex).

(** [uploads[currentIndex + 1].id]; [None] is the TypeError of reading
    [.id] of [undefined]. *)
Definition prevUploadId (uploads : list upload) (currentIndex : Z) : option string :=
  upload_key <$> uploads !! Z.to_nat (currentIndex + 1).

(** Counting with [forEach] the members of [xs] that [ys] lacks. *)
Definition countMissing (xs ys : gset string) : nat :=
  size (filter (fun h => h ∉ ys) xs).

(** [detectNewItems], lines 302-328. *)
Definition detectNewItems (s : storage) (currentUploadId : string) : option nat :=
  let uploads := UPLOADS s in
  let currentIndex := findIndex (isUpload currentUploadId) uploads in
  if noPrevious uploads currentIndex then
    let currentData := filter (ofUpload currentUploadId) (REPORT_DATA s) in
    Some (length currentData)
  else
    prev ← prevUploadId uploads currentIndex;
    let reportData := REPORT_DATA s in
    let currentHBs := hbSet reportData currentUploadId in
    let prevHBs := hbSet reportData prev in
    Some (countMissing currentHBs prevHBs).

(** [detectRemovedItems], lines 330-354. *)
Definition detectRemovedItems (s : storage) (currentUploadId : string) : option nat :=
  let uploads := UPLOADS s in
  let currentIndex := findIndex (isUpload currentUploadId) uploads in
  if noPrevious uploads currentIndex then Some 0%nat
  else
    prev ← prevUploadId uploads currentIndex;
    let reportData := REPORT_DATA s in
    let currentHBs := hbSet reportData currentUploadId in
    let prevHBs := hbSet reportData prev in
    Some (countMissing prevHBs currentHBs).

(** [r.hb && !keys.has(r.hb)] *)
Definition keyedAndMissing (keys : gset string) (r : report_row) : Prop :=
  truthy (hb (row_item r)) = true /\ hb (row_item r) ∉ keys.

#[global] Instance keyedAndMissing_dec keys r : Decision (keyedAndMissing keys r).
Proof. unfold keyedAndMissing. apply _. Defined.

(** [getNewItemsData], lines 356-373. *)
Definition getNewItemsData (s : storage) (currentUploadId : string)
  : option (list report_row) :=
  let uploads := UPLOADS s in
  let currentIndex := findIndex (isUpload currentUploadId) uploads in
  let reportData := REPORT_DATA s in
  let currentData := filter (ofUpload currentUploadId) reportData in
  if noPrevious uploads currentIndex then Some currentData
  else
    prev ← prevUploadId uploads currentIndex;
    let prevHBs := hbSet reportData prev in
    Some (filter (keyedAndMissing prevHBs) currentData).

(** [getRemovedItemsData], lines 375-392. *)
Definition getRemovedItemsData (s : storage) (currentUploadId : string)
  : option (list report_row) :=
  let uploads := UPLOADS s in
  let currentIndex := findIndex (isUpload currentUploadId) uploads in
  if noPrevious uploads currentIndex then Some []
  else
    prev ← prevUploadId uploads currentIndex;
    let reportData := REPORT_DATA s in
    let currentHBs := hbSet reportData currentUploadId in
    let prevData := filter (ofUpload prev) reportData in
    Some (filter (keyedAndMissing currentHBs) prevData).

(** *** Uploads and report data: the other operations *)

(** [getAllUploads], lines 116-118. *)
Definition getAllUploads (s : storage) : list upload := UPLOADS s.

(** [deleteUpload], lines 120-130: the upload and its report rows go,
    the master list is not read. *)
Definition deleteUpload (s : storage) (uploadId : string) : storage * bool :=
  let uploads := filter (fun u => upload_key u <> uploadId) (UPLOADS s) in
  let reportData := filter (fun r => upload_id r <> uploadId) (REPORT_DATA s) in
  ({| UPLOADS := uploads; REPORT_DATA := reportData; MASTER_LIST := MASTER_LIST s |},
   true).

(** [r.frl && r.frl.trim() !== ''], coerced to a boolean. *)
Definition frlFilled (f : option string) : bool :=
  match f with
  | Some v => truthy v && negb (String.eqb (trim v) "")
  | None => false
  end.

(** [!r.frl || r.frl.trim() === ''] *)
Definition frlBlank (f : option string) : bool :=
  match f with
  | Some v => negb (truthy v) || String.eqb (trim v) ""
  | None => true
  end.

(** [getReportData], lines 167-177; a call with one argument is a call
    with the filter 'all'. *)
Definition getReportData (s : storage) (uploadId : string) (filterName : string)
  : list report_row :=
  let data := filter (ofUpload uploadId) (REPORT_DATA s) in
  if String.eqb filterName "with_frl" then
    filter (fun r => frlFilled (frl (row_item r)) = true) data
  else if String.eqb filterName "without_frl" then
    filter (fun r => frlBlank (frl (row_item r)) = true) data
  else data.

(** *** Master list: the queries *)

(** [getMasterListData], lines 237-247. *)
Definition getMasterListData (s : storage) (filterName : string) : list master_entry :=
  let data := MASTER_LIST s in
  if String.eqb filterName "with_frl" then
    filter (fun r => frlFilled (frl (entry_item r)) = true) data
  else if String.eqb filterName "without_frl" then
    filter (fun r => frlBlank (frl (entry_item r)) = true) data
  else data.

Record metrics : Type := { totalRows : Z; withFrl : Z; withoutFrl : Z }.

(** [getMasterListMetrics], lines 249-256. *)
Definition getMasterListMetrics (s : storage) : metrics :=
  let allData := MASTER_LIST s in
  let total := Z.of_nat (length allData) in
  let filled :=
    Z.of_nat (length (filter (fun r => frlFilled (frl (entry_item r)) = true) allData)) in
  {| totalRows := total; withFrl := filled; withoutFrl := total - filled |}.

(** [getLatestUploadId], lines 258-261. *)
Definition getLatestUploadId (s : storage) : option string :=
  match UPLOADS s with
  | u :: _ => Some (upload_key u)
  | [] => None
  end.

Record listing : Type := { count : nat; data : list master_entry }.

(** [getMasterListNewItems], lines 263-272. *)
Definition getMasterListNewItems (s : storage) : listing :=
  match getLatestUploadId s with
  | Some latestUploadId =>
      if negb (truthy latestUploadId) then {| count := 0; data := [] |}
      else
        let found :=
          filter (fun m => first_seen_upload_id m = latestUploadId) (MASTER_LIST s) in
        {| count := length found; data := found |}
  | None => {| count := 0; data := [] |}
  end.

(** *** Dock tally report *)

(** A row of the report data or an entry of the master list. *)
Inductive stored_row : Type :=
| ReportRow (r : report_row)
| MasterRow (m : master_entry).

Definition fieldsOf (x : stored_row) : item :=
  match x with
  | ReportRow r => row_item r
  | MasterRow m => entry_item m
  end.

(** One value of the object that [getDataGroupedByMBL] returns; the Set
    of containers is kept in insertion order, which is the order of
    [Array.from]. *)
Record group : Type := {
  group_mbl : string;
  group_containers : list string;
  group_items : list stored_row
}.

(** The property names that the empty object literal inherits from
    [Object.prototype]; each of them reads as a truthy value that is not
    a group. *)
Definition objectPrototypeNames : list string :=
  ["constructor"; "hasOwnProperty"; "isPrototypeOf"; "propertyIsEnumerable";
   "toLocaleString"; "toString"; "valueOf"; "__proto__";
   "__defineGetter__"; "__defineSetter__"; "__lookupGetter__"; "__lookupSetter__"].

(** [row.mbl || 'NO MBL'] *)
Definition groupName (x : stored_row) : string :=
  match mbl (fieldsOf x) with
  | Some m => if truthy m then m else "NO MBL"
  | None => "NO MBL"
  end.

(** [Set.prototype.add] *)
Definition setAdd (c : string) (l : list string) : list string :=
  if decide (c ∈ l) then l else l ++ [c].

(** [if (row.container) set.add(row.container)] *)
Definition addContainer (x : stored_row) (l : list string) : list string :=
  match container (fieldsOf x) with
  | Some c => if truthy c then setAdd c l else l
  | None => l
  end.

(** One iteration of the loop of [getDataGroupedByMBL]; [None] is the
    TypeError raised when [grouped[mbl]] is an inherited property, which
    has neither [containers] nor [items]. *)
Definition groupRow (grouped : gmap string group) (x : stored_row)
  : option (gmap string group) :=
  let name := groupName x in
  match grouped !! name with
  | Some g =>
      Some (<[name := {| group_mbl := group_mbl g;
                         group_containers := addContainer x (group_containers g);
                         group_items := group_items g ++ [x] |}]> grouped)
  | None =>
      if decide (name ∈ objectPrototypeNames) then None
      else
        Some (<[name := {| group_mbl := name;
                           group_containers := addContainer x [];
                           group_items := [x] |}]> grouped)
  end.

Fixpoint groupRows (rows : list stored_row) (grouped : gmap string group)
  : option (gmap string group) :=
  match rows with
  | [] => Some grouped
  | x :: rest => grouped' ← groupRow grouped x; groupRows rest grouped'
  end.

(** [getDataGroupedByMBL], lines 398-426; [None] for the argument is
    [null]. *)
Definition getDataGroupedByMBL (s : storage) (uploadId : option string)
  : option (gmap string group) :=
  let rows :=
    match uploadId with
    | Some u =>
        if truthy u then ReportRow <$> filter (ofUpload u) (REPORT_DATA s)
        else MasterRow <$> MASTER_LIST s
    | None => MasterRow <$> MASTER_LIST s
    end in
  groupRows rows ∅.

(** *** Helpers *)

(** [(v || '').toString().trim()] *)
Definition trimmedOrEmpty (v : option string) : string :=
  match v with
  | Some s => if truthy s then trim s else trim ""
  | None => trim ""
  end.

(** [hasValueChanged], lines 453-459. *)
Definition hasValueChanged (oldVal newVal : option string) : bool :=
  let old := trimmedOrEmpty oldVal in
  let now := trimmedOrEmpty newVal in
  if negb (truthy old) && truthy now then true
  else if truthy old && truthy now && negb (String.eqb old now) then true
  else false.

(** [clearAllData], lines 464-468: the three keys are removed, and an
    absent key reads as the empty list. *)
Definition clearAllData (s : storage) : storage := emptyStorage.

End LocalDatabase.

(** ** [src/lib/database.js] (second copy, lines 398-1062), Supabase branch

    A table row is an object from column names to text values.  The
    master-list operations are modelled by what they exchange with the
    Supabase client: the requests they send, in order, and what they do
    with the answers, which are arguments; nothing is assumed about the
    tables, their columns or the order in which rows come back.  The
    comparison operation [getNewItemsData] reads rows that its [select]
    calls are taken to return. *)

Module Database.

Abbreviation table_row := (gmap string string).

Record tables : Type := {
  uploads : list table_row;
  ocean_data : list table_row
}.

Definition emptyTables : tables := {| uploads := []; ocean_data := [] |}.

Definition column (c v : string) (r : table_row) : Prop := r !! c = Some v.

#[global] Instance column_dec c v r : Decision (column c v r).
Proof. unfold column. apply _. Defined.

(** A request to the Supabase client: the table, the operation and its
    [eq] filters. *)
Inductive request : Type :=
| Upsert (table : string) (row : table_row) (onConflict : string)
| Update (table : string) (changes : table_row) (eqs : list (string * string))
| Insert (table : string) (rows : list table_row)
| Select (table : string) (columns : string) (eqs : list (string * string)).

(** How a call ends: with a thrown error, given by its message, or with
    a returned value. *)
Inductive outcome (A : Type) : Type :=
| Thrown (msg : string)
| Returned (a : A).

Arguments Thrown {A} msg.
Arguments Returned {A} a.

(** [mode === 'air' ? 'air_data' : 'ocean_data'] *)
Definition tableName (mode : string) : string :=
  if String.eqb mode "air" then "air_data" else "ocean_data".

(** [{ upload_id: 'master', ...row, status: 'active' }] *)
Definition masterRecord (row : csv_row) : table_row :=
  <["status" := "active"]> (row ∪ {["upload_id" := "master"]}).

Record counts : Type := { itemsAdded : nat; itemsUpdated : nat }.

(** [{ upload_id: 'master', mode: mode, filename: 'MASTER_LIST_SNAPSHOT',
    row_count: 0 }] *)
Definition masterUpload (mode : string) : table_row :=
  <["upload_id" := "master"]> (<["mode" := mode]>
    (<["filename" := "MASTER_LIST_SNAPSHOT"]> (<["row_count" := "0"]> ∅))).

(** The three requests of [saveMasterList], in the order they are sent. *)
Definition upsertMaster (mode : string) : request :=
  Upsert "uploads" (masterUpload mode) "upload_id".

Definition deactivateAll (mode : string) : request :=
  Update (tableName mode) {["status" := "inactive"]} [("status", "active")].

Definition insertMaster (mode : string) (data : list csv_row) : request :=
  Insert (tableName mode) (masterRecord <$> data).

(** [saveMasterList], lines 653-723.  [uploadError] and [insertError]
    are the messages of the [error] fields of the answers to the upsert
    and to the insert, [None] for [null]; the answer to the update is not
    read.  The client is taken to report a failure in the [error] field
    of its answer. *)
Definition saveMasterList (uploadError insertError : option string)
    (data : list csv_row) (mode : string) : list request * outcome counts :=
  match uploadError with
  | Some msg =>
      ([upsertMaster mode],
       Thrown ("Failed to initialize Master List record: " +:+ msg))
  | None =>
      let records := masterRecord <$> data in
      let sent := [upsertMaster mode; deactivateAll mode; insertMaster mode data] in
      match insertError with
      | Some msg => (sent, Thrown msg)
      | None => (sent, Returned {| itemsAdded := length records; itemsUpdated := 0 |})
      end
  end.

(** [updateMasterList(uploadId, data, mode)], lines 749-756, called with
    an upload id. *)
Definition updateMasterList (uploadError insertError : option string)
    (uploadId : string) (data : list csv_row) (mode : string)
  : list request * outcome counts :=
  saveMasterList uploadError insertError data mode.

(** [getMasterList], lines 725-747; [answer] is the [data] and the
    [error] of the answer to the query, which asks for no order. *)
Definition getMasterList (answer : list table_row * option string) (mode : string)
  : request * list table_row :=
  (Select (tableName mode) "*" [("upload_id", "master"); ("status", "active")],
   match answer.2 with
   | Some _ => []
   | None => answer.1
   end).

(** [Boolean(r[keyField])] for the key field 'hb'. *)
Definition keyOf (r : table_row) : string := default "" (r !! "hb").

Definition keyedAndMissing (keys : gset string) (r : table_row) : Prop :=
  truthy (keyOf r) = true /\ keyOf r ∉ keys.

#[global] Instance keyedAndMissing_dec keys r : Decision (keyedAndMissing keys r).
Proof. unfold keyedAndMissing. apply _. Defined.

(** [new Set((data || []).map(r => r[keyField]).filter(Boolean))] *)
Definition keySet (data : list table_row) : gset string :=
  list_to_set (filter (fun k => truthy k = true) (keyOf <$> data)).

(** [getNewItemsData], lines 1002-1031; [ups] is the list of upload ids
    that [getAllUploads] returns, newest first. *)
Definition getNewItemsData (ups : list string) (t : tables) (currentUploadId : string)
  : option (list table_row) :=
  let currentIndex := findIndex (fun u => u = currentUploadId) ups in
  let currentData := filter (column "upload_id" currentUploadId) (ocean_data t) in
  if (currentIndex =? -1) || (Z.of_nat (length ups) - 1 <=? currentIndex) then
    Some currentData
  else
    prevUploadId ← ups !! Z.to_nat (currentIndex + 1);
    let prevData := filter (column "upload_id" prevUploadId) (ocean_data t) in
    let prevKeys := keySet prevData in
    Some (filter (keyedAndMissing prevKeys) currentData).

End Database.

(** ** The dashboard ([src/unnamed/part_003], lines 791-1135) and its
    search bar ([src/unnamed/part_002], lines 1-57) *)

Module Dashboard.
Import LocalDatabase.

(** The state that [setMetrics] stores. *)
Record metrics : Type := {
  totalRows : Z;
  withFrl : Z;
  withoutFrl : Z;
  newItems : Z;
  removedItems : Z;
  updatedItems : Z;
  newFrl : Z
}.



(** The options of the search bar ([SEARCH_FIELDS], lines 7-17). *)
Inductive search_field : Type :=
| all | hb | mbl | container | cnee | carrier | vessel | file_no | dest.

(** [Object.values(row)] *)
Definition itemValues (i : item) : list (option string) :=
  [LocalDatabase.container i; seal_number i; LocalDatabase.carrier i;
   LocalDatabase.mbl i; mi i; LocalDatabase.vessel i; Some (LocalDatabase.hb i);
   outer_quantity i; pcs i; wt_lbs i; LocalDatabase.cnee i; frl i;
   LocalDatabase.file_no i; LocalDatabase.dest i; volume i; vbond i; tdf i].

Definition rowValues (x : stored_row) : list (option string) :=
  match x with
  | ReportRow r => Some (row_key r) :: Some (upload_id r) :: itemValues (row_item r)
  | MasterRow m =>
      itemValues (entry_item m)
      ++ [Some (last_updated_upload_id m); Some (updated_at m); Some (entry_key m);
          Some (first_seen_upload_id m); Some (created_at m)]
  end.

(** [row[searchField]] for a search field other than 'all'. *)
Definition rowField (f : search_field) (x : stored_row) : option string :=
  let i := fieldsOf x in
  match f with
  | all => None
  | hb => Some (LocalDatabase.hb i)
  | mbl => LocalDatabase.mbl i
  | container => LocalDatabase.container i
  | cnee => LocalDatabase.cnee i
  | carrier => LocalDatabase.carrier i
  | vessel => LocalDatabase.vessel i
  | file_no => LocalDatabase.file_no i
  | dest => LocalDatabase.dest i
  end.

(** [val && String(val).toLowerCase().includes(searchLower)] *)
Definition found (searchLower : string) (val : option string) : bool :=
  match val with
  | Some v => truthy v && includes (toLowerCase v) searchLower
  | None => false
  end.

(** [filteredData], lines 948-962. *)
Definition filteredData (data : list stored_row) (searchText : string)
    (searchField : search_field) : list stored_row :=
  if negb (truthy (trim searchText)) then data
  else
    let searchLower := toLowerCase searchText in
    filter (fun row =>
              match searchField with
              | all => existsb (found searchLower) (rowValues row)
              | _ => found searchLower (rowField searchField row)
              end = true) data.

End Dashboard.

(** ** Statements shared by the comparison theorems *)

Module DiffSpec.
Import LocalDatabase.

Definition key (r : report_row) : string := hb (row_item r).

(** [cur] is the oldest upload: the last one of the list, which is kept
    newest first. *)
Definition firstEver (s : storage) (cur : string) : Prop :=
  exists newer u,
    UPLOADS s = newer ++ [u] /\ upload_key u = cur /\
    Forall (fun x => upload_key x <> cur) newer.

(** [prev] is the upload created immediately before [cur]. *)
Definition precededBy (s : storage) (cur prev : string) : Prop :=
  exists newer c p older,
    UPLOADS s = newer ++ c :: p :: older /\
    upload_key c = cur /\ upload_key p = prev /\
    Forall (fun x => upload_key x <> cur) newer.

Definition unknownUpload (s : storage) (cur : string) : Prop :=
  Forall (fun x => upload_key x <> cur) (UPLOADS s).

Definition snapshot (s : storage) (u : string) : list report_row :=
  filter (ofUpload u) (REPORT_DATA s).

(** The records of [u] whose key is absent from the keys of [v], as the
    specification words it. *)
Definition absentFrom (s : storage) (u v : string) : list report_row :=
  filter (fun r => key r ∉ (list_to_set (key <$> snapshot s v) : gset string))
         (snapshot s u).

(** The storage without its keyless records. *)
Definition dropKeyless (s : storage) : storage :=
  {| UPLOADS := UPLOADS s;
     REPORT_DATA := filter (fun r => key r <> "") (REPORT_DATA s);
     MASTER_LIST := MASTER_LIST s |}.

Definition distinctKeys (l : list report_row) : nat :=
  size (list_to_set (key <$> l) : gset string).

End DiffSpec.

(** ** Stores used in the examples *)

Module Fixtures.
Import LocalDatabase.

Definition csvRow (c h m : string) : csv_row :=
  <["CONTAINER" := c]> (<["HB" := h]> (<["MBL" := m]> ∅)).

Definition record (rid u h : string) : report_row :=
  {| row_key := rid; upload_id := u; row_item := itemOf h (csvRow "C1" h "M1") |}.

Definition uploadA : upload :=
  {| upload_key := "A"; filename := "a.csv"; row_count := 3;
     upload_date := "2024-01-01T00:00:00.000Z" |}.

Definition uploadB : upload :=
  {| upload_key := "B"; filename := "b.csv"; row_count := 3;
     upload_date := "2024-01-02T00:00:00.000Z" |}.

(** Upload A with keys 1, 2, 3, then upload B with keys 2, 3, 4. *)
Definition storeAB : storage :=
  {| UPLOADS := [uploadB; uploadA];
     REPORT_DATA := [record "a1" "A" "1"; record "a2" "A" "2"; record "a3" "A" "3";
                     record "b1" "B" "2"; record "b2" "B" "3"; record "b3" "B" "4"];
     MASTER_LIST := [] |}.

(** Upload A with key 1, then upload B whose two records share key 4. *)
Definition storeDup : storage :=
  {| UPLOADS := [uploadB; uploadA];
     REPORT_DATA := [record "a1" "A" "1"; record "b1" "B" "4"; record "b2" "B" "4"];
     MASTER_LIST := [] |}.

(** A single upload A with one keyed and one keyless record. *)
Definition storeKeyless : storage :=
  {| UPLOADS := [uploadA];
     REPORT_DATA := [record "a1" "A" "1"; record "a2" "A" ""];
     MASTER_LIST := [] |}.

(** Upload A with a keyless record, then upload B with a keyless record. *)
Definition storeKeylessAB : storage :=
  {| UPLOADS := [uploadB; uploadA];
     REPORT_DATA := [record "a1" "A" "1"; record "a2" "A" "";
                     record "b1" "B" "2"; record "b2" "B" ""];
     MASTER_LIST := [] |}.

Definition stampFor (tag : string) (i : nat) : stamp :=
  {| generateId := tag; now_updated := "2024-01-01T00:00:00.000Z";
     now_created := "2024-01-01T00:00:00.000Z" |}.

(** Ingesting a.csv (keys 1, 2, 3) and then b.csv (keys 2, 3, 4 with the
    last one in scientific notation) into an empty storage. *)
Definition ingestedAB : storage :=
  let s1 := (saveUpload (stampFor "A" 0) emptyStorage "a.csv" 3).1 in
  let s2 := (saveReportData (stampFor "a") s1 "A"
               [csvRow "C1" "1" "M1"; csvRow "C1" "2" "M1"; csvRow "C1" "3" "M1"]).1 in
  let s3 := (saveUpload (stampFor "B" 0) s2 "b.csv" 3).1 in
  (saveReportData (stampFor "b") s3 "B"
     [csvRow "C1" "2" "M1"; csvRow "C1" "3" "M1"; csvRow "C1" "4E+00" "M1"]).1.

Definition uploadC : upload :=
  {| upload_key := "C"; filename := "c.csv"; row_count := 2;
     upload_date := "2024-01-03T00:00:00.000Z" |}.

(** Upload A with keys 1, 2, then B with keys 2, 3, then C with keys
    3, 4. *)
Definition storeABC : storage :=
  {| UPLOADS := [uploadC; uploadB; uploadA];
     REPORT_DATA := [record "a1" "A" "1"; record "a2" "A" "2";
                     record "b1" "B" "2"; record "b2" "B" "3";
                     record "c1" "C" "3"; record "c2" "C" "4"];
     MASTER_LIST := [] |}.

End Fixtures.

Module RemoteFixtures.
Import Database.

Definition oceanRow (u h : string) : table_row :=
  <["upload_id" := u]> (<["hb" := h]> (<["status" := "active"]> ∅)).

(** One upload A holding a keyed and a keyless row. *)
Definition tablesKeyless : tables :=
  {| uploads := [];
     ocean_data := [oceanRow "A" "1"; oceanRow "A" ""] |}.

End RemoteFixtures.

(** ** Statements shared by the master-list theorems *)

Module MasterSpec.
Import LocalDatabase.

Definition entryKey (m : master_entry) : string := hb (entry_item m).

(** The key [updateMasterList] computes for a row. *)
Definition rowKey (row : csv_row) : string := normalizeHB (row !! "HB").

(** The catalogs that calls of [updateMasterList] produce from the
    empty one. *)
Inductive reachable : list master_entry -> Prop :=
| reachable_empty : reachable []
| reachable_update (env : nat -> stamp) (s : storage) (uploadId : string)
    (rows : list csv_row) :
    reachable (MASTER_LIST s) ->
    reachable (MASTER_LIST (updateMasterList env s uploadId rows).1).

Definition catalogInv (ml : list master_entry) : Prop :=
  NoDup (entryKey <$> ml) /\ Forall (fun m => entryKey m <> "") ml.

Definition clock (t : string) (i : nat) : stamp :=
  {| generateId := "id-" +:+ t; now_updated := t; now_created := t |}.

(** The last row of [rows] whose key is [k]. *)
Fixpoint lastWith (rows : list csv_row) (k : string) : option csv_row :=
  match rows with
  | [] => None
  | r :: rest =>
      match lastWith rest k with
      | Some x => Some x
      | None => if decide (rowKey r = k) then Some r else None
      end
  end.

(** Everything an entry holds but the time of its last update. *)
Definition core (e : master_entry) : item * (string * string * string * string) :=
  (entry_item e,
   (entry_key e, first_seen_upload_id e, created_at e, last_updated_upload_id e)).

(** How ingesting [rows] as upload [u] changes an entry whose key is
    already in the catalog: the last row with its key rewrites its data
    fields and its last-updated upload, and nothing else but the time. *)
Definition rewritten (u : string) (rows : list csv_row) (e e' : master_entry) : Prop :=
  match lastWith rows (entryKey e) with
  | Some r =>
      entry_item e' = itemOf (entryKey e) r /\
      last_updated_upload_id e' = u /\
      entry_key e' = entry_key e /\
      first_seen_upload_id e' = first_seen_upload_id e /\
      created_at e' = created_at e
  | None => e' = e
  end.

(** The catalog after ingesting two rows with keys 1 and 2 as upload A. *)
Definition catalogAB : list master_entry :=
  MASTER_LIST (updateMasterList (clock "t0") emptyStorage "A"
                 [Fixtures.csvRow "C1" "1" "M1"; Fixtures.csvRow "C2" "2" "M1"]).1.

End MasterSpec.

(** ** Statements shared by the row-admission theorems *)

Module CleanSpec.

(** A field carries a value: it is present, non-empty and not "nan" in
    any letter case. *)
Definition carries (v : option string) : Prop :=
  exists s, v = Some s /\ s <> "" /\ toLowerCase s <> "nan".

(** A row with a key and no container. *)
Definition hbOnlyRow : csv_row := Fixtures.csvRow "" "H1" "".

End CleanSpec.

Module StoreSpec.
Import LocalDatabase.
(** Two versions of one catalog entry: the same key, id, first-seen
    upload and creation time. *)
Definition sameOrigin (e e' : master_entry) : Prop :=
  hb (entry_item e') = hb (entry_item e) /\
  entry_key e' = entry_key e /\
  first_seen_upload_id e' = first_seen_upload_id e /\
  created_at e' = created_at e.

(** The rows that [getDataGroupedByMBL] groups: the report rows of the
    upload, or the master list when no upload id is given. *)
Definition tallyRows (s : storage) (uploadId : option string) : list stored_row :=
  match uploadId with
  | Some u =>
      if truthy u then ReportRow <$> filter (ofUpload u) (REPORT_DATA s)
      else MasterRow <$> MASTER_LIST s
  | None => MasterRow <$> MASTER_LIST s
  end.

(** The containers of some rows, each once, in order of first
    appearance. *)
Definition containersOf (rows : list stored_row) : list string :=
  foldl (fun l x => addContainer x l) [] rows.

(** The groups built from the rows [seen]. *)
Definition grouping (seen : list stored_row) (grouped : gmap string group) : Prop :=
  forall k,
    match grouped !! k with
    | Some g =>
        (k ∉ objectPrototypeNames) /\
        group_mbl g = k /\
        group_items g = filter (fun x => groupName x = k) seen /\
        group_items g <> [] /\
        group_containers g = containersOf (group_items g)
    | None => Forall (fun x => groupName x <> k) seen
    end.

End StoreSpec.

(** ** Vocabulary of the normaliser theorems *)

Module NumberSpec.

(** The head of [l], if any, does not satisfy [p]. *)
Definition headIsNot {A} (p : A -> bool) (l : list A) : Prop :=
  match l with x :: _ => p x = false | [] => True end.

(** The significand and exponent of a finite double. *)
Definition wfFin (m e : Z) : Prop :=
  0 < m < 2 ^ 53 /\ -1074 <= e <= 971 /\ (2 ^ 52 <= m \/ e = -1074).

Definition wf (x : number) : Prop :=
  match x with Fin _ m e => wfFin m e | _ => True end.

(** The finite double m * 2^e is an integer. *)
Definition integral (m e : Z) : Prop := 0 <= e \/ m mod 2 ^ (- e) = 0.

Definition integerValued (x : number) : Prop :=
  match x with Fin _ m e => integral m e | _ => True end.

(** The integer m * 2^e, for an integral double. *)
Definition intValue (m e : Z) : Z :=
  if 0 <=? e then m * 2 ^ e else m / 2 ^ (- e).

Definition withSign (neg : bool) (x : number) : number :=
  match x with
  | NaN => NaN
  | Inf _ => Inf neg
  | Zero _ => Zero neg
  | Fin _ m e => Fin neg m e
  end.

Definition isNegative (x : number) : bool :=
  match x with
  | Fin neg _ _ => neg
  | Inf neg => neg
  | Zero neg => neg
  | NaN => false
  end.

(** Integer truncation: towards zero, as the specification words the
    normaliser ("drops fractional part; does not round"). *)
Definition truncate (x : number) : number :=
  match x with
  | Fin neg m e =>
      if 0 <=? e then x
      else
        let q := m / 2 ^ (- e) in
        if m mod 2 ^ (- e) =? 0 then x
        else if q =? 0 then Zero neg
        else roundRatio neg q 1
  | _ => x
  end.

End NumberSpec.

Import NumberSpec.

(* ================================================================== *)
(** * Theorems *)
(* ================================================================== *)

(** ** Comparison operations of the local store *)

Section DiffEngine.
Import LocalDatabase DiffSpec.

Lemma truthy_true (h : string) : truthy h = true <-> h <> "".
Proof.
  unfold truthy. destruct (String.eqb_spec h ""); simpl; split; congruence.
Qed.

Lemma findIndex_absent {A} (P : A -> Prop) `{forall x, Decision (P x)} (l : list A) :
  Forall (fun x => ~ P x) l -> findIndex P l = -1.
Proof.
  intros Hl. unfold findIndex.
  by rewrite (proj2 (list_find_None P l) Hl).
Qed.

Lemma findIndex_at {A} (P : A -> Prop) `{forall x, Decision (P x)} (l1 l2 : list A) x :
  Forall (fun y => ~ P y) l1 -> P x ->
  findIndex P (l1 ++ x :: l2) = Z.of_nat (length l1).
Proof.
  intros Hl Hx. unfold findIndex.
  rewrite list_find_app_r by (by apply list_find_None).
  simpl. rewrite decide_True by done. simpl. f_equal.
Qed.

Lemma elem_of_hbSet (rd : list report_row) (u h : string) :
  h ∈ hbSet rd u <->
  exists r, r ∈ rd /\ upload_id r = u /\ key r = h /\ h <> "".
Proof.
  unfold hbSet. rewrite elem_of_list_to_set, list_elem_of_fmap. split.
  - intros (r & -> & Hr). apply list_elem_of_filter in Hr as [Hku Hr].
    destruct Hku as [Hu Hk].
    exists r. split_and!; auto. by apply truthy_true.
  - intros (r & Hr & Hu & Hk & Hne). exists r. split; [done|].
    apply list_elem_of_filter. split; [|done]. split; [done|].
    apply truthy_true. unfold key in Hk. congruence.
Qed.

Lemma countMissing_distinct (rd : list report_row) (u v : string) :
  countMissing (hbSet rd u) (hbSet rd v)
  = distinctKeys (filter (keyedAndMissing (hbSet rd v)) (filter (ofUpload u) rd)).
Proof.
  unfold countMissing, distinctKeys. f_equal. apply set_eq. intros h.
  rewrite elem_of_filter, elem_of_list_to_set, list_elem_of_fmap.
  split.
  - intros [Hv Hh]. apply elem_of_hbSet in Hh as (r & Hr & Hu & Hk & Hne).
    exists r. split; [done|].
    apply list_elem_of_filter. split.
    + split; [apply truthy_true|]; unfold key in Hk; congruence.
    + apply list_elem_of_filter. by split.
  - intros (r & -> & Hr). apply list_elem_of_filter in Hr as [Hkm Hr].
    destruct Hkm as [Ht Hm].
    apply list_elem_of_filter in Hr as [Hu Hr]. split; [done|].
    apply elem_of_hbSet.
    exists r. split_and!; auto. by apply truthy_true.
Qed.

(** The guard and the index of the predecessor, in the three situations
    the claims distinguish. *)
Lemma noPrevious_unknown (s : storage) (cur : string) :
  unknownUpload s cur ->
  noPrevious (UPLOADS s) (findIndex (isUpload cur) (UPLOADS s)) = true.
Proof.
  intros Hu. rewrite findIndex_absent by done. reflexivity.
Qed.

Lemma noPrevious_first (s : storage) (cur : string) :
  firstEver s cur ->
  noPrevious (UPLOADS s) (findIndex (isUpload cur) (UPLOADS s)) = true.
Proof.
  intros (newer & u & -> & Hu & Hn).
  rewrite findIndex_at by done. unfold noPrevious.
  rewrite length_app. simpl. apply orb_true_iff. right. apply Z.leb_le. lia.
Qed.

Lemma previous_found (s : storage) (cur prev : string) :
  precededBy s cur prev ->
  noPrevious (UPLOADS s) (findIndex (isUpload cur) (UPLOADS s)) = false /\
  prevUploadId (UPLOADS s) (findIndex (isUpload cur) (UPLOADS s)) = Some prev.
Proof.
  intros (newer & c & p & older & -> & Hc & Hp & Hn).
  rewrite findIndex_at by done. split.
  - unfold noPrevious. rewrite length_app. simpl.
    apply orb_false_iff. split; [apply Z.eqb_neq|apply Z.leb_gt]; lia.
  - unfold prevUploadId.
    replace (Z.to_nat (Z.of_nat (length newer) + 1)) with (length newer + 1)%nat by lia.
    rewrite lookup_app_r by lia.
    replace (length newer + 1 - length newer)%nat with 1%nat by lia.
    simpl. by rewrite Hp.
Qed.

(** When the guard fails the predecessor exists: the comparison
    operations never read [.id] of [undefined]. *)
Lemma prevUploadId_defined (ups : list upload) (cur : string) :
  noPrevious ups (findIndex (isUpload cur) ups) = false ->
  is_Some (prevUploadId ups (findIndex (isUpload cur) ups)).
Proof.
  unfold noPrevious, prevUploadId, findIndex. intros Hg.
  apply orb_false_iff in Hg as [H1 H2].
  destruct (list_find (isUpload cur) ups) as [[i x]|]; [|done].
  apply Z.leb_gt in H2.
  apply fmap_is_Some, lookup_lt_is_Some. lia.
Qed.

(** Uploads are stored newest first: the upload that [saveUpload] adds
    is preceded by the one that was the newest before, and is the
    first-ever one when there was none. *)
Lemma saveUpload_order (st : stamp) (s : storage) (name : string) (n : nat) :
  match UPLOADS s with
  | [] => firstEver (saveUpload st s name n).1 (generateId st)
  | u :: _ => precededBy (saveUpload st s name n).1 (generateId st) (upload_key u)
  end.
Proof.
  destruct (UPLOADS s) as [|u rest] eqn:E.
  - eexists [], _. simpl. rewrite E. by split_and!.
  - eexists [], _, u, rest. simpl. rewrite E. by split_and!.
Qed.


Example ingest_then_diff :
  getNewItemsData Fixtures.ingestedAB "B"
    = Some [{| row_key := "b"; upload_id := "B";
               row_item := itemOf "4" (Fixtures.csvRow "C1" "4E+00" "M1") |}] /\
  key <$> default [] (getRemovedItemsData Fixtures.ingestedAB "B") = ["1"] /\
  detectNewItems Fixtures.ingestedAB "B" = Some 1%nat /\
  detectRemovedItems Fixtures.ingestedAB "B" = Some 1%nat /\
  detectNewItems Fixtures.ingestedAB "A" = Some 3%nat /\
  detectRemovedItems Fixtures.ingestedAB "A" = Some 0%nat.
Proof. vm_compute. by split_and!. Qed.

End DiffEngine.

Section DiffTheorems.
Import LocalDatabase DiffSpec.

Lemma elem_of_keyedAndMissing (rd : list report_row) (u v : string) (r : report_row) :
  r ∈ filter (keyedAndMissing (hbSet rd v)) (filter (ofUpload u) rd) <->
  r ∈ rd /\ upload_id r = u /\ key r <> "" /\
  forall r', r' ∈ rd -> upload_id r' = v -> key r' <> key r.
Proof.
  rewrite !list_elem_of_filter. unfold keyedAndMissing, ofUpload.
  rewrite truthy_true, elem_of_hbSet. split.
  - intros [[Hk Hm] [Hu Hr]]. split_and!; auto.
    intros r' Hr' Hv Heq. apply Hm. exists r'. by split_and!.
  - intros (Hr & Hu & Hk & Hm). split_and!; auto.
    intros (r' & Hr' & Hv & Heq & _). by apply (Hm r').
Qed.

(** C5.  For the first-ever upload the new items are all its records,
    [detectNewItems] is their number, and nothing is removed. *)
Theorem first_upload_all_new (s : storage) (cur : string) :
  firstEver s cur ->
  getNewItemsData s cur = Some (snapshot s cur) /\
  detectNewItems s cur = Some (length (snapshot s cur)) /\
  getRemovedItemsData s cur = Some [] /\
  detectRemovedItems s cur = Some 0%nat.
Proof.
  intros Hf. apply noPrevious_first in Hf.
  unfold getNewItemsData, detectNewItems, getRemovedItemsData, detectRemovedItems.
  rewrite Hf. by split_and!.
Qed.

Lemma first_upload_all_new_witness :
  firstEver Fixtures.storeKeyless "A" /\
  getNewItemsData Fixtures.storeKeyless "A"
    = Some [Fixtures.record "a1" "A" "1"; Fixtures.record "a2" "A" ""] /\
  detectNewItems Fixtures.storeKeyless "A" = Some 2%nat /\
  getRemovedItemsData Fixtures.storeKeyless "A" = Some [] /\
  detectRemovedItems Fixtures.storeKeyless "A" = Some 0%nat.
Proof.
  assert (Hf : firstEver Fixtures.storeKeyless "A").
  { exists [], Fixtures.uploadA. split_and!; [reflexivity|reflexivity|constructor]. }
  split; [exact Hf|].
  exact (first_upload_all_new Fixtures.storeKeyless "A" Hf).
Defined.

(** C10.  An upload id that is not in the uploads list is handled like a
    first upload: everything stored under it is new, nothing is removed,
    and no operation fails. *)
Theorem unknown_upload_like_first (s : storage) (cur : string) :
  unknownUpload s cur ->
  getNewItemsData s cur = Some (snapshot s cur) /\
  detectNewItems s cur = Some (length (snapshot s cur)) /\
  getRemovedItemsData s cur = Some [] /\
  detectRemovedItems s cur = Some 0%nat.
Proof.
  intros Hu. apply noPrevious_unknown in Hu.
  unfold getNewItemsData, detectNewItems, getRemovedItemsData, detectRemovedItems.
  rewrite Hu. by split_and!.
Qed.

Lemma unknown_upload_like_first_witness :
  unknownUpload Fixtures.storeAB "Z" /\
  getNewItemsData Fixtures.storeAB "Z" = Some [] /\
  detectNewItems Fixtures.storeAB "Z" = Some 0%nat /\
  getRemovedItemsData Fixtures.storeAB "Z" = Some [] /\
  detectRemovedItems Fixtures.storeAB "Z" = Some 0%nat.
Proof.
  assert (Hu : unknownUpload Fixtures.storeAB "Z").
  { repeat constructor; discriminate. }
  split; [exact Hu|].
  exact (unknown_upload_like_first Fixtures.storeAB "Z" Hu).
Defined.

(** C4, as stated, fails on counts: upload B has two records with the
    new key 4; both are new items, also in the specification's wording,
    while [detectNewItems] reports 1. *)
Lemma diff_counts_counterexample :
  precededBy Fixtures.storeDup "B" "A" /\
  getNewItemsData Fixtures.storeDup "B"
    = Some [Fixtures.record "b1" "B" "4"; Fixtures.record "b2" "B" "4"] /\
  absentFrom Fixtures.storeDup "B" "A"
    = [Fixtures.record "b1" "B" "4"; Fixtures.record "b2" "B" "4"] /\
  detectNewItems Fixtures.storeDup "B" = Some 1%nat /\
  detectNewItems Fixtures.storeDup "B"
    <> Some (length (absentFrom Fixtures.storeDup "B" "A")).
Proof.
  split.
  { exists [], Fixtures.uploadB, Fixtures.uploadA, [].
    split_and!; [reflexivity|reflexivity|reflexivity|constructor]. }
  split; [vm_compute; reflexivity|].
  split; [vm_compute; reflexivity|].
  split; [vm_compute; reflexivity|].
  vm_compute. discriminate.
Qed.

(** C4, amended.  With a predecessor, the new items are the records of
    the current upload that carry a non-empty key which no record of the
    previous upload carries, the removed items the records of the
    previous upload with a non-empty key that no current record carries,
    both in stored order; the count variants return the number of
    distinct keys among them, which is their number when those keys are
    pairwise distinct. *)
Theorem diff_with_previous (s : storage) (cur prev : string) :
  precededBy s cur prev ->
  exists new removed,
    getNewItemsData s cur = Some new /\
    getRemovedItemsData s cur = Some removed /\
    (forall r, r ∈ new <->
       r ∈ REPORT_DATA s /\ upload_id r = cur /\ key r <> "" /\
       forall r', r' ∈ REPORT_DATA s -> upload_id r' = prev -> key r' <> key r) /\
    (forall r, r ∈ removed <->
       r ∈ REPORT_DATA s /\ upload_id r = prev /\ key r <> "" /\
       forall r', r' ∈ REPORT_DATA s -> upload_id r' = cur -> key r' <> key r) /\
    sublist new (REPORT_DATA s) /\ sublist removed (REPORT_DATA s) /\
    detectNewItems s cur = Some (distinctKeys new) /\
    detectRemovedItems s cur = Some (distinctKeys removed) /\
    (NoDup (key <$> new) -> detectNewItems s cur = Some (length new)) /\
    (NoDup (key <$> removed) -> detectRemovedItems s cur = Some (length removed)).
Proof.
  intros Hp. apply previous_found in Hp as [Hg Hprev].
  unfold getNewItemsData, detectNewItems, getRemovedItemsData, detectRemovedItems.
  rewrite Hg, Hprev. simpl.
  eexists _, _. split; [reflexivity|]. split; [reflexivity|].
  split; [intros r; apply elem_of_keyedAndMissing|].
  split; [intros r; apply elem_of_keyedAndMissing|].
  split; [etrans; apply sublist_filter|].
  split; [etrans; apply sublist_filter|].
  rewrite !countMissing_distinct.
  split; [reflexivity|]. split; [reflexivity|].
  unfold distinctKeys.
  split; intros Hnd; rewrite size_list_to_set by done; by rewrite length_fmap.
Qed.

Lemma diff_with_previous_witness :
  precededBy Fixtures.storeAB "B" "A" /\
  getNewItemsData Fixtures.storeAB "B" = Some [Fixtures.record "b3" "B" "4"] /\
  getRemovedItemsData Fixtures.storeAB "B" = Some [Fixtures.record "a1" "A" "1"] /\
  detectNewItems Fixtures.storeAB "B" = Some 1%nat /\
  detectRemovedItems Fixtures.storeAB "B" = Some 1%nat.
Proof.
  assert (Hp : precededBy Fixtures.storeAB "B" "A").
  { exists [], Fixtures.uploadB, Fixtures.uploadA, [].
    split_and!; [reflexivity|reflexivity|reflexivity|constructor]. }
  split; [exact Hp|].
  destruct (diff_with_previous Fixtures.storeAB "B" "A" Hp)
    as (new & removed & Hn & Hr & _ & _ & _ & _ & Hcn & Hcr & _).
  assert (En : new = [Fixtures.record "b3" "B" "4"]).
  { apply (inj Some). rewrite <- Hn. vm_compute. reflexivity. }
  assert (Er : removed = [Fixtures.record "a1" "A" "1"]).
  { apply (inj Some). rewrite <- Hr. vm_compute. reflexivity. }
  subst new removed. split_and!; [exact Hn|exact Hr|..].
  - rewrite Hcn. vm_compute. reflexivity.
  - rewrite Hcr. vm_compute. reflexivity.
Defined.

End DiffTheorems.

Section KeylessRecords.
Import LocalDatabase DiffSpec.

Lemma hbSet_dropKeyless (rd : list report_row) (u : string) :
  hbSet (filter (fun r => key r <> "") rd) u = hbSet rd u.
Proof.
  apply set_eq. intros h. rewrite !elem_of_hbSet. split.
  - intros (r & Hr & Hu & Hk & Hne).
    apply list_elem_of_filter in Hr as [_ Hr]. by exists r.
  - intros (r & Hr & Hu & Hk & Hne). exists r. split_and!; auto.
    apply list_elem_of_filter. split; [congruence|done].
Qed.

(** The comparison operations are total: none of them fails, whatever
    the storage holds and whatever id is asked for. *)
Lemma diff_total (s : storage) (cur : string) :
  is_Some (getNewItemsData s cur) /\ is_Some (getRemovedItemsData s cur) /\
  is_Some (detectNewItems s cur) /\ is_Some (detectRemovedItems s cur).
Proof.
  unfold getNewItemsData, detectNewItems, getRemovedItemsData, detectRemovedItems.
  destruct (noPrevious (UPLOADS s) (findIndex (isUpload cur) (UPLOADS s))) eqn:Hg.
  - by split_and!.
  - destruct (prevUploadId_defined _ _ Hg) as [p ->]. simpl. by split_and!.
Qed.

(** C6, as stated, fails for an upload without predecessor: the keyless
    record a2 of the only upload A is returned as a new item and is
    counted. *)
Lemma keyless_first_upload_counterexample :
  firstEver Fixtures.storeKeyless "A" /\
  key (Fixtures.record "a2" "A" "") = "" /\
  (exists new, getNewItemsData Fixtures.storeKeyless "A" = Some new /\
               Fixtures.record "a2" "A" "" ∈ new) /\
  detectNewItems Fixtures.storeKeyless "A" = Some 2%nat /\
  detectNewItems (dropKeyless Fixtures.storeKeyless) "A" = Some 1%nat.
Proof.
  split.
  { exists [], Fixtures.uploadA. split_and!; [reflexivity|reflexivity|constructor]. }
  split; [reflexivity|].
  split.
  { eexists. split; [vm_compute; reflexivity|]. apply list_elem_of_In. right. left. reflexivity. }
  split; vm_compute; reflexivity.
Qed.

(** The Supabase branch of [getNewItemsData] behaves the same. *)
Example remote_keyless_first_upload :
  Database.getNewItemsData ["A"] RemoteFixtures.tablesKeyless "A"
  = Some [RemoteFixtures.oceanRow "A" "1"; RemoteFixtures.oceanRow "A" ""].
Proof. vm_compute. reflexivity. Qed.

(** C6, amended.  No comparison operation fails.  A keyless record is
    never among the removed items and never changes
    [detectRemovedItems]; for an upload that has a predecessor it is
    never among the new items and never changes [detectNewItems]. *)
Theorem keyless_excluded (s : storage) (cur : string) (r : report_row) :
  key r = "" ->
  (is_Some (getNewItemsData s cur) /\ is_Some (getRemovedItemsData s cur) /\
   is_Some (detectNewItems s cur) /\ is_Some (detectRemovedItems s cur)) /\
  (forall removed, getRemovedItemsData s cur = Some removed -> r ∉ removed) /\
  detectRemovedItems (dropKeyless s) cur = detectRemovedItems s cur /\
  (forall prev, precededBy s cur prev ->
     (forall new, getNewItemsData s cur = Some new -> r ∉ new) /\
     detectNewItems (dropKeyless s) cur = detectNewItems s cur).
Proof.
  intros Hk. split; [apply diff_total|].
  split; [|split].
  - unfold getRemovedItemsData. intros removed.
    destruct (noPrevious _ _).
    + intros [= <-]. apply not_elem_of_nil.
    + destruct (prevUploadId _ _) as [p|]; simpl; [|done].
      intros [= <-] Hin. apply list_elem_of_filter in Hin as [Hkm _].
      destruct Hkm as [Ht _]. apply truthy_true in Ht. by apply Ht.
  - unfold detectRemovedItems. simpl.
    destruct (noPrevious _ _); [done|].
    destruct (prevUploadId _ _) as [p|]; simpl; [|done].
    by rewrite !hbSet_dropKeyless.
  - intros prev Hp. apply previous_found in Hp as [Hg Hprev]. split.
    + unfold getNewItemsData. rewrite Hg, Hprev. simpl.
      intros new [= <-] Hin. apply list_elem_of_filter in Hin as [Hkm _].
      destruct Hkm as [Ht _]. apply truthy_true in Ht. by apply Ht.
    + unfold detectNewItems. simpl. rewrite Hg, Hprev. simpl.
      by rewrite !hbSet_dropKeyless.
Qed.

Lemma keyless_excluded_witness :
  key (Fixtures.record "b2" "B" "") = "" /\
  precededBy Fixtures.storeKeylessAB "B" "A" /\
  getNewItemsData Fixtures.storeKeylessAB "B" = Some [Fixtures.record "b1" "B" "2"] /\
  (Fixtures.record "b2" "B" "" ∉ [Fixtures.record "b1" "B" "2"]) /\
  detectNewItems (dropKeyless Fixtures.storeKeylessAB) "B"
    = detectNewItems Fixtures.storeKeylessAB "B".
Proof.
  assert (Hp : precededBy Fixtures.storeKeylessAB "B" "A").
  { exists [], Fixtures.uploadB, Fixtures.uploadA, [].
    split_and!; [reflexivity|reflexivity|reflexivity|constructor]. }
  assert (Hn : getNewItemsData Fixtures.storeKeylessAB "B"
               = Some [Fixtures.record "b1" "B" "2"]).
  { vm_compute. reflexivity. }
  destruct (keyless_excluded Fixtures.storeKeylessAB "B"
              (Fixtures.record "b2" "B" "") eq_refl) as (_ & _ & _ & H).
  destruct (H "A" Hp) as [Hnew Hcount].
  split_and!; [reflexivity|exact Hp|exact Hn|exact (Hnew _ Hn)|exact Hcount].
Defined.

End KeylessRecords.

(** ** Master list of the local store *)

Section MasterList.
Import LocalDatabase MasterSpec.

Implicit Types (ml : list master_entry) (row : csv_row) (st : stamp).

Lemma upsertRows_cons env i uploadId row rows (acc : list master_entry * nat * nat) :
  upsertRows env i uploadId (row :: rows) acc
  = upsertRows env (S i) uploadId rows (upsertRow uploadId (env i) acc row).
Proof. reflexivity. Qed.

Lemma upsertRow_skip uploadId st ml a b row :
  rowKey row = "" ->
  upsertRow uploadId st (ml, a, b) row = (ml, a, b).
Proof. unfold upsertRow, rowKey. intros ->. reflexivity. Qed.

Lemma upsertRow_add uploadId st ml a b row :
  rowKey row <> "" ->
  Forall (fun m => entryKey m <> rowKey row) ml ->
  upsertRow uploadId st (ml, a, b) row =
    (ml ++ [{| entry_item := itemOf (rowKey row) row;
               last_updated_upload_id := uploadId;
               updated_at := now_updated st;
               entry_key := generateId st;
               first_seen_upload_id := uploadId;
               created_at := now_created st |}], S a, b).
Proof.
  intros Hk Hfresh. unfold upsertRow. fold (rowKey row).
  apply truthy_true in Hk. rewrite Hk. simpl.
  by rewrite (proj2 (list_find_None (hasKey (rowKey row)) ml) Hfresh).
Qed.

Lemma upsertRow_update uploadId st ml a b row i existing :
  rowKey row <> "" ->
  list_find (hasKey (rowKey row)) ml = Some (i, existing) ->
  upsertRow uploadId st (ml, a, b) row =
    (<[i := {| entry_item := itemOf (rowKey row) row;
               last_updated_upload_id := uploadId;
               updated_at := now_updated st;
               entry_key := entry_key existing;
               first_seen_upload_id := first_seen_upload_id existing;
               created_at := created_at existing |}]> ml, a, S b).
Proof.
  intros Hk Hfind. unfold upsertRow. fold (rowKey row).
  apply truthy_true in Hk. rewrite Hk. simpl. by rewrite Hfind.
Qed.

(** An in-place update leaves the list of keys as it was. *)
Lemma keys_insert_same ml i existing (e : master_entry) :
  ml !! i = Some existing -> entryKey e = entryKey existing ->
  entryKey <$> <[i := e]> ml = entryKey <$> ml.
Proof.
  intros Hi He. rewrite list_fmap_insert, He.
  apply list_insert_id. by rewrite list_lookup_fmap, Hi.
Qed.

Lemma upsertRow_inv uploadId st ml a b row :
  catalogInv ml -> catalogInv (upsertRow uploadId st (ml, a, b) row).1.1.
Proof.
  intros [Hnd Hne].
  destruct (decide (rowKey row = "")) as [Hk|Hk].
  { by rewrite upsertRow_skip. }
  destruct (list_find (hasKey (rowKey row)) ml) as [[i existing]|] eqn:Hfind.
  - rewrite (upsertRow_update _ _ _ _ _ _ _ _ Hk Hfind). simpl.
    apply list_find_Some in Hfind as (Hi & Hh & _).
    split.
    + by rewrite (keys_insert_same _ _ existing).
    + apply Forall_insert; [done|]. done.
  - apply list_find_None in Hfind.
    rewrite upsertRow_add; [|done|].
    2:{ eapply Forall_impl; [exact Hfind|]. intros m Hm. exact Hm. }
    simpl. split.
    + rewrite fmap_app. apply NoDup_app. split; [done|]. split.
      * intros k Hin Hin'. apply list_elem_of_fmap in Hin as (m & -> & Hm).
        apply list_elem_of_singleton in Hin'.
        eapply Forall_forall in Hfind; [|exact Hm]. by apply Hfind.
      * apply NoDup_singleton.
    + apply Forall_app. split; [done|]. by constructor.
Qed.

Lemma upsertRows_inv env i uploadId rows ml a b :
  catalogInv ml -> catalogInv (upsertRows env i uploadId rows (ml, a, b)).1.1.
Proof.
  revert i ml a b. induction rows as [|row rows IH]; intros i ml a b Hinv; [done|].
  rewrite upsertRows_cons.
  destruct (upsertRow uploadId (env i) (ml, a, b) row) as [[ml' a'] b'] eqn:E.
  apply IH. change ml' with (ml', a', b').1.1. rewrite <- E. by apply upsertRow_inv.
Qed.

Lemma updateMasterList_list env s uploadId rows :
  MASTER_LIST (updateMasterList env s uploadId rows).1
  = (upsertRows env 0 uploadId rows (MASTER_LIST s, 0%nat, 0%nat)).1.1.
Proof.
  unfold updateMasterList.
  by destruct (upsertRows env 0 uploadId rows _) as [[ml a] b].
Qed.

Lemma reachable_inv ml : reachable ml -> catalogInv ml.
Proof.
  induction 1 as [|env s uploadId rows _ IH].
  - split; constructor.
  - rewrite updateMasterList_list. by apply upsertRows_inv.
Qed.

(** C8.  Every catalog reachable from the empty one holds at most one
    entry per key and no entry with an empty key; a row whose key is
    already present rewrites the entry that carries it and leaves the
    keys of the catalog as they were. *)
Theorem master_list_key_unique ml :
  reachable ml ->
  NoDup (entryKey <$> ml) /\
  Forall (fun m => entryKey m <> "") ml /\
  forall uploadId st a b row,
    rowKey row ∈ entryKey <$> ml ->
    exists i e,
      upsertRow uploadId st (ml, a, b) row = (<[i := e]> ml, a, S b) /\
      (i < length ml)%nat /\
      entry_item e = itemOf (rowKey row) row /\
      entryKey <$> <[i := e]> ml = entryKey <$> ml.
Proof.
  intros Hr. destruct (reachable_inv ml Hr) as [Hnd Hne].
  split; [done|]. split; [done|].
  intros uploadId st a b row Hin.
  apply list_elem_of_fmap in Hin as (m & Hm & Hin).
  assert (Hk : rowKey row <> "").
  { rewrite Hm. eapply Forall_forall in Hne; [exact Hne|done]. }
  destruct (list_find_elem_of (hasKey (rowKey row)) ml m Hin) as [[i existing] Hfind].
  { unfold hasKey. by rewrite Hm. }
  eexists i, _. split; [by apply upsertRow_update|].
  apply list_find_Some in Hfind as (Hi & Hh & _).
  split; [by eapply lookup_lt_Some|]. split; [done|].
  by apply (keys_insert_same _ _ existing).
Qed.

End MasterList.

Section MasterListClaims.
Import LocalDatabase MasterSpec.

Lemma master_list_key_unique_witness :
  reachable catalogAB /\
  NoDup (entryKey <$> catalogAB) /\
  Forall (fun m => entryKey m <> "") catalogAB /\
  entryKey <$> catalogAB = ["1"; "2"].
Proof.
  assert (Hr : reachable catalogAB).
  { unfold catalogAB. apply reachable_update. simpl. apply reachable_empty. }
  destruct (master_list_key_unique catalogAB Hr) as (Hnd & Hne & _).
  split_and!; [exact Hr|exact Hnd|exact Hne|vm_compute; reflexivity].
Defined.

(** C7.  From an empty catalog, ingesting one row with a usable key
    reports one item added; ingesting the same row again under the same
    upload id reports one item updated; the catalog then holds one entry
    whose data fields, id, first-seen upload, creation time and
    last-updated upload are those the first call stored. *)
Theorem double_ingest (env1 env2 : nat -> stamp) (s0 : storage)
    (uploadId : string) (row : csv_row) :
  MASTER_LIST s0 = [] ->
  rowKey row <> "" ->
  exists s1 s2 e1 e2,
    updateMasterList env1 s0 uploadId [row]
      = (s1, {| itemsAdded := 1; itemsUpdated := 0 |}) /\
    updateMasterList env2 s1 uploadId [row]
      = (s2, {| itemsAdded := 0; itemsUpdated := 1 |}) /\
    MASTER_LIST s1 = [e1] /\ MASTER_LIST s2 = [e2] /\
    entry_item e1 = itemOf (rowKey row) row /\
    entry_item e2 = entry_item e1 /\
    entry_key e2 = entry_key e1 /\
    first_seen_upload_id e2 = first_seen_upload_id e1 /\
    created_at e2 = created_at e1 /\
    last_updated_upload_id e2 = last_updated_upload_id e1 /\
    updated_at e2 = now_updated (env2 0%nat).
Proof.
  intros Hempty Hk.
  pose (e1 := {| entry_item := itemOf (rowKey row) row;
                 last_updated_upload_id := uploadId;
                 updated_at := now_updated (env1 0%nat);
                 entry_key := generateId (env1 0%nat);
                 first_seen_upload_id := uploadId;
                 created_at := now_created (env1 0%nat) |}).
  pose (s1 := {| UPLOADS := UPLOADS s0; REPORT_DATA := REPORT_DATA s0;
                 MASTER_LIST := [e1] |}).
  assert (H1 : updateMasterList env1 s0 uploadId [row]
               = (s1, {| itemsAdded := 1; itemsUpdated := 0 |})).
  { unfold updateMasterList. rewrite Hempty, upsertRows_cons.
    rewrite upsertRow_add by (done || constructor). reflexivity. }
  assert (Hfind : list_find (hasKey (rowKey row)) [e1] = Some (0%nat, e1)).
  { simpl. rewrite decide_True by reflexivity. reflexivity. }
  eexists s1, _, e1, _. split; [exact H1|].
  split.
  { unfold updateMasterList. simpl MASTER_LIST. rewrite upsertRows_cons.
    rewrite (upsertRow_update _ _ _ _ _ _ _ _ Hk Hfind). reflexivity. }
  simpl. by split_and!.
Qed.

Lemma double_ingest_witness :
  rowKey (Fixtures.csvRow "C1" "6.17E+08" "M1") = "617000000" /\
  exists s1 s2 e,
    updateMasterList (clock "t1") emptyStorage "A" [Fixtures.csvRow "C1" "6.17E+08" "M1"]
      = (s1, {| itemsAdded := 1; itemsUpdated := 0 |}) /\
    updateMasterList (clock "t2") s1 "A" [Fixtures.csvRow "C1" "6.17E+08" "M1"]
      = (s2, {| itemsAdded := 0; itemsUpdated := 1 |}) /\
    MASTER_LIST s2 = [e] /\ hb (entry_item e) = "617000000".
Proof.
  assert (Hk : rowKey (Fixtures.csvRow "C1" "6.17E+08" "M1") = "617000000").
  { vm_compute. reflexivity. }
  split; [exact Hk|].
  destruct (double_ingest (clock "t1") (clock "t2") emptyStorage "A"
              (Fixtures.csvRow "C1" "6.17E+08" "M1") eq_refl)
    as (s1 & s2 & e1 & e2 & H1 & H2 & _ & Hl2 & Hi1 & Hi2 & _).
  { rewrite Hk. discriminate. }
  exists s1, s2, e2. split_and!; [exact H1|exact H2|exact Hl2|].
  rewrite Hi2, Hi1. simpl. exact Hk.
Defined.

End MasterListClaims.

(** ** The two backends of the master list *)

Section Backends.
Import MasterSpec.

Lemma upsertRows_fresh env i uploadId (rows : list csv_row)
    (ml : list LocalDatabase.master_entry) (a b : nat) :
  Forall (fun row => rowKey row <> "") rows ->
  NoDup (rowKey <$> rows) ->
  (forall row, row ∈ rows -> rowKey row ∉ entryKey <$> ml) ->
  let r := LocalDatabase.upsertRows env i uploadId rows (ml, a, b) in
  entryKey <$> r.1.1 = (entryKey <$> ml) ++ (rowKey <$> rows) /\
  r.1.2 = (a + length rows)%nat /\ r.2 = b.
Proof.
  revert i ml a b. induction rows as [|row rows IH]; intros i ml a b Hne Hnd Hfresh.
  { simpl. rewrite app_nil_r. split_and!; [done|lia|done]. }
  apply Forall_cons in Hne as [Hk Hne]. rewrite fmap_cons in Hnd.
  apply NoDup_cons in Hnd as [Hrow Hnd].
  rewrite upsertRows_cons. rewrite upsertRow_add; [|done|].
  2:{ apply Forall_forall. intros m Hm Heq.
      apply (Hfresh row); [left|]. apply list_elem_of_fmap. by exists m. }
  edestruct (IH (S i)) as (Hkeys & Ha & Hb); [exact Hne|exact Hnd| |].
  2:{ cbv zeta. rewrite Hkeys, Ha, Hb. rewrite fmap_app. simpl.
      rewrite <- app_assoc. simpl. split_and!; [done|lia|done]. }
  intros row' Hin. rewrite fmap_app. simpl. intros Hin'.
  apply elem_of_app in Hin' as [Hin'|Hin'].
  - apply (Hfresh row'); [by right|done].
  - apply list_elem_of_singleton in Hin'. unfold entryKey in Hin'. simpl in Hin'.
    apply Hrow. rewrite <- Hin'. apply list_elem_of_fmap. by exists row'.
Qed.

Lemma filter_none {A} (P : A -> Prop) `{forall x, Decision (P x)} (l : list A) :
  Forall (fun x => ~ P x) l -> filter P l = [].
Proof.
  induction 1 as [|x l Hx _ IH]; [done|].
  by rewrite filter_cons_False.
Qed.

Lemma filter_all {A} (P : A -> Prop) `{forall x, Decision (P x)} (l : list A) :
  Forall P l -> filter P l = l.
Proof.
  induction 1 as [|x l Hx _ IH]; [done|].
  rewrite filter_cons_True by done. by rewrite IH.
Qed.

(** The record sent for a row carries the HB column of the row as it
    is. *)
Lemma masterRecord_HB (row : csv_row) :
  Database.masterRecord row !! "HB" = row !! "HB".
Proof.
  unfold Database.masterRecord. rewrite lookup_insert_ne by discriminate.
  destruct (row !! "HB") as [v|] eqn:E.
  - by apply lookup_union_Some_l.
  - apply lookup_union_None. split; [done|].
    by rewrite lookup_singleton_ne.
Qed.

(** No more rows are added than there are rows. *)
Lemma upsertRows_bound env i uploadId (rows : list csv_row)
    (ml : list LocalDatabase.master_entry) (a b : nat) :
  ((LocalDatabase.upsertRows env i uploadId rows (ml, a, b)).1.2 <= a + length rows)%nat.
Proof.
  revert i ml a b. induction rows as [|row rows IH]; intros i ml a b; [simpl; lia|].
  rewrite upsertRows_cons.
  destruct (decide (rowKey row = "")) as [Hk|Hk].
  { rewrite upsertRow_skip by done. etrans; [apply IH|]. simpl. lia. }
  destruct (list_find (LocalDatabase.hasKey (rowKey row)) ml) as [[j old]|] eqn:Hfind.
  - rewrite (upsertRow_update _ _ _ _ _ _ _ _ Hk Hfind).
    etrans; [apply IH|]. simpl. lia.
  - apply list_find_None in Hfind. rewrite upsertRow_add by done.
    etrans; [apply IH|]. simpl. lia.
Qed.

(** When every row is reported as added, every row had a usable key
    that neither the catalog nor an earlier row carried. *)
Lemma upsertRows_all_added env i uploadId (rows : list csv_row)
    (ml : list LocalDatabase.master_entry) (a b : nat) :
  (LocalDatabase.upsertRows env i uploadId rows (ml, a, b)).1.2 = (a + length rows)%nat ->
  Forall (fun row => rowKey row <> "") rows /\
  NoDup (rowKey <$> rows) /\
  forall row, row ∈ rows -> rowKey row ∉ entryKey <$> ml.
Proof.
  revert i ml a b. induction rows as [|row rows IH]; intros i ml a b.
  { intros _. split_and!; [constructor|constructor|]. by intros row ?%not_elem_of_nil. }
  rewrite upsertRows_cons.
  destruct (decide (rowKey row = "")) as [Hk|Hk].
  { rewrite upsertRow_skip by done. intros H.
    pose proof (upsertRows_bound env (S i) uploadId rows ml a b). simpl in H. lia. }
  destruct (list_find (LocalDatabase.hasKey (rowKey row)) ml) as [[j old]|] eqn:Hfind.
  - rewrite (upsertRow_update _ _ _ _ _ _ _ _ Hk Hfind). intros H.
    match type of H with
    | (LocalDatabase.upsertRows _ _ _ _ (?ml', _, ?b')).1.2 = _ =>
        pose proof (upsertRows_bound env (S i) uploadId rows ml' a b')
    end.
    simpl in H. lia.
  - apply list_find_None in Hfind. rewrite upsertRow_add by done. intros H.
    replace (a + length (row :: rows))%nat with (S a + length rows)%nat in H
      by (simpl; lia).
    apply IH in H as (Hne & Hnd & Hfresh).
    assert (Hrow : rowKey row ∉ rowKey <$> rows).
    { intros Hin. apply list_elem_of_fmap in Hin as (row' & Heq & Hin).
      apply (Hfresh row' Hin). rewrite fmap_app, elem_of_app. right.
      rewrite <- Heq. by left. }
    split_and!.
    + by constructor.
    + rewrite fmap_cons. by constructor.
    + intros row' Hin Hml. apply elem_of_cons in Hin as [->|Hin].
      * apply list_elem_of_fmap in Hml as (m & Hm & Hin).
        eapply Forall_forall in Hfind; [|exact Hin]. by apply Hfind.
      * apply (Hfresh row' Hin). rewrite fmap_app, elem_of_app. by left.
Qed.

(** C3, as stated, fails: ingesting the same row twice in one call makes
    the local store report one item added and one updated, while the
    Supabase branch, whatever the client answers, throws or reports two
    added and none updated. *)
Lemma backends_disagree_counterexample :
  let rows := [Fixtures.csvRow "C1" "1" "M1"; Fixtures.csvRow "C1" "1" "M1"] in
  let l := LocalDatabase.updateMasterList (clock "t") LocalDatabase.emptyStorage "A" rows in
  l.2 = {| LocalDatabase.itemsAdded := 1; LocalDatabase.itemsUpdated := 1 |} /\
  (Database.updateMasterList None None "A" rows "ocean").2
    = Database.Returned {| Database.itemsAdded := 2; Database.itemsUpdated := 0 |} /\
  (forall uploadError insertError,
     let r := Database.updateMasterList uploadError insertError "A" rows "ocean" in
     (exists msg, r.2 = Database.Thrown msg) \/
     r.2 = Database.Returned {| Database.itemsAdded := 2; Database.itemsUpdated := 0 |}) /\
  (forall uploadError insertError c,
     (Database.updateMasterList uploadError insertError "A" rows "ocean").2
       = Database.Returned c ->
     Database.itemsUpdated c <> LocalDatabase.itemsUpdated l.2).
Proof.
  cbv zeta. split; [vm_compute; reflexivity|]. split; [reflexivity|]. split.
  - intros [e|] [e'|]; simpl; eauto.
  - intros [e|] [e'|] c; simpl; try discriminate. intros [= <-]. vm_compute. discriminate.
Qed.

(** C3, amended.  The Supabase branch throws exactly when the upsert or
    the insert is answered with an error, and otherwise returns the
    number of input rows as added and none as updated.  After an upsert
    error it has sent the upsert only; otherwise it sends the upsert, the
    update and the insert of one record per row, each record carrying
    the HB of its row as it is.  The local store reports the counts that
    the Supabase branch returns exactly when every row has a non-empty
    normalised key, the keys are pairwise distinct and none is in the
    catalog. *)
Theorem backends_agree_iff_fresh_rows (env : nat -> LocalDatabase.stamp)
    (s0 : LocalDatabase.storage) (uploadError insertError : option string)
    (uploadId mode : string) (rows : list csv_row) :
  let l := LocalDatabase.updateMasterList env s0 uploadId rows in
  let r := Database.updateMasterList uploadError insertError uploadId rows mode in
  let fresh :=
    Forall (fun row => rowKey row <> "") rows /\
    NoDup (rowKey <$> rows) /\
    forall row, row ∈ rows -> rowKey row ∉ entryKey <$> LocalDatabase.MASTER_LIST s0 in
  (r.2 = Database.Returned {| Database.itemsAdded := length rows;
                              Database.itemsUpdated := 0 |}
   <-> uploadError = None /\ insertError = None) /\
  ((exists msg, r.2 = Database.Thrown msg)
   <-> uploadError <> None \/ insertError <> None) /\
  (forall msg, uploadError = Some msg ->
     r.1 = [Database.upsertMaster mode] /\
     r.2 = Database.Thrown ("Failed to initialize Master List record: " +:+ msg)) /\
  (uploadError = None ->
     r.1 = [Database.upsertMaster mode; Database.deactivateAll mode;
            Database.Insert (Database.tableName mode) (Database.masterRecord <$> rows)] /\
     (fun rec => rec !! "HB") <$> (Database.masterRecord <$> rows)
       = (fun row => row !! "HB") <$> rows /\
     (forall msg, insertError = Some msg -> r.2 = Database.Thrown msg)) /\
  ((LocalDatabase.itemsAdded l.2 = length rows /\ LocalDatabase.itemsUpdated l.2 = 0%nat)
   <-> fresh) /\
  (forall c, r.2 = Database.Returned c ->
     (LocalDatabase.itemsAdded l.2 = Database.itemsAdded c /\
      LocalDatabase.itemsUpdated l.2 = Database.itemsUpdated c) <-> fresh).
Proof.
  cbv zeta.
  assert (Hlocal :
    (LocalDatabase.itemsAdded (LocalDatabase.updateMasterList env s0 uploadId rows).2
       = length rows /\
     LocalDatabase.itemsUpdated (LocalDatabase.updateMasterList env s0 uploadId rows).2
       = 0%nat)
    <-> Forall (fun row => rowKey row <> "") rows /\
        NoDup (rowKey <$> rows) /\
        forall row, row ∈ rows -> rowKey row ∉ entryKey <$> LocalDatabase.MASTER_LIST s0).
  { unfold LocalDatabase.updateMasterList.
    pose proof (upsertRows_all_added env 0 uploadId rows (LocalDatabase.MASTER_LIST s0) 0 0)
      as Hall.
    pose proof (upsertRows_fresh env 0 uploadId rows (LocalDatabase.MASTER_LIST s0) 0 0)
      as Hfresh.
    cbv zeta in Hfresh.
    destruct (LocalDatabase.upsertRows env 0 uploadId rows
                (LocalDatabase.MASTER_LIST s0, 0%nat, 0%nat)) as [[ml a] b]; simpl in *.
    split.
    - intros [Ha _]. by apply Hall.
    - intros (Hne & Hnd & Hf). by destruct (Hfresh Hne Hnd Hf) as (_ & ? & ?). }
  unfold Database.updateMasterList, Database.saveMasterList. cbv zeta.
  split; [|split; [|split; [|split; [|split]]]].
  - destruct uploadError as [e|], insertError as [e'|]; simpl.
    + split; [discriminate|by intros [? ?]].
    + split; [discriminate|by intros [? ?]].
    + split; [discriminate|by intros [? ?]].
    + rewrite length_fmap. done.
  - destruct uploadError as [e|], insertError as [e'|]; simpl.
    + split; [by left|by eexists].
    + split; [by left|by eexists].
    + split; [by right|by eexists].
    + split; [by intros [? ?]|by intros [?|?]].
  - by intros msg ->.
  - intros ->. split; [|split].
    + by destruct insertError as [e'|].
    + rewrite <- list_fmap_compose. apply list_fmap_ext. intros j row _. simpl.
      apply masterRecord_HB.
    + by intros msg ->.
  - exact Hlocal.
  - intros c Hc. rewrite <- Hlocal.
    destruct uploadError as [e|]; [done|]. destruct insertError as [e'|]; [done|].
    simpl in Hc. injection Hc as <-. simpl. by rewrite length_fmap.
Qed.

Lemma backends_agree_iff_fresh_rows_witness :
  let rows := [Fixtures.csvRow "C1" "1" "M1"; Fixtures.csvRow "C2" "2" "M1"] in
  let l := LocalDatabase.updateMasterList (clock "t") LocalDatabase.emptyStorage "A" rows in
  let r := Database.updateMasterList None None "A" rows "ocean" in
  r.2 = Database.Returned {| Database.itemsAdded := 2; Database.itemsUpdated := 0 |} /\
  LocalDatabase.itemsAdded l.2 = 2%nat /\ LocalDatabase.itemsUpdated l.2 = 0%nat.
Proof.
  cbv zeta.
  destruct (backends_agree_iff_fresh_rows (clock "t") LocalDatabase.emptyStorage
              None None "A" "ocean"
              [Fixtures.csvRow "C1" "1" "M1"; Fixtures.csvRow "C2" "2" "M1"])
    as (Hr & _ & _ & _ & Hl & _).
  split; [by apply Hr|]. apply Hl. split_and!.
  - repeat constructor; vm_compute; discriminate.
  - vm_compute. repeat constructor; intros H; apply list_elem_of_In in H; simpl in H;
      intuition discriminate.
  - intros row _. simpl. apply not_elem_of_nil.
Defined.

End Backends.

(** ** Row admission *)

Section RowAdmission.
Import CleanSpec.

Lemma hasValue_carries (v : option string) : hasValue v = true <-> carries v.
Proof.
  unfold hasValue, carries. destruct v as [s|].
  - unfold truthy. destruct (String.eqb_spec s ""); simpl.
    + split; [discriminate|]. intros (s' & [= <-] & Hs & _). done.
    + destruct (String.eqb_spec (toLowerCase s) "nan"); simpl.
      * split; [discriminate|]. intros (s' & [= <-] & _ & Hs). done.
      * split; [|done]. intros _. by exists s.
  - split; [discriminate|]. by intros (s & ? & _).
Qed.

(** What [cleanData] of the revised copy keeps: the cleaned rows of
    which CONTAINER, HB or MBL carries a value. *)
Lemma revised_cleanData_admission (data : list csv_row) (r : csv_row) :
  r ∈ CsvUtilsRevised.cleanData data <->
  (exists row, row ∈ data /\ r = CsvUtilsRevised.cleanRow row) /\
  (carries (r !! "CONTAINER") \/ carries (r !! "HB") \/ carries (r !! "MBL")).
Proof.
  unfold CsvUtilsRevised.cleanData.
  rewrite list_elem_of_filter, list_elem_of_fmap.
  rewrite !orb_true_iff, !hasValue_carries. cbv zeta.
  split; [intros [Hc [row [-> Hr]]]|intros [[row [Hr ->]] Hc]].
  - split; [by exists row|]. tauto.
  - split; [tauto|by exists row].
Qed.

(** What [cleanData] of [csvUtils.js] keeps: the cleaned rows of which
    CONTAINER carries a value. *)
Lemma cleanData_admission (data : list csv_row) (r : csv_row) :
  r ∈ CsvUtils.cleanData data <->
  (exists row, row ∈ data /\ r = CsvUtils.cleanRow row) /\
  carries (r !! "CONTAINER").
Proof.
  unfold CsvUtils.cleanData.
  rewrite list_elem_of_filter, list_elem_of_fmap, hasValue_carries.
  split; [intros [Hc [row [-> Hr]]]|intros [[row [Hr ->]] Hc]].
  - split; [by exists row|done].
  - split; [done|by exists row].
Qed.

(** C1.  The three rows of the specification's examples are treated as
    it says by both copies of [cleanData]; the row with a key and no
    container carries a value in HB, is kept by the revised copy and is
    dropped by the one in [csvUtils.js]. *)
Theorem cleanData_drops_keyed_row :
  length (CsvUtils.cleanData [Fixtures.csvRow "C1" "" ""]) = 1%nat /\
  CsvUtils.cleanData [Fixtures.csvRow "" "" ""] = [] /\
  CsvUtils.cleanData [Fixtures.csvRow "nan" "" ""] = [] /\
  carries (CsvUtils.cleanRow hbOnlyRow !! "HB") /\
  CsvUtils.cleanData [hbOnlyRow] = [] /\
  CsvUtilsRevised.cleanData [hbOnlyRow] = [CsvUtilsRevised.cleanRow hbOnlyRow].
Proof.
  split_and!; try (vm_compute; reflexivity).
  apply hasValue_carries. vm_compute. reflexivity.
Qed.

End RowAdmission.

(** ** Code units, digits and trimming *)

Section StringFacts.

Lemma chars_str (l : list ascii) : chars (str l) = l.
Proof. apply list_ascii_of_string_of_list_ascii. Qed.

Lemma str_chars (s : string) : str (chars s) = s.
Proof. apply string_of_list_ascii_of_string. Qed.

Lemma str_nil_inv (l : list ascii) : str l = "" -> l = [].
Proof. intros H. apply (f_equal chars) in H. by rewrite chars_str in H. Qed.

Lemma dropWhile_idem {A} (p : A -> bool) (l : list A) :
  dropWhile p (dropWhile p l) = dropWhile p l.
Proof.
  induction l as [|x l IH]; [done|]. simpl.
  destruct (p x) eqn:E; [done|]. simpl. by rewrite E.
Qed.

Lemma dropWhile_none {A} (p : A -> bool) (l : list A) :
  headIsNot p l -> dropWhile p l = l.
Proof. destruct l as [|x l]; [done|]. simpl. by intros ->. Qed.

Lemma dropWhile_all {A} (p : A -> bool) (l r : list A) :
  Forall (fun x => p x = true) l -> dropWhile p (l ++ r) = dropWhile p r.
Proof. induction 1 as [|x l Hx _ IH]; [done|]. simpl. by rewrite Hx. Qed.

Lemma takeWhile_all {A} (p : A -> bool) (l r : list A) :
  Forall (fun x => p x = true) l -> takeWhile p (l ++ r) = l ++ takeWhile p r.
Proof. induction 1 as [|x l Hx _ IH]; [done|]. simpl. by rewrite Hx, IH. Qed.

Lemma dropWhile_snoc {A} (p : A -> bool) (l : list A) (x : A) :
  p x = false -> dropWhile p (l ++ [x]) = dropWhile p l ++ [x].
Proof.
  intros Hx. induction l as [|y l IH]; simpl; [by rewrite Hx|].
  by destruct (p y).
Qed.

Lemma headIsNot_dropWhile {A} (p : A -> bool) (l : list A) :
  headIsNot p (dropWhile p l).
Proof.
  induction l as [|x l IH]; [done|]. simpl. destruct (p x) eqn:E; [done|]. done.
Qed.

(** The result of [trim] has no white space at either end. *)
Lemma trimChars_shape (l : list ascii) :
  headIsNot isWhiteSpace (trimChars l) /\
  headIsNot isWhiteSpace (rev (trimChars l)).
Proof.
  unfold trimChars. rewrite rev_involutive. split; [|apply headIsNot_dropWhile].
  pose proof (headIsNot_dropWhile isWhiteSpace l) as H.
  destruct (dropWhile isWhiteSpace l) as [|x a]; [done|]. simpl in H.
  simpl. rewrite dropWhile_snoc by done. rewrite rev_app_distr. simpl. done.
Qed.

Lemma trimChars_fixed (l : list ascii) :
  headIsNot isWhiteSpace l -> headIsNot isWhiteSpace (rev l) -> trimChars l = l.
Proof.
  intros H1 H2. unfold trimChars.
  rewrite (dropWhile_none _ l H1), (dropWhile_none _ (rev l) H2).
  apply rev_involutive.
Qed.

Lemma trim_idem (s : string) : trim (trim s) = trim s.
Proof.
  unfold trim. rewrite chars_str. f_equal.
  apply trimChars_fixed; apply trimChars_shape.
Qed.

Lemma trim_fixed (l : list ascii) :
  Forall (fun c => isWhiteSpace c = false) l -> trim (str l) = str l.
Proof.
  intros Hl. unfold trim. rewrite chars_str. f_equal.
  apply trimChars_fixed.
  - destruct Hl; done.
  - assert (Hr : Forall (fun c => isWhiteSpace c = false) (rev l)).
    { apply Forall_forall. intros c Hc. apply list_elem_of_In, in_rev, list_elem_of_In in Hc.
      eapply Forall_forall in Hl; eauto. }
    destruct Hr; done.
Qed.

End StringFacts.

Section DigitFacts.

Lemma code_digitChar (d : Z) : 0 <= d < 10 -> code (digitChar d) = d + 48.
Proof.
  intros Hd. unfold code, digitChar.
  rewrite N_ascii_embedding by lia. lia.
Qed.

Lemma digitVal_digitChar (d : Z) : 0 <= d < 10 -> digitVal (digitChar d) = d.
Proof. intros Hd. unfold digitVal. rewrite code_digitChar by done. lia. Qed.

Lemma isDigit_digitChar (d : Z) : 0 <= d < 10 -> isDigit (digitChar d) = true.
Proof.
  intros Hd. unfold isDigit. rewrite code_digitChar by done.
  apply andb_true_iff. split; apply Z.leb_le; lia.
Qed.

Lemma digitVal_range (c : ascii) : isDigit c = true -> 0 <= digitVal c < 10.
Proof.
  unfold isDigit, digitVal. intros H.
  apply andb_true_iff in H as [H1 H2]. apply Z.leb_le in H1, H2. lia.
Qed.

Lemma digitsVal_acc (l : list ascii) (acc : Z) :
  fold_left (fun a c => 10 * a + digitVal c) l acc
  = acc * 10 ^ Z.of_nat (length l) + digitsVal l.
Proof.
  unfold digitsVal. revert acc. induction l as [|c l IH]; intros acc.
  { simpl. lia. }
  cbn [fold_left length]. rewrite IH, (IH (10 * 0 + digitVal c)).
  rewrite Nat2Z.inj_succ, Z.pow_succ_r by lia. ring.
Qed.

Lemma digitsVal_app (l r : list ascii) :
  digitsVal (l ++ r) = digitsVal l * 10 ^ Z.of_nat (length r) + digitsVal r.
Proof.
  unfold digitsVal at 1. rewrite fold_left_app. apply digitsVal_acc.
Qed.

Lemma digitsVal_nonneg (l : list ascii) :
  Forall (fun c => isDigit c = true) l -> 0 <= digitsVal l.
Proof.
  induction l as [|c l IH] using rev_ind; intros Hl; [done|].
  apply Forall_app in Hl as [Hl Hc]. rewrite Forall_singleton in Hc.
  rewrite digitsVal_app. simpl length. change (digitsVal [c]) with (10 * 0 + digitVal c).
  pose proof (digitVal_range c Hc). specialize (IH Hl). lia.
Qed.

Lemma digitsVal_zeros (n : Z) : digitsVal (zeros n) = 0.
Proof.
  unfold zeros. induction (Z.to_nat n) as [|k IH]; [done|].
  change (repeat "0"%char (S k)) with (["0"%char] ++ repeat "0"%char k).
  rewrite digitsVal_app, IH. reflexivity.
Qed.

Lemma zeros_digits (n : Z) : Forall (fun c => isDigit c = true) (zeros n).
Proof.
  unfold zeros. apply Forall_forall. intros c Hc.
  apply list_elem_of_In, repeat_spec in Hc. by subst c.
Qed.

Lemma length_zeros (n : Z) : 0 <= n -> Z.of_nat (length (zeros n)) = n.
Proof. intros Hn. unfold zeros. rewrite repeat_length. lia. Qed.

Lemma digitsOfFuel_spec (f : nat) (n : Z) :
  0 <= n < 2 ^ (Z.of_nat f + 1) ->
  digitsVal (digitsOfFuel f n) = n /\
  Forall (fun c => isDigit c = true) (digitsOfFuel f n) /\
  digitsOfFuel f n <> [].
Proof.
  revert n. induction f as [|f IH]; intros n Hn.
  - simpl in *. assert (Hm : n mod 10 = n) by (apply Z.mod_small; lia).
    rewrite Hm. split_and!; [|repeat constructor|done].
    + unfold digitsVal. simpl. rewrite digitVal_digitChar by lia. lia.
    + apply isDigit_digitChar. lia.
  - cbn [digitsOfFuel]. destruct (Z.ltb_spec n 10) as [Hlt|Hge].
    + split_and!; [|repeat constructor|done].
      * unfold digitsVal. simpl. rewrite digitVal_digitChar by lia. lia.
      * apply isDigit_digitChar. lia.
    + assert (Hq : 0 <= n / 10 < 2 ^ (Z.of_nat f + 1)).
      { split; [apply Z.div_pos; lia|].
        apply Z.div_lt_upper_bound; [lia|].
        rewrite Nat2Z.inj_succ in Hn.
        replace (Z.succ (Z.of_nat f) + 1) with (Z.succ (Z.of_nat f + 1)) in Hn by lia.
        rewrite Z.pow_succ_r in Hn by lia. lia. }
      destruct (IH _ Hq) as (Hv & Hd & Hne).
      pose proof (Z.mod_pos_bound n 10 ltac:(lia)) as Hm.
      split_and!.
      * rewrite digitsVal_app, Hv. simpl length.
        change (digitsVal [digitChar (n mod 10)]) with (10 * 0 + digitVal (digitChar (n mod 10))).
        rewrite digitVal_digitChar by lia.
        pose proof (Z.div_mod n 10 ltac:(lia)). lia.
      * apply Forall_app. split; [done|]. repeat constructor.
        apply isDigit_digitChar. lia.
      * intros Hnil. by apply app_eq_nil in Hnil as [_ ?].
Qed.

Lemma digitsOf_spec (n : Z) :
  0 <= n ->
  digitsVal (digitsOf n) = n /\
  Forall (fun c => isDigit c = true) (digitsOf n) /\
  digitsOf n <> [].
Proof.
  intros Hn. apply digitsOfFuel_spec. split; [done|].
  destruct (Z.eq_dec n 0) as [->|Hne]; [done|].
  rewrite Z2Nat.id by apply Z.log2_nonneg.
  apply Z.log2_spec. lia.
Qed.

End DigitFacts.

(** ** Rounding to a double *)

Section Rounding.

Lemma number_eqb_eq (x y : number) : number_eqb x y = true -> x = y.
Proof.
  destruct x as [|a|a|a m e], y as [|b|b|b m' e']; simpl; try discriminate; try done.
  - intros H. apply Bool.eqb_prop in H. by subst.
  - intros H. apply Bool.eqb_prop in H. by subst.
  - intros H. apply andb_true_iff in H as [H He]. apply andb_true_iff in H as [Hs Hm].
    apply Bool.eqb_prop in Hs. apply Z.eqb_eq in Hm, He. by subst.
Qed.

Lemma pow2_pos (k : Z) : 0 <= k -> 0 < 2 ^ k.
Proof. intros. by apply Z.pow_pos_nonneg. Qed.

Lemma pow2_le (i j : Z) : 0 <= i <= j -> 2 ^ i <= 2 ^ j.
Proof. intros. apply Z.pow_le_mono_r; lia. Qed.

(** [ilog2 n d] is the floor of the binary logarithm of n/d: the two
    bounds, cleared of negative exponents. *)
Lemma ilog2_lower (n d i j : Z) :
  0 < n -> 0 < d -> 0 <= i -> 0 <= j -> i - j <= ilog2 n d ->
  d * 2 ^ i <= n * 2 ^ j.
Proof.
  intros Hn Hd Hi Hj Hl.
  destruct (Z.log2_spec n Hn) as [Hn1 Hn2], (Z.log2_spec d Hd) as [Hd1 Hd2].
  pose proof (Z.log2_nonneg n) as Hln. pose proof (Z.log2_nonneg d) as Hld.
  unfold ilog2 in Hl. set (l := Z.log2 n - Z.log2 d) in *.
  assert (Hgen : i - j <= l - 1 -> d * 2 ^ i <= n * 2 ^ j).
  { intros H.
    assert (H1 : d * 2 ^ i <= 2 ^ (Z.log2 d + 1 + i)).
    { rewrite (Z.pow_add_r 2 (Z.log2 d + 1) i) by lia.
      apply Z.mul_le_mono_nonneg_r; [apply Z.lt_le_incl, pow2_pos; lia|].
      rewrite <- Z.add_1_r in Hd2. lia. }
    assert (H2 : 2 ^ (Z.log2 n + j) <= n * 2 ^ j).
    { rewrite Z.pow_add_r by lia.
      apply Z.mul_le_mono_nonneg_r; [apply Z.lt_le_incl, pow2_pos; lia|done]. }
    pose proof (pow2_le (Z.log2 d + 1 + i) (Z.log2 n + j) ltac:(lia)). lia. }
  destruct (0 <=? l) eqn:El.
  - apply Z.leb_le in El. destruct (d * 2 ^ l <=? n) eqn:E; [|apply Hgen; lia].
    apply Z.leb_le in E.
    destruct (Z.le_gt_cases (i - j) (l - 1)) as [?|?]; [by apply Hgen|].
    assert (i = l + j) as -> by lia.
    rewrite Z.pow_add_r by lia. rewrite Z.mul_assoc.
    apply Z.mul_le_mono_nonneg_r; [apply Z.lt_le_incl, pow2_pos; lia|done].
  - apply Z.leb_gt in El. destruct (d <=? n * 2 ^ (- l)) eqn:E; [|apply Hgen; lia].
    apply Z.leb_le in E.
    destruct (Z.le_gt_cases (i - j) (l - 1)) as [?|?]; [by apply Hgen|].
    assert (j = i + - l) as -> by lia.
    rewrite (Z.pow_add_r 2 i (- l)) by lia.
    replace (n * (2 ^ i * 2 ^ (- l))) with (n * 2 ^ (- l) * 2 ^ i) by ring.
    apply Z.mul_le_mono_nonneg_r; [apply Z.lt_le_incl, pow2_pos; lia|done].
Qed.

Lemma ilog2_upper (n d i j : Z) :
  0 < n -> 0 < d -> 0 <= i -> 0 <= j -> ilog2 n d < i - j ->
  n * 2 ^ j < d * 2 ^ i.
Proof.
  intros Hn Hd Hi Hj Hl.
  destruct (Z.log2_spec n Hn) as [Hn1 Hn2], (Z.log2_spec d Hd) as [Hd1 Hd2].
  pose proof (Z.log2_nonneg n) as Hln. pose proof (Z.log2_nonneg d) as Hld.
  unfold ilog2 in Hl. set (l := Z.log2 n - Z.log2 d) in *.
  assert (Hgen : l + 1 <= i - j -> n * 2 ^ j < d * 2 ^ i).
  { intros H.
    assert (H1 : n * 2 ^ j < 2 ^ (Z.log2 n + 1 + j)).
    { rewrite (Z.pow_add_r 2 (Z.log2 n + 1) j) by lia.
      apply Z.mul_lt_mono_pos_r; [apply pow2_pos; lia|].
      rewrite <- Z.add_1_r in Hn2. lia. }
    assert (H2 : 2 ^ (Z.log2 d + i) <= d * 2 ^ i).
    { rewrite Z.pow_add_r by lia.
      apply Z.mul_le_mono_nonneg_r; [apply Z.lt_le_incl, pow2_pos; lia|done]. }
    pose proof (pow2_le (Z.log2 n + 1 + j) (Z.log2 d + i) ltac:(lia)). lia. }
  destruct (0 <=? l) eqn:El.
  - apply Z.leb_le in El. destruct (d * 2 ^ l <=? n) eqn:E; [apply Hgen; lia|].
    apply Z.leb_gt in E.
    destruct (Z.le_gt_cases (l + 1) (i - j)) as [?|?]; [by apply Hgen|].
    assert (i = l + j) as -> by lia.
    rewrite Z.pow_add_r by lia. rewrite Z.mul_assoc.
    apply Z.mul_lt_mono_pos_r; [apply pow2_pos; lia|done].
  - apply Z.leb_gt in El. destruct (d <=? n * 2 ^ (- l)) eqn:E; [apply Hgen; lia|].
    apply Z.leb_gt in E.
    destruct (Z.le_gt_cases (l + 1) (i - j)) as [?|?]; [by apply Hgen|].
    assert (j = i + - l) as -> by lia.
    rewrite (Z.pow_add_r 2 i (- l)) by lia.
    replace (n * (2 ^ i * 2 ^ (- l))) with (n * 2 ^ (- l) * 2 ^ i) by ring.
    apply Z.mul_lt_mono_pos_r; [apply pow2_pos; lia|done].
Qed.

Lemma ilog2_one (v : Z) : 0 < v -> ilog2 v 1 = Z.log2 v.
Proof.
  intros Hv. unfold ilog2. change (Z.log2 1) with 0. rewrite Z.sub_0_r.
  pose proof (Z.log2_nonneg v). destruct (Z.log2_spec v Hv) as [H1 _].
  rewrite (proj2 (Z.leb_le 0 _)) by done.
  rewrite Z.mul_1_l. by rewrite (proj2 (Z.leb_le _ _) H1).
Qed.

End Rounding.

Section RoundingShape.

Lemma scaled_quotient (n d e : Z) :
  0 < n -> 0 < d ->
  let num := if 0 <=? e then n else n * 2 ^ (- e) in
  let den := if 0 <=? e then d * 2 ^ e else d in
  0 < den /\ 0 <= num / den /\
  (ilog2 n d < e + 53 -> num / den < 2 ^ 53) /\
  (e + 52 <= ilog2 n d -> 2 ^ 52 <= num / den) /\
  (ilog2 n d < e + 52 -> num / den < 2 ^ 52).
Proof.
  intros Hn Hd. cbv zeta. destruct (Z.leb_spec 0 e) as [He|He].
  - pose proof (pow2_pos e He) as Hp.
    assert (Hden : 0 < d * 2 ^ e) by lia.
    split; [done|]. split; [apply Z.div_pos; lia|].
    split_and!; intros Hl.
    + apply Z.div_lt_upper_bound; [done|].
      pose proof (ilog2_upper n d (e + 53) 0 Hn Hd ltac:(lia) ltac:(lia) ltac:(lia)) as H.
      rewrite Z.pow_add_r in H by lia. lia.
    + apply Z.div_le_lower_bound; [done|].
      pose proof (ilog2_lower n d (e + 52) 0 Hn Hd ltac:(lia) ltac:(lia) ltac:(lia)) as H.
      rewrite Z.pow_add_r in H by lia. lia.
    + apply Z.div_lt_upper_bound; [done|].
      pose proof (ilog2_upper n d (e + 52) 0 Hn Hd ltac:(lia) ltac:(lia) ltac:(lia)) as H.
      rewrite Z.pow_add_r in H by lia. lia.
  - pose proof (pow2_pos (- e) ltac:(lia)) as Hp.
    split; [done|]. split; [apply Z.div_pos; lia|].
    split_and!; intros Hl.
    + apply Z.div_lt_upper_bound; [done|].
      apply (ilog2_upper n d 53 (- e)); lia.
    + apply Z.div_le_lower_bound; [done|].
      apply (ilog2_lower n d 52 (- e)); lia.
    + apply Z.div_lt_upper_bound; [done|].
      apply (ilog2_upper n d 52 (- e)); lia.
Qed.

Lemma roundRatio_sign (neg : bool) (n d : Z) :
  roundRatio neg n d = withSign neg (roundRatio false n d).
Proof.
  unfold roundRatio. cbv zeta.
  repeat match goal with
         | |- context [if ?c then Zero _ else _] => destruct c; [reflexivity|]
         | |- context [if ?c then Inf _ else _] => destruct c; [reflexivity|]
         end.
  reflexivity.
Qed.

Lemma roundRatio_wf (neg : bool) (n d : Z) :
  0 < n -> 0 < d -> wf (roundRatio neg n d) /\ roundRatio neg n d <> NaN.
Proof.
  intros Hn Hd. unfold roundRatio. cbv zeta.
  set (lg := ilog2 n d). set (e0 := Z.max (lg - 52) (-1074)).
  destruct (scaled_quotient n d e0 Hn Hd) as (Hden & Hq0 & Hlt & Hge & Hsub).
  fold lg in Hlt, Hge, Hsub.
  set (num := if 0 <=? e0 then n else n * 2 ^ (- e0)) in *.
  set (den := if 0 <=? e0 then d * 2 ^ e0 else d) in *.
  set (q := num / den) in *.
  set (up := (den <? 2 * (num mod den)) || ((den =? 2 * (num mod den)) && Z.odd q)).
  set (q' := if up then q + 1 else q).
  assert (Hq' : q <= q' <= q + 1) by (subst q'; destruct up; lia).
  specialize (Hlt ltac:(lia)).
  change (2 ^ 53) with 9007199254740992 in *.
  change (2 ^ 52) with 4503599627370496 in *.
  destruct (Z.eqb_spec q' 9007199254740992) as [E53|E53].
  - simpl. destruct (Z.ltb_spec 971 (e0 + 1)); [done|].
    split; [|done]. simpl. unfold wfFin.
    change (2 ^ 53) with 9007199254740992. change (2 ^ 52) with 4503599627370496.
    lia.
  - destruct (Z.eqb_spec q' 0); [done|].
    destruct (Z.ltb_spec 971 e0); [done|].
    split; [|done]. simpl. unfold wfFin.
    change (2 ^ 53) with 9007199254740992. change (2 ^ 52) with 4503599627370496.
    destruct (Z.le_gt_cases (e0 + 52) lg) as [Hnorm|Hsubn].
    + specialize (Hge Hnorm). lia.
    + specialize (Hsub Hsubn). lia.
Qed.

Lemma roundDecimal_sign (neg : bool) (m p : Z) :
  roundDecimal neg m p = withSign neg (roundDecimal false m p).
Proof.
  unfold roundDecimal. destruct (m =? 0); [done|].
  destruct (0 <=? p); apply roundRatio_sign.
Qed.

Lemma roundDecimal_wf (neg : bool) (m p : Z) :
  0 <= m -> wf (roundDecimal neg m p) /\ roundDecimal neg m p <> NaN.
Proof.
  intros Hm. unfold roundDecimal. destruct (Z.eqb_spec m 0); [done|].
  destruct (Z.leb_spec 0 p).
  - apply roundRatio_wf; [|lia].
    apply Z.mul_pos_pos; [lia|]. apply Z.pow_pos_nonneg; lia.
  - apply roundRatio_wf; [lia|]. apply Z.pow_pos_nonneg; lia.
Qed.

End RoundingShape.

Section ExactIntegers.

Lemma integral_value (m e : Z) :
  wfFin m e -> integral m e ->
  0 < intValue m e /\ Z.log2 (intValue m e) = 52 + e /\
  (e < 0 -> m = intValue m e * 2 ^ (- e)) /\ 2 ^ 52 <= m.
Proof.
  intros (Hm & He & Hnorm) Hint. unfold intValue.
  change (2 ^ 53) with 9007199254740992 in *.
  change (2 ^ 52) with 4503599627370496 in *.
  destruct (Z.leb_spec 0 e) as [Hpos|Hneg].
  - assert (Hm52 : 4503599627370496 <= m) by lia.
    split; [apply Z.mul_pos_pos; [lia|by apply pow2_pos]|].
    split; [|split; [lia|done]].
    rewrite Z.log2_mul_pow2 by lia.
    rewrite (Z.log2_unique m 52); [lia|lia|].
    change (2 ^ 52) with 4503599627370496. change (2 ^ (52 + 1)) with 9007199254740992. lia.
  - destruct Hint as [?|Hmod]; [lia|].
    pose proof (pow2_pos (- e) ltac:(lia)) as Hp.
    assert (Hmv : m = m / 2 ^ (- e) * 2 ^ (- e)).
    { pose proof (Z.div_mod m (2 ^ (- e)) ltac:(lia)). lia. }
    assert (Hm52 : 4503599627370496 <= m).
    { destruct Hnorm as [?|Heq]; [done|]. subst e. exfalso.
      rewrite Z.mod_small in Hmod; [lia|]. split; [lia|].
      eapply Z.lt_le_trans; [apply Hm|].
      change 9007199254740992 with (2 ^ 53). apply pow2_le. lia. }
    assert (Hv : 0 < m / 2 ^ (- e)) by nia.
    split; [done|]. split; [|split; [done|done]].
    assert (Hl : Z.log2 m = 52).
    { apply Z.log2_unique; [lia|].
      change (2 ^ 52) with 4503599627370496. change (2 ^ (52 + 1)) with 9007199254740992. lia. }
    rewrite Hmv in Hl. rewrite Z.log2_mul_pow2 in Hl by lia. lia.
Qed.

(** The Number value for the integer an integral double stands for is
    that double. *)
Lemma roundRatio_exact (neg : bool) (m e : Z) :
  wfFin m e -> integral m e -> roundRatio neg (intValue m e) 1 = Fin neg m e.
Proof.
  intros Hwf Hint. destruct (integral_value m e Hwf Hint) as (Hv & Hlog & Hmv & Hm52).
  destruct Hwf as (Hm & He & _).
  unfold roundRatio. cbv zeta. rewrite ilog2_one by done. rewrite Hlog.
  replace (Z.max (52 + e - 52) (-1074)) with e by lia.
  change (2 ^ 53) with 9007199254740992 in *.
  change (2 ^ 52) with 4503599627370496 in *.
  destruct (Z.leb_spec 0 e) as [Hpos|Hneg].
  - unfold intValue. rewrite (proj2 (Z.leb_le 0 e)) by done.
    pose proof (pow2_pos e Hpos) as Hp. rewrite Z.mul_1_l.
    rewrite Z.div_mul by lia. rewrite Z.mod_mul by lia.
    rewrite (proj2 (Z.ltb_ge _ _)) by lia.
    rewrite (proj2 (Z.eqb_neq (2 ^ e) (2 * 0))) by lia. simpl.
    rewrite (proj2 (Z.eqb_neq m 9007199254740992)) by lia.
    rewrite (proj2 (Z.eqb_neq m 0)) by lia.
    by rewrite (proj2 (Z.ltb_ge 971 e)) by lia.
  - rewrite <- (Hmv Hneg). rewrite Z.div_1_r, Z.mod_1_r. simpl.
    rewrite (proj2 (Z.eqb_neq m 9007199254740992)) by lia.
    rewrite (proj2 (Z.eqb_neq m 0)) by lia.
    by rewrite (proj2 (Z.ltb_ge 971 e)) by lia.
Qed.

Lemma roundRatio_int (neg : bool) (z : Z) :
  0 < z -> integerValued (roundRatio neg z 1).
Proof.
  intros Hz. unfold roundRatio. cbv zeta.
  set (e0 := Z.max (ilog2 z 1 - 52) (-1074)).
  destruct (scaled_quotient z 1 e0 Hz ltac:(lia)) as (Hden & Hq0 & Hlt & _ & _).
  specialize (Hlt ltac:(lia)).
  destruct (Z.leb_spec 0 e0) as [Hpos|Hneg].
  - repeat match goal with
           | |- context [if ?c then Zero _ else _] => destruct c; [done|]
           | |- context [if ?c then Inf _ else _] => destruct c; [done|]
           end.
    simpl. left. destruct (_ =? 2 ^ 53); lia.
  - pose proof (pow2_pos (- e0) ltac:(lia)) as Hp.
    rewrite Z.div_1_r in *. rewrite Z.mod_1_r. simpl.
    rewrite (proj2 (Z.eqb_neq (z * 2 ^ (- e0)) (2 ^ 53))) by lia.
    destruct (_ =? 0); [done|]. destruct (971 <? e0); [done|].
    simpl. right. apply Z.mod_mul. lia.
Qed.

Lemma floor_fixed (x : number) : integerValued x -> floor x = x.
Proof.
  destruct x as [| | |neg m e]; try done. simpl. intros [He|Hm].
  - by rewrite (proj2 (Z.leb_le 0 e)).
  - destruct (0 <=? e); [done|]. by rewrite Hm.
Qed.

Lemma floor_shape (x : number) :
  wf x -> wf (floor x) /\ integerValued (floor x) /\ (x <> NaN -> floor x <> NaN).
Proof.
  destruct x as [| | |neg m e]; try done. simpl. intros Hwf.
  destruct (Z.leb_spec 0 e) as [Hpos|Hneg].
  { split; [done|]. split; [by left|done]. }
  destruct (Z.eqb_spec (m mod 2 ^ (- e)) 0) as [Hr|Hr].
  { split; [done|]. split; [by right|done]. }
  pose proof (pow2_pos (- e) ltac:(lia)) as Hp.
  assert (Hq : 0 <= m / 2 ^ (- e)).
  { apply Z.div_pos; [|done]. destruct Hwf as [? _]. lia. }
  destruct neg.
  - destruct (roundRatio_wf true (m / 2 ^ (- e) + 1) 1) as [H1 H2]; [lia|lia|].
    split; [done|]. split; [apply roundRatio_int; lia|done].
  - destruct (Z.eqb_spec (m / 2 ^ (- e)) 0); [done|].
    destruct (roundRatio_wf false (m / 2 ^ (- e)) 1) as [H1 H2]; [lia|lia|].
    split; [done|]. split; [apply roundRatio_int; lia|done].
Qed.

Lemma floor_idem (x : number) : wf x -> floor (floor x) = floor x.
Proof. intros Hx. apply floor_fixed. by apply floor_shape. Qed.

(** For a value that is not negative, [Math.floor] is the truncation. *)
Lemma floor_truncate (x : number) : isNegative x = false -> floor x = truncate x.
Proof. destruct x as [| | |neg m e]; try done. simpl. by intros ->. Qed.

End ExactIntegers.

(** ** The digits chosen by Number::toString *)

Section ShortestDigits.

Lemma stripZeros_spec (f : nat) (v z : Z) :
  let r := stripZeros f v z in
  z <= r.2 /\ r.1 * 10 ^ (r.2 - z) = v /\ (0 <= v -> 0 <= r.1).
Proof.
  revert v z. induction f as [|f IH]; intros v z; cbv zeta.
  { simpl. rewrite Z.sub_diag. split_and!; lia. }
  cbn [stripZeros]. destruct (Z.eqb_spec (v mod 10) 0) as [Hm|Hm].
  - destruct (IH (v / 10) (z + 1)) as (Hz & Hv & Hs).
    split; [lia|]. split.
    + replace ((stripZeros f (v / 10) (z + 1)).2 - z)
        with (Z.succ ((stripZeros f (v / 10) (z + 1)).2 - (z + 1))) by lia.
      rewrite Z.pow_succ_r by lia.
      pose proof (Z.div_mod v 10 ltac:(lia)). lia.
    + intros Hv0. apply Hs. apply Z.div_pos; lia.
  - simpl. rewrite Z.sub_diag. split_and!; lia.
Qed.

Lemma normalize_spec (s p : Z) :
  let c := normalize s p in
  p <= c.2 /\ c.1 * 10 ^ (c.2 - p) = s /\ (0 <= s -> 0 <= c.1).
Proof. apply stripZeros_spec. Qed.

Lemma candidates_nonneg (a b k : Z) (c : Z * Z) :
  0 <= a -> 0 < b -> c ∈ candidates a b k -> 0 <= c.1.
Proof.
  intros Ha Hb Hc. unfold candidates in Hc. cbv zeta in Hc.
  set (p := decimalPosition a b - k) in *.
  assert (Hlo : 0 <= scaledFloor a b p).
  { unfold scaledFloor. destruct (Z.leb_spec 0 p).
    - apply Z.div_pos; [done|]. apply Z.mul_pos_pos; [done|]. apply Z.pow_pos_nonneg; lia.
    - apply Z.div_pos; [|done]. apply Z.mul_nonneg_nonneg; [done|].
      apply Z.pow_nonneg. lia. }
  assert (H : c = normalize (scaledFloor a b p) p \/ c = normalize (scaledFloor a b p + 1) p).
  { destruct (cmpMid _ _ _ _); [destruct (Z.even _)| |];
      apply list_elem_of_In in Hc; simpl in Hc; intuition. }
  destruct H as [-> | ->]; apply normalize_spec; lia.
Qed.

Lemma pick_valid (x : number) (cs : list (Z * Z)) (c : Z * Z) :
  pick x cs = Some c -> c ∈ cs /\ roundDecimal false c.1 c.2 = x.
Proof.
  unfold pick. intros H. apply head_Some_elem_of, list_elem_of_filter in H as [Hv Hc].
  split; [done|]. by apply number_eqb_eq.
Qed.

Lemma shortestFrom_valid (f : nat) (x : number) (a b k : Z) (c : Z * Z) :
  0 <= a -> 0 < b ->
  shortestFrom f x a b k = Some c ->
  0 <= c.1 /\ roundDecimal false c.1 c.2 = x.
Proof.
  intros Ha Hb. revert k. induction f as [|f IH]; intros k; [done|].
  cbn [shortestFrom]. destruct (pick x (candidates a b k)) as [c'|] eqn:E.
  - intros [= ->]. apply pick_valid in E as [Hin Hv].
    split; [by eapply candidates_nonneg|done].
  - apply IH.
Qed.

(** The decimal that Number::toString prints for an integral double
    reads back as that double. *)
Lemma shortest_valid (m e : Z) :
  wfFin m e -> integral m e ->
  0 < (shortest m e).1 /\
  roundDecimal false (shortest m e).1 (shortest m e).2 = Fin false m e.
Proof.
  intros Hwf Hint.
  assert (Hpos : forall c, 0 <= c.1 -> roundDecimal false c.1 c.2 = Fin false m e ->
                           0 < c.1 /\ roundDecimal false c.1 c.2 = Fin false m e).
  { intros c Hc Hv. split; [|done].
    destruct (Z.eq_dec c.1 0) as [H0|]; [|lia].
    unfold roundDecimal in Hv. by rewrite H0 in Hv. }
  unfold shortest. cbv zeta.
  destruct (shortestFrom 17 _ _ _ 1) as [c|] eqn:E.
  - apply shortestFrom_valid in E as [Hc Hv]; [by apply Hpos| |].
    + destruct Hwf as [Hm _]. destruct (0 <=? e); [|lia].
      apply Z.mul_nonneg_nonneg; [lia|]. apply Z.pow_nonneg. lia.
    + destruct (Z.leb_spec 0 e); [lia|]. apply pow2_pos. lia.
  - destruct (integral_value m e Hwf Hint) as (Hv & _ & _ & _).
    assert (Hex : exactDigits m e = normalize (intValue m e) 0).
    { unfold exactDigits, intValue. destruct (Z.leb_spec 0 e); [done|].
      destruct Hint as [?|Hmod]; [lia|]. by rewrite Hmod. }
    rewrite Hex. destruct (normalize_spec (intValue m e) 0) as (Hz & Hs & Hn).
    set (c := normalize (intValue m e) 0) in *.
    apply Hpos; [apply Hn; lia|].
    rewrite Z.sub_0_r in Hs. unfold roundDecimal.
    destruct (Z.eqb_spec c.1 0) as [H0|_]; [rewrite H0 in Hs; lia|].
    rewrite (proj2 (Z.leb_le 0 c.2)) by done. rewrite Hs.
    by apply roundRatio_exact.
Qed.

End ShortestDigits.

(** ** Reading back what Number::toString prints *)

Section ParsePrinted.

Lemma isChar_digit (a c : ascii) :
  isDigit a = false -> isDigit c = true -> isChar a c = false.
Proof.
  intros Ha Hc. unfold isChar. destruct (Ascii.eqb_spec a c) as [->|]; [congruence|done].
Qed.

Lemma digit_facts (c : ascii) :
  isDigit c = true ->
  isWhiteSpace c = false /\ isMinus c = false /\ isSign c = false /\
  isDot c = false /\ isExpChar c = false.
Proof.
  intros Hc. split.
  - unfold isDigit in Hc. unfold isWhiteSpace.
    apply andb_true_iff in Hc as [H1 H2]. apply Z.leb_le in H1, H2.
    apply orb_false_iff. split; [apply orb_false_iff; split|].
    + apply andb_false_iff. right. apply Z.leb_gt. lia.
    + apply Z.eqb_neq. lia.
    + apply Z.eqb_neq. lia.
  - unfold isMinus, isSign, isDot, isExpChar.
    rewrite !isChar_digit by done. done.
Qed.

Lemma startsWith_Infinity_digit (c : ascii) (l : list ascii) :
  isDigit c = true -> startsWith (chars "Infinity") (c :: l) = false.
Proof.
  intros Hc. unfold startsWith. case_decide as H; [|done].
  simpl in H. injection H as -> _. discriminate.
Qed.

Lemma takeWhile_digits (D E : list ascii) :
  Forall (fun c => isDigit c = true) D -> headIsNot isDigit E ->
  takeWhile isDigit (D ++ E) = D /\ dropWhile isDigit (D ++ E) = E.
Proof.
  intros HD HE. rewrite takeWhile_all, dropWhile_all by done.
  destruct E as [|x E]; simpl in *; [by rewrite app_nil_r|].
  rewrite HE. by rewrite app_nil_r.
Qed.

(** [parseFloat] on an optional minus sign, digits, an optional point
    with digits, and a tail that starts with neither. *)
Lemma parse_literal (neg dot : bool) (D1 D2 E : list ascii) :
  Forall (fun c => isDigit c = true) D1 -> Forall (fun c => isDigit c = true) D2 ->
  D1 <> [] -> (dot = false -> D2 = []) ->
  headIsNot isDigit E -> (dot = false -> headIsNot isDot E) ->
  parseFloat (str ((if neg then ["-"%char] else []) ++ D1
                   ++ (if dot then "."%char :: D2 else []) ++ E))
  = roundDecimal neg (digitsVal (D1 ++ D2)) (exponentPart E - Z.of_nat (length D2)).
Proof.
  intros H1 H2 Hne Hdot HE HEdot. unfold parseFloat, strDecimalLiteral. cbv zeta.
  rewrite chars_str.
  destruct D1 as [|c D1]; [done|]. apply Forall_cons in H1 as [Hc H1].
  destruct (digit_facts c Hc) as (Hws & Hminus & Hsign & Hdotc & _).
  set (rest := (if dot then "."%char :: D2 else []) ++ E).
  assert (Hrest : headIsNot isDigit rest).
  { subst rest. destruct dot; [done|]. simpl. done. }
  assert (Hl0 : dropWhile isWhiteSpace ((if neg then ["-"%char] else []) ++ (c :: D1) ++ rest)
                = (if neg then ["-"%char] else []) ++ (c :: D1) ++ rest).
  { destruct neg; simpl; [done|]. by rewrite Hws. }
  rewrite Hl0.
  assert (Hneg : headIs isMinus ((if neg then ["-"%char] else []) ++ (c :: D1) ++ rest) = neg).
  { destruct neg; simpl; [done|]. done. }
  assert (Hl1 : skipIf isSign ((if neg then ["-"%char] else []) ++ (c :: D1) ++ rest)
                = (c :: D1) ++ rest).
  { destruct neg; simpl; [done|]. by rewrite Hsign. }
  rewrite Hneg, Hl1. simpl app at 1.
  rewrite startsWith_Infinity_digit by done.
  destruct (takeWhile_digits (c :: D1) rest) as [Ht Hd]; [by constructor|done|].
  change (c :: D1 ++ rest) with ((c :: D1) ++ rest). rewrite Ht, Hd.
  assert (Hd2 : (if headIs isDot rest then takeWhile isDigit (skipIf isDot rest) else []) = D2
                /\ (if headIs isDot rest then dropWhile isDigit (skipIf isDot rest) else rest) = E).
  { subst rest. destruct dot.
    - simpl. by apply takeWhile_digits.
    - rewrite (Hdot eq_refl). simpl. specialize (HEdot eq_refl).
      destruct E as [|x E]; simpl in *; [done|]. by rewrite HEdot. }
  destruct Hd2 as [-> ->]. done.
Qed.

Lemma exponentPart_expSuffix (n : Z) : exponentPart (expSuffix n) = n - 1.
Proof.
  unfold exponentPart, expSuffix.
  destruct (digitsOf_spec (Z.abs (n - 1)) ltac:(lia)) as (Hv & Hd & Hne).
  assert (Ht : forall sg, isSign sg = true ->
             takeWhile isDigit (skipIf isSign (sg :: digitsOf (Z.abs (n - 1))))
             = digitsOf (Z.abs (n - 1))).
  { intros sg Hsg. simpl. rewrite Hsg.
    destruct (takeWhile_digits (digitsOf (Z.abs (n - 1))) [] Hd I) as [Ht _].
    by rewrite app_nil_r in Ht. }
  assert (Hemp : isEmpty (digitsOf (Z.abs (n - 1))) = false).
  { destruct (digitsOf (Z.abs (n - 1))); done. }
  destruct (Z.ltb_spec 0 (n - 1)).
  - change (headIs isExpChar ("e"%char :: "+"%char :: digitsOf (Z.abs (n - 1)))) with true.
    cbv iota. change (skipIf isExpChar ("e"%char :: "+"%char :: digitsOf (Z.abs (n - 1))))
      with ("+"%char :: digitsOf (Z.abs (n - 1))).
    rewrite Ht by done. rewrite Hemp.
    change (headIs isMinus ("+"%char :: digitsOf (Z.abs (n - 1)))) with false.
    cbv iota. rewrite Hv. lia.
  - change (headIs isExpChar ("e"%char :: "-"%char :: digitsOf (Z.abs (n - 1)))) with true.
    cbv iota. change (skipIf isExpChar ("e"%char :: "-"%char :: digitsOf (Z.abs (n - 1))))
      with ("-"%char :: digitsOf (Z.abs (n - 1))).
    rewrite Ht by done. rewrite Hemp.
    change (headIs isMinus ("-"%char :: digitsOf (Z.abs (n - 1)))) with true.
    cbv iota. rewrite Hv. lia.
Qed.

End ParsePrinted.

Section ParseFormat.

Lemma roundDecimal_scale (neg : bool) (s p : Z) :
  0 < s -> 0 <= p -> roundDecimal neg (s * 10 ^ p) 0 = roundDecimal neg s p.
Proof.
  intros Hs Hp. unfold roundDecimal.
  assert (0 < 10 ^ p) by (apply Z.pow_pos_nonneg; lia).
  rewrite (proj2 (Z.eqb_neq (s * 10 ^ p) 0)) by lia.
  rewrite (proj2 (Z.eqb_neq s 0)) by lia.
  rewrite (proj2 (Z.leb_le 0 p)) by done. simpl.
  by rewrite Z.mul_1_r.
Qed.

(** Whatever layout Number::toString chooses for the digits s at scale
    p, [parseFloat] reads the Number value for s * 10^p back. *)
Lemma parse_format (neg : bool) (c : Z * Z) :
  0 < c.1 ->
  parseFloat (str ((if neg then ["-"%char] else []) ++ formatDigits c))
  = roundDecimal neg c.1 c.2.
Proof.
  destruct c as [s p]. simpl. intros Hs.
  destruct (digitsOf_spec s ltac:(lia)) as (Hv & Hd & Hne).
  unfold formatDigits. simpl fst. simpl snd. cbv zeta.
  set (ds := digitsOf s) in *. set (k := Z.of_nat (length ds)).
  assert (Hk : 1 <= k) by (subst k; destruct ds; [done|simpl; lia]).
  set (n := p + k).
  destruct ((k <=? n) && (n <=? 21)) eqn:C1.
  { apply andb_true_iff in C1 as [C1 _]. apply Z.leb_le in C1.
    pose proof (parse_literal neg false (ds ++ zeros (n - k)) [] []) as H.
    rewrite !app_nil_r in H. rewrite H; clear H;
      [|apply Forall_app; split; [done|apply zeros_digits]|done
       |by destruct ds|done|done|done].
    rewrite digitsVal_app, digitsVal_zeros, length_zeros, Hv by lia.
    change (exponentPart [] - Z.of_nat (length [])) with 0.
    rewrite Z.add_0_r. replace (n - k) with p by lia.
    apply roundDecimal_scale; lia. }
  destruct ((0 <? n) && (n <=? 21)) eqn:C2.
  { apply andb_true_iff in C2 as [C2 C2']. apply Z.ltb_lt in C2. apply Z.leb_le in C2'.
    apply andb_false_iff in C1.
    pose proof (parse_literal neg true (take (Z.to_nat n) ds) (drop (Z.to_nat n) ds) []) as H.
    rewrite !app_nil_r in H. rewrite H; clear H;
      [|by apply Forall_take|by apply Forall_drop| |done|done|done].
    2:{ destruct ds; [done|]. destruct (Z.to_nat n) eqn:E; [lia|done]. }
    rewrite take_drop, Hv, length_drop.
    change (exponentPart []) with 0. f_equal.
    destruct C1 as [C1|C1]; [apply Z.leb_gt in C1|apply Z.leb_gt in C1]; lia. }
  destruct ((-6 <? n) && (n <=? 0)) eqn:C3.
  { apply andb_true_iff in C3 as [_ C3]. apply Z.leb_le in C3.
    pose proof (parse_literal neg true ["0"%char] (zeros (- n) ++ ds) []) as H.
    rewrite !app_nil_r in H.
    change (["0"%char] ++ "."%char :: zeros (- n) ++ ds)
      with ("0"%char :: "."%char :: zeros (- n) ++ ds) in H.
    rewrite H; clear H;
      [|by repeat constructor|apply Forall_app; split; [apply zeros_digits|done]
       |done|done|done|done].
    rewrite digitsVal_app. change (digitsVal ["0"%char]) with 0.
    rewrite digitsVal_app, digitsVal_zeros, Hv, length_app, Nat2Z.inj_add, length_zeros by lia.
    change (exponentPart []) with 0. f_equal; lia. }
  destruct (Z.eqb_spec k 1) as [C4|C4].
  { pose proof (parse_literal neg false ds [] (expSuffix n)) as H.
    simpl app in H at 3. rewrite H; clear H; [|done|done|done|done|done|done].
    rewrite app_nil_r, Hv, exponentPart_expSuffix. f_equal. simpl. lia. }
  pose proof (parse_literal neg true (take 1 ds) (drop 1 ds) (expSuffix n)) as H.
  change ((if true then "."%char :: drop 1 ds else []) ++ expSuffix n)
    with ("."%char :: drop 1 ds ++ expSuffix n) in H.
  rewrite H; clear H; [|by apply Forall_take|by apply Forall_drop| |done|done|done].
  2:{ by destruct ds. }
  rewrite take_drop, Hv, length_drop, exponentPart_expSuffix. f_equal. lia.
Qed.

End ParseFormat.

(** ** Printing integral doubles *)

Section PrintedNumbers.

Lemma takeWhile_Forall {A} (p : A -> bool) (l : list A) :
  Forall (fun x => p x = true) (takeWhile p l).
Proof.
  induction l as [|x l IH]; simpl; [constructor|].
  destruct (p x) eqn:E; by constructor.
Qed.

Lemma takeWhile_dropWhile {A} (p : A -> bool) (l : list A) :
  takeWhile p l ++ dropWhile p l = l.
Proof.
  induction l as [|x l IH]; simpl; [done|].
  destruct (p x); simpl; [by rewrite IH|done].
Qed.

Lemma strDecimalLiteral_wf (l : list ascii) : wf (strDecimalLiteral l).
Proof.
  unfold strDecimalLiteral. cbv zeta.
  destruct (startsWith _ _); [done|]. destruct (isEmpty _); [done|].
  apply roundDecimal_wf, digitsVal_nonneg, Forall_app.
  split; [apply takeWhile_Forall|].
  destruct (headIs _ _); [apply takeWhile_Forall|constructor].
Qed.

Lemma parseFloat_wf (s : string) : wf (parseFloat s).
Proof. apply strDecimalLiteral_wf. Qed.

Lemma digits_not_ws (l : list ascii) :
  Forall (fun c => isDigit c = true) l -> Forall (fun c => isWhiteSpace c = false) l.
Proof. intros Hl. eapply Forall_impl; [exact Hl|]. intros c Hc. by apply digit_facts. Qed.

Lemma expSuffix_not_ws (n : Z) : Forall (fun c => isWhiteSpace c = false) (expSuffix n).
Proof.
  unfold expSuffix. constructor; [done|]. constructor; [by destruct (0 <? n - 1)|].
  apply digits_not_ws, digitsOf_spec. lia.
Qed.

Lemma formatDigits_chars (c : Z * Z) :
  0 < c.1 ->
  Forall (fun ch => isWhiteSpace ch = false) (formatDigits c) /\ formatDigits c <> [].
Proof.
  intros Hs. destruct (digitsOf_spec c.1 ltac:(lia)) as (_ & Hd & Hne).
  pose proof (digits_not_ws _ Hd) as Hw.
  unfold formatDigits. cbv zeta.
  set (ds := digitsOf c.1) in *.
  destruct (_ && _).
  { split; [|by destruct ds].
    apply Forall_app. split; [done|]. apply digits_not_ws, zeros_digits. }
  destruct (_ && _).
  { split; [|intros H; by apply app_eq_nil in H as [_ ?]].
    apply Forall_app. split; [by apply Forall_take|].
    constructor; [done|by apply Forall_drop]. }
  destruct (_ && _).
  { split; [|done]. constructor; [done|]. constructor; [done|].
    apply Forall_app. split; [apply digits_not_ws, zeros_digits|done]. }
  destruct (_ =? 1).
  { split; [|by destruct ds].
    apply Forall_app. split; [done|apply expSuffix_not_ws]. }
  split; [|intros H; by apply app_eq_nil in H as [_ ?]].
  apply Forall_app. split; [by apply Forall_take|].
  constructor; [done|]. apply Forall_app. split; [by apply Forall_drop|apply expSuffix_not_ws].
Qed.

(** What [String] prints for an integral Number has no white space at
    its ends, is not empty, and [parseFloat] reads the Number back (the
    sign of a zero apart). *)
Lemma numberToString_clean (x : number) :
  wf x -> integerValued x ->
  trim (numberToString x) = numberToString x /\ numberToString x <> "".
Proof.
  destruct x as [|neg|neg|neg m e]; intros Hwf Hint.
  - by vm_compute.
  - destruct neg; by vm_compute.
  - by vm_compute.
  - simpl. destruct (shortest_valid m e Hwf Hint) as [Hs _].
    destruct (formatDigits_chars (shortest m e) Hs) as [Hc Hne].
    split.
    + apply trim_fixed. apply Forall_app. split; [|done]. by destruct neg; repeat constructor.
    + intros H. apply str_nil_inv in H. apply app_eq_nil in H as [_ ?]. done.
Qed.

Lemma parse_numberToString (x : number) :
  wf x -> integerValued x -> x <> NaN ->
  parseFloat (numberToString x) = match x with Zero _ => Zero false | _ => x end.
Proof.
  destruct x as [|neg|neg|neg m e]; intros Hwf Hint Hnan.
  - done.
  - destruct neg; by vm_compute.
  - by vm_compute.
  - simpl. destruct (shortest_valid m e Hwf Hint) as [Hs Hv].
    rewrite parse_format by done. rewrite roundDecimal_sign, Hv. done.
Qed.

(** Printing the floor of a Number, reading the result back and
    printing its floor again gives the same string. *)
Lemma print_floor_fixed (num : number) :
  wf num -> num <> NaN ->
  let r := numberToString (floor num) in
  trim r = r /\ r <> "" /\ parseFloat r <> NaN /\
  numberToString (floor (parseFloat r)) = r.
Proof.
  intros Hwf Hnan. cbv zeta.
  destruct (floor_shape num Hwf) as (Hwf' & Hint & Hnan'). specialize (Hnan' Hnan).
  destruct (numberToString_clean _ Hwf' Hint) as [Ht Hne].
  split; [done|]. split; [done|].
  rewrite parse_numberToString by done.
  destruct (floor num) as [|neg|neg|neg m e] eqn:E; [done|split; done|split; done|].
  split; [done|]. by rewrite floor_fixed.
Qed.

End PrintedNumbers.

(** ** The identifier normaliser *)

Section Normalizer.

Lemma startsWith_app (p a w : list ascii) :
  startsWith p a = true -> startsWith p (a ++ w) = true.
Proof.
  unfold startsWith. case_decide as H; [|done]. intros _.
  rewrite decide_True; [done|].
  rewrite take_app_le; [done|].
  apply (f_equal length) in H. rewrite length_take in H. lia.
Qed.

(** A string without a numeric prefix has no prefix with one. *)
Lemma literal_NaN_prefix (t w : list ascii) :
  strDecimalLiteral (t ++ w) = NaN -> strDecimalLiteral t = NaN.
Proof.
  destruct t as [|c t]; [done|].
  unfold strDecimalLiteral. cbv zeta.
  assert (Hskip : skipIf isSign ((c :: t) ++ w) = skipIf isSign (c :: t) ++ w).
  { simpl. by destruct (isSign c). }
  rewrite Hskip. set (a := skipIf isSign (c :: t)).
  destruct (startsWith (chars "Infinity") a) eqn:Hinf.
  { by rewrite (startsWith_app _ _ w Hinf). }
  destruct (isEmpty (takeWhile isDigit a ++ _)) eqn:Hemp; [done|].
  destruct (startsWith _ (a ++ w)); [done|].
  set (d1 := takeWhile isDigit (a ++ w)).
  set (d2 := if headIs isDot (dropWhile isDigit (a ++ w))
             then takeWhile isDigit (skipIf isDot (dropWhile isDigit (a ++ w))) else []).
  assert (Hne : isEmpty (d1 ++ d2) = false).
  { subst d1 d2. destruct a as [|x a']; [done|]. simpl in *.
    destruct (isDigit x) eqn:Hx; [done|].
    cbn [headIs skipIf app] in *. destruct (isDot x); [|done].
    destruct a' as [|y a'']; [done|]. simpl in *.
    by destruct (isDigit y). }
  rewrite Hne. intros H. exfalso.
  match type of H with
  | roundDecimal ?n ?m ?p = _ => destruct (roundDecimal_wf n m p) as [_ Hn]; [|by apply Hn]
  end.
  apply digitsVal_nonneg, Forall_app. split; [apply takeWhile_Forall|].
  clear. destruct (headIs isDot _); [apply takeWhile_Forall|constructor].
Qed.

Lemma parseFloat_trim_NaN (v : string) :
  parseFloat v = NaN -> parseFloat (trim v) = NaN.
Proof.
  unfold parseFloat, trim. rewrite chars_str.
  rewrite (dropWhile_none _ (trimChars (chars v))) by apply trimChars_shape.
  unfold trimChars. set (l0 := dropWhile isWhiteSpace (chars v)).
  intros H. apply (literal_NaN_prefix _ (rev (takeWhile isWhiteSpace (rev l0)))).
  rewrite <- rev_app_distr, takeWhile_dropWhile, rev_involutive. exact H.
Qed.

Lemma eqb_empty (s : string) : s <> "" -> String.eqb s "" = false.
Proof. intros Hs. by destruct (String.eqb_spec s ""). Qed.

(** When the revised normaliser leaves a string as it is. *)
Lemma revised_fixed (r : string) :
  r = "" \/
  (trim r = r /\
   (CsvUtilsRevised.isScientific r = true -> parseFloat r <> NaN ->
    numberToString (floor (parseFloat r)) = r)) ->
  CsvUtilsRevised.normalizeHB (Some r) = r.
Proof.
  intros [->|[Ht Hn]]; [done|]. unfold CsvUtilsRevised.normalizeHB.
  destruct (String.eqb_spec r "") as [->|Hr]; [done|].
  cbv zeta. rewrite Ht.
  destruct (CsvUtilsRevised.isScientific r); [|done].
  destruct (isNaN (parseFloat r)) eqn:E; simpl; [done|].
  apply Hn; [done|]. intros HN. by rewrite HN in E.
Qed.

Lemma revised_idempotent (value : option string) :
  CsvUtilsRevised.normalizeHB (Some (CsvUtilsRevised.normalizeHB value))
  = CsvUtilsRevised.normalizeHB value.
Proof.
  apply revised_fixed.
  destruct value as [v|]; [|by left]. unfold CsvUtilsRevised.normalizeHB.
  destruct (String.eqb v ""); [by left|]. cbv zeta.
  destruct (CsvUtilsRevised.isScientific (trim v)) eqn:Hsci.
  - destruct (isNaN (parseFloat (trim v))) eqn:Hnan; simpl.
    + right. split; [apply trim_idem|]. intros _ Hn.
      destruct (parseFloat (trim v)); done.
    + right. destruct (print_floor_fixed (parseFloat (trim v))) as (Ht & _ & _ & Hfix).
      { apply parseFloat_wf. } { by destruct (parseFloat (trim v)). }
      split; [done|]. intros _ _. exact Hfix.
  - right. split; [apply trim_idem|]. intros H. congruence.
Qed.

(** When the normaliser of [csvUtils.js] leaves a string as it is. *)
Lemma legacy_fixed (r : string) :
  r = "" \/
  (parseFloat r <> NaN /\ numberToString (floor (parseFloat r)) = r) \/
  (parseFloat r = NaN /\ trim r = r) ->
  CsvUtils.normalizeHB (Some r) = r.
Proof.
  intros [->|H]; [done|]. unfold CsvUtils.normalizeHB.
  destruct (String.eqb_spec r "") as [->|Hr]; [done|]. cbv zeta.
  destruct H as [[Hn Hp]|[Hn Ht]].
  - destruct (isNaN (parseFloat r)) eqn:E; simpl; [|done].
    by destruct (parseFloat r).
  - by rewrite Hn.
Qed.

Lemma legacy_idempotent (value : option string) :
  CsvUtils.normalizeHB (Some (CsvUtils.normalizeHB value))
  = CsvUtils.normalizeHB value.
Proof.
  apply legacy_fixed.
  destruct value as [v|]; [|by left]. unfold CsvUtils.normalizeHB.
  destruct (String.eqb v ""); [by left|]. cbv zeta.
  destruct (isNaN (parseFloat v)) eqn:Hnan; simpl.
  - right. right. split; [|apply trim_idem].
    apply parseFloat_trim_NaN. by destruct (parseFloat v).
  - right. left. destruct (print_floor_fixed (parseFloat v)) as (_ & _ & Hn & Hfix).
    { apply parseFloat_wf. } { by destruct (parseFloat v). }
    done.
Qed.

(** C9.  Each copy of the normaliser is idempotent: the revised
    [csvUtils.js] one (database.js, lines 1167-1188), the one of
    [localDatabase.js], and the one in [csvUtils.js] (lines 97-113).  A
    result that [String] prints in exponential form, as for inputs of
    1e21 and above, reads back as the same Number and prints the same. *)
Theorem normalizeHB_idempotent (value : option string) :
  CsvUtilsRevised.normalizeHB (Some (CsvUtilsRevised.normalizeHB value))
    = CsvUtilsRevised.normalizeHB value /\
  LocalDatabase.normalizeHB (Some (LocalDatabase.normalizeHB value))
    = LocalDatabase.normalizeHB value /\
  CsvUtils.normalizeHB (Some (CsvUtils.normalizeHB value))
    = CsvUtils.normalizeHB value.
Proof.
  split; [apply revised_idempotent|]. split; [|apply legacy_idempotent].
  change LocalDatabase.normalizeHB with CsvUtilsRevised.normalizeHB.
  apply revised_idempotent.
Qed.

(** Inputs with exponent 21 and more. *)
Example normalizeHB_exponential :
  CsvUtilsRevised.normalizeHB (Some "1e21") = "1e+21" /\
  CsvUtilsRevised.normalizeHB (Some "1e+21") = "1e+21" /\
  CsvUtilsRevised.normalizeHB (Some "1.5E300") = "1.5e+300" /\
  CsvUtilsRevised.normalizeHB (Some "1.5e+300") = "1.5e+300" /\
  CsvUtilsRevised.normalizeHB (Some "1e999") = "Infinity" /\
  CsvUtilsRevised.normalizeHB (Some "Infinity") = "Infinity".
Proof. vm_compute. by split_and!. Qed.

End Normalizer.

Section NormalizerContract.

(** A string that matches the pattern starts, after an optional minus
    sign, with a digit: [parseFloat] never answers NaN on it. *)
Lemma scientific_not_NaN (t : string) :
  CsvUtilsRevised.isScientific t = true -> parseFloat t <> NaN.
Proof.
  unfold CsvUtilsRevised.isScientific, CsvUtilsRevised.sciPattern, parseFloat.
  cbv zeta. set (l := chars t). intros H.
  apply andb_true_iff in H as [H _]. apply andb_true_iff in H as [H _].
  apply andb_true_iff in H as [H _].
  assert (Hd : exists x r, skipIf isMinus l = x :: r /\ isDigit x = true).
  { destruct (skipIf isMinus l) as [|x r]; [done|]. simpl in H.
    destruct (isDigit x) eqn:Hx; [by exists x, r|done]. }
  destruct Hd as (x & r & Hl1 & Hx).
  destruct (digit_facts x Hx) as (Hws & Hminus & Hsign & _).
  assert (Hl : (l = x :: r \/ l = "-"%char :: x :: r)).
  { destruct l as [|c l']; [done|]. simpl in Hl1.
    destruct (isMinus c) eqn:Hc; [|by left]. right. subst l'.
    unfold isMinus, isChar in Hc. by destruct (Ascii.eqb_spec "-" c) as [<-|]. }
  assert (Hlit : strDecimalLiteral (dropWhile isWhiteSpace l)
                 = roundDecimal (headIs isMinus l)
                     (digitsVal (takeWhile isDigit (x :: r) ++
                        (if headIs isDot (dropWhile isDigit (x :: r))
                         then takeWhile isDigit (skipIf isDot (dropWhile isDigit (x :: r)))
                         else [])))
                     (exponentPart
                        (if headIs isDot (dropWhile isDigit (x :: r))
                         then dropWhile isDigit (skipIf isDot (dropWhile isDigit (x :: r)))
                         else dropWhile isDigit (x :: r))
                      - Z.of_nat (length
                          (if headIs isDot (dropWhile isDigit (x :: r))
                           then takeWhile isDigit (skipIf isDot (dropWhile isDigit (x :: r)))
                           else [])))).
  { unfold strDecimalLiteral. cbv zeta.
    assert (Hdrop : dropWhile isWhiteSpace l = l).
    { destruct Hl as [-> | ->]; simpl; [by rewrite Hws|done]. }
    assert (Hskip : skipIf isSign l = x :: r).
    { destruct Hl as [-> | ->]; simpl; [by rewrite Hsign|done]. }
    rewrite Hdrop, Hskip, startsWith_Infinity_digit by done.
    simpl takeWhile. rewrite Hx. done. }
  rewrite Hlit. apply roundDecimal_wf.
  apply digitsVal_nonneg, Forall_app. split; [apply takeWhile_Forall|].
  destruct (headIs isDot _); [apply takeWhile_Forall|constructor].
Qed.

(** C2, as stated, fails on a negative fraction: [Math.floor] rounds
    -1.5 down to -2, the integer truncation is -1. *)
Lemma normalizeHB_floor_counterexample :
  CsvUtilsRevised.isScientific (trim "-1.5e0") = true /\
  CsvUtilsRevised.normalizeHB (Some "-1.5e0") = "-2" /\
  numberToString (truncate (parseFloat (trim "-1.5e0"))) = "-1" /\
  CsvUtilsRevised.normalizeHB (Some "-1.5e0")
    <> numberToString (truncate (parseFloat (trim "-1.5e0"))).
Proof. vm_compute. split_and!; (reflexivity || discriminate). Qed.

(** The copy in [csvUtils.js] parses every value, and cuts an
    alphanumeric identifier at its first letter. *)
Example legacy_normalizeHB_alphanumeric :
  CsvUtils.normalizeHB (Some "62R0537240") = "62" /\
  CsvUtilsRevised.normalizeHB (Some "62R0537240") = "62R0537240" /\
  LocalDatabase.normalizeHB (Some "62R0537240") = "62R0537240".
Proof. vm_compute. by split_and!. Qed.

(** C2, amended.  The revised normaliser (and the identical one of the
    local store) returns "" for null and for ""; for a value whose
    trimmed form matches the pattern it returns [String] of the floor of
    the parsed Number, which is an integer and, unless the parsed Number
    is negative, its truncation; every other value is returned trimmed. *)
Theorem normalizeHB_contract :
  LocalDatabase.normalizeHB = CsvUtilsRevised.normalizeHB /\
  CsvUtilsRevised.normalizeHB None = "" /\
  CsvUtilsRevised.normalizeHB (Some "") = "" /\
  (forall v, v <> "" -> CsvUtilsRevised.isScientific (trim v) = true ->
     parseFloat (trim v) <> NaN /\
     integerValued (floor (parseFloat (trim v))) /\
     CsvUtilsRevised.normalizeHB (Some v)
       = numberToString (floor (parseFloat (trim v))) /\
     (isNegative (parseFloat (trim v)) = false ->
      CsvUtilsRevised.normalizeHB (Some v)
        = numberToString (truncate (parseFloat (trim v))))) /\
  (forall v, v <> "" -> CsvUtilsRevised.isScientific (trim v) = false ->
     CsvUtilsRevised.normalizeHB (Some v) = trim v) /\
  CsvUtilsRevised.normalizeHB (Some "6.17E+08") = "617000000" /\
  CsvUtilsRevised.normalizeHB (Some "62R0537240") = "62R0537240".
Proof.
  split; [reflexivity|]. split; [reflexivity|]. split; [reflexivity|].
  split; [|split; [|by vm_compute]].
  - intros v Hv Hsci. pose proof (scientific_not_NaN _ Hsci) as Hn.
    assert (Hres : CsvUtilsRevised.normalizeHB (Some v)
                   = numberToString (floor (parseFloat (trim v)))).
    { unfold CsvUtilsRevised.normalizeHB. rewrite eqb_empty by done.
      cbv zeta. rewrite Hsci. by destruct (parseFloat (trim v)). }
    split; [done|]. split; [apply floor_shape, parseFloat_wf|].
    split; [done|]. intros Hpos. by rewrite Hres, floor_truncate.
  - intros v Hv Hsci. unfold CsvUtilsRevised.normalizeHB.
    rewrite eqb_empty by done. cbv zeta. by rewrite Hsci.
Qed.

Lemma normalizeHB_contract_witness :
  CsvUtilsRevised.isScientific (trim " 6.17E+08 ") = true /\
  isNegative (parseFloat (trim " 6.17E+08 ")) = false /\
  CsvUtilsRevised.normalizeHB (Some " 6.17E+08 ")
    = numberToString (truncate (parseFloat (trim " 6.17E+08 "))) /\
  CsvUtilsRevised.normalizeHB (Some " 6.17E+08 ") = "617000000".
Proof.
  assert (Hsci : CsvUtilsRevised.isScientific (trim " 6.17E+08 ") = true)
    by (vm_compute; reflexivity).
  assert (Hpos : isNegative (parseFloat (trim " 6.17E+08 ")) = false)
    by (vm_compute; reflexivity).
  destruct normalizeHB_contract as (_ & _ & _ & H & _).
  destruct (H " 6.17E+08 " ltac:(discriminate) Hsci) as (_ & _ & _ & Ht).
  split_and!; [exact Hsci|exact Hpos|exact (Ht Hpos)|].
  rewrite (Ht Hpos). vm_compute. reflexivity.
Defined.

End NormalizerContract.

(** ** Ingesting the same rows again *)

Section Reingestion.
Import LocalDatabase MasterSpec.

Implicit Types (ml : list master_entry) (row : csv_row) (rows : list csv_row).

Lemma lastWith_present rows row :
  row ∈ rows -> is_Some (lastWith rows (rowKey row)).
Proof.
  induction rows as [|r rows IH]; [by intros ?%not_elem_of_nil|].
  intros Hin. simpl. apply elem_of_cons in Hin as [<-|Hin].
  - destruct (lastWith rows (rowKey row)); [done|]. by rewrite decide_True.
  - destruct (IH Hin) as [x ->]. done.
Qed.

Lemma lastWith_cons_None r rows k :
  lastWith (r :: rows) k = None -> lastWith rows k = None /\ rowKey r <> k.
Proof.
  simpl. destruct (lastWith rows k); [done|]. by case_decide.
Qed.

Lemma unique_key ml i j e e' :
  NoDup (entryKey <$> ml) -> ml !! i = Some e -> ml !! j = Some e' ->
  entryKey e = entryKey e' -> i = j.
Proof.
  intros Hnd Hi Hj Hk. eapply (NoDup_lookup _ _ _ _ Hnd).
  - by rewrite list_lookup_fmap, Hi.
  - by rewrite list_lookup_fmap, Hj, Hk.
Qed.

(** What one row does to the catalog, in terms of positions. *)
Lemma upsertRow_cases uploadId st ml a b row :
  (rowKey row = "" /\ upsertRow uploadId st (ml, a, b) row = (ml, a, b)) \/
  (rowKey row <> "" /\
   exists e, entry_item e = itemOf (rowKey row) row /\
             last_updated_upload_id e = uploadId /\
     ((exists j old, list_find (hasKey (rowKey row)) ml = Some (j, old) /\
                     entry_key e = entry_key old /\
                     first_seen_upload_id e = first_seen_upload_id old /\
                     created_at e = created_at old /\
                     upsertRow uploadId st (ml, a, b) row = (<[j := e]> ml, a, S b)) \/
      (Forall (fun m => entryKey m <> rowKey row) ml /\
       upsertRow uploadId st (ml, a, b) row = (ml ++ [e], S a, b)))).
Proof.
  destruct (decide (rowKey row = "")) as [Hk|Hk]; [left; by rewrite upsertRow_skip|].
  right. split; [done|].
  destruct (list_find (hasKey (rowKey row)) ml) as [[j old]|] eqn:Hfind.
  - eexists. split_and!; [| |left; exists j, old; split_and!;
                               [done| | | |by apply upsertRow_update]]; done.
  - apply list_find_None in Hfind.
    eexists. split_and!; [| |right; split; [exact Hfind|by apply upsertRow_add]]; done.
Qed.

(** Rows whose keys are all in the catalog rewrite entries in place. *)
Lemma upsertRows_in_place env i uploadId rows ml a b :
  catalogInv ml ->
  (forall row, row ∈ rows -> rowKey row <> "" -> rowKey row ∈ entryKey <$> ml) ->
  let res := upsertRows env i uploadId rows (ml, a, b) in
  length res.1.1 = length ml /\
  (forall j e e', ml !! j = Some e -> res.1.1 !! j = Some e' ->
                  rewritten uploadId rows e e') /\
  res.1.2 = a /\
  res.2 = (b + length (filter (fun row => rowKey row <> "") rows))%nat.
Proof.
  revert i ml a b. induction rows as [|r rows IH]; intros i ml a b Hinv Hin; cbv zeta.
  { simpl. split_and!; [done| |done|lia].
    intros j e e' He He'. unfold rewritten. simpl. congruence. }
  rewrite upsertRows_cons.
  destruct (upsertRow_cases uploadId (env i) ml a b r)
    as [[Hk ->]|(Hk & e_r & Hitem & Hupd & [(j0 & old & Hfind & Hid & Hseen & Hcr & ->)|[Hfresh _]])].
  - destruct (IH (S i) ml a b Hinv) as (Hlen & Hpt & Ha & Hb).
    { intros row Hrow. apply Hin. by right. }
    rewrite filter_cons_False by (intros ?; done).
    split_and!; [done| |done|done].
    intros j e e' He He'. specialize (Hpt j e e' He He'). unfold rewritten in *. simpl.
    destruct (lastWith rows (entryKey e)); [done|].
    rewrite decide_False; [done|]. rewrite Hk. intros Heq.
    destruct Hinv as [_ Hne]. eapply Forall_lookup_1 in Hne; [|exact He]. by apply Hne.
  - apply list_find_Some in Hfind as (Hj0 & Hkey & _). unfold hasKey in Hkey.
    assert (Hkeys : entryKey <$> <[j0 := e_r]> ml = entryKey <$> ml).
    { apply (keys_insert_same _ _ old); [done|].
      unfold entryKey. rewrite Hitem. simpl. by rewrite Hkey. }
    destruct (IH (S i) (<[j0 := e_r]> ml) a (S b)) as (Hlen & Hpt & Ha & Hb).
    { destruct Hinv as [Hnd Hne]. split; [by rewrite Hkeys|].
      apply Forall_insert; [done|]. unfold entryKey. rewrite Hitem. done. }
    { intros row Hrow Hrk. rewrite Hkeys. apply Hin; [by right|done]. }
    rewrite filter_cons_True by done. rewrite length_insert in Hlen.
    split_and!; [done| |done|simpl; lia].
    intros j e e' He He'. destruct (decide (j = j0)) as [->|Hne].
    + assert (e = old) by congruence. subst e.
      specialize (Hpt j0 e_r e'). rewrite list_lookup_insert_eq in Hpt
        by (by eapply lookup_lt_Some).
      specialize (Hpt eq_refl He').
      assert (Hek : entryKey e_r = rowKey r) by (unfold entryKey; by rewrite Hitem).
      assert (Hkold : entryKey old = rowKey r) by done.
      unfold rewritten in *. rewrite Hek in Hpt. rewrite Hkold. simpl.
      destruct (lastWith rows (rowKey r)) as [x|].
      * destruct Hpt as (H1 & H2 & H3 & H4 & H5). split_and!; congruence.
      * rewrite decide_True by done. subst e'. by split_and!.
    + specialize (Hpt j e e'). rewrite list_lookup_insert_ne in Hpt by done.
      specialize (Hpt He He'). unfold rewritten in *. simpl.
      destruct (lastWith rows (entryKey e)); [done|].
      rewrite decide_False; [done|]. intros Heq. apply Hne.
      destruct Hinv as [Hnd _]. apply (unique_key ml j j0 e old Hnd He Hj0).
      unfold entryKey at 2. by rewrite Hkey.
  - exfalso. specialize (Hin r ltac:(left) Hk).
    apply list_elem_of_fmap in Hin as (m & Hm & Hmin).
    eapply Forall_forall in Hfresh; [|exact Hmin]. by apply Hfresh.
Qed.

(** Rows leave the entries of the other keys where and as they are. *)
Lemma upsertRows_untouched env i uploadId rows ml a b k j e :
  lastWith rows k = None -> ml !! j = Some e -> entryKey e = k ->
  (upsertRows env i uploadId rows (ml, a, b)).1.1 !! j = Some e.
Proof.
  revert i ml a b. induction rows as [|r rows IH]; intros i ml a b Hlast Hj Hk; [done|].
  apply lastWith_cons_None in Hlast as [Hlast Hr]. rewrite upsertRows_cons.
  destruct (upsertRow_cases uploadId (env i) ml a b r)
    as [[_ ->]|(_ & e_r & _ & _ & [(j0 & old & Hfind & _ & _ & _ & ->)|[_ ->]])].
  - by apply IH.
  - apply IH; [done| |done]. rewrite list_lookup_insert_ne; [done|].
    intros ->. apply list_find_Some in Hfind as (Hj0 & Hkey & _).
    unfold hasKey in Hkey. assert (old = e) by congruence. subst old.
    unfold entryKey in Hk. congruence.
  - apply IH; [done| |done]. by apply lookup_app_l_Some.
Qed.

(** After ingesting [rows], the entry of each of their keys holds the
    fields of the last row with that key. *)
Lemma upsertRows_last env i uploadId rows ml a b k r :
  lastWith rows k = Some r -> k <> "" ->
  exists j e,
    (upsertRows env i uploadId rows (ml, a, b)).1.1 !! j = Some e /\
    entryKey e = k /\ entry_item e = itemOf k r /\
    last_updated_upload_id e = uploadId.
Proof.
  revert i ml a b. induction rows as [|r0 rows IH]; intros i ml a b Hlast Hk; [done|].
  rewrite upsertRows_cons. simpl in Hlast.
  destruct (lastWith rows k) as [x|] eqn:Hrest.
  { injection Hlast as ->.
    destruct (upsertRow uploadId (env i) (ml, a, b) r0) as [[ml' a'] b'].
    by apply IH. }
  case_decide as Hr0; [|done]. injection Hlast as ->.
  destruct (upsertRow_cases uploadId (env i) ml a b r)
    as [[Hk0 _]|(_ & e_r & Hitem & Hupd & [(j0 & old & Hfind & _ & _ & _ & ->)|[_ ->]])].
  - congruence.
  - exists j0, e_r. split_and!; [|by unfold entryKey; rewrite Hitem
                                  |by rewrite Hitem, Hr0|done].
    eapply upsertRows_untouched; [exact Hrest| |by unfold entryKey; rewrite Hitem].
    apply list_lookup_insert_eq. apply list_find_Some in Hfind as (Hj0 & _).
    by eapply lookup_lt_Some.
  - exists (length ml), e_r. split_and!; [|by unfold entryKey; rewrite Hitem
                                           |by rewrite Hitem, Hr0|done].
    eapply upsertRows_untouched; [exact Hrest| |by unfold entryKey; rewrite Hitem].
    by rewrite lookup_app_r, Nat.sub_diag.
Qed.

(** Ingesting the same rows under the same upload id a second time adds
    no entry and leaves every entry as the first call left it, the time
    of its last update apart. *)
Lemma reingest_same_state (env1 env2 : nat -> stamp) (s : storage)
    (uploadId : string) (rows : list csv_row) :
  catalogInv (MASTER_LIST s) ->
  let s1 := (updateMasterList env1 s uploadId rows).1 in
  let again := updateMasterList env2 s1 uploadId rows in
  core <$> MASTER_LIST again.1 = core <$> MASTER_LIST s1 /\
  itemsAdded again.2 = 0%nat /\
  itemsUpdated again.2 = length (filter (fun row => rowKey row <> "") rows).
Proof.
  intros Hinv. cbv zeta.
  pose proof (updateMasterList_list env1 s uploadId rows) as Hs1.
  set (s1 := (updateMasterList env1 s uploadId rows).1) in *.
  set (ml1 := (upsertRows env1 0 uploadId rows (MASTER_LIST s, 0%nat, 0%nat)).1.1) in *.
  assert (Hinv1 : catalogInv ml1) by (by apply upsertRows_inv).
  assert (Hm : forall k r, lastWith rows k = Some r -> k <> "" ->
            exists j e, ml1 !! j = Some e /\ entryKey e = k /\
                        entry_item e = itemOf k r /\ last_updated_upload_id e = uploadId).
  { intros k r. apply upsertRows_last. }
  destruct (upsertRows_in_place env2 0 uploadId rows ml1 0 0 Hinv1)
    as (Hlen & Hpt & Ha & Hb).
  { intros row Hrow Hk. destruct (lastWith_present rows row Hrow) as [r Hr].
    destruct (Hm _ _ Hr Hk) as (j & e & Hj & Hkey & _).
    apply list_elem_of_fmap. exists e. split; [done|]. by eapply list_elem_of_lookup_2. }
  unfold updateMasterList. rewrite Hs1.
  destruct (upsertRows env2 0 uploadId rows (ml1, 0%nat, 0%nat)) as [[ml2 a2] b2].
  simpl in *. split; [|done].
  apply list_eq. intros j. rewrite !list_lookup_fmap.
  destruct (ml1 !! j) as [e|] eqn:He.
  - destruct (lookup_lt_is_Some_2 ml2 j) as [e' He'].
    { rewrite Hlen. by eapply lookup_lt_Some. }
    rewrite He'. simpl. f_equal. specialize (Hpt j e e' He He').
    unfold rewritten in Hpt. destruct (lastWith rows (entryKey e)) as [r|] eqn:Hr.
    + destruct Hinv1 as [Hnd Hne].
      destruct (Hm _ _ Hr) as (j' & e'' & Hj' & Hk'' & Hi'' & Hu'').
      { eapply Forall_lookup_1 in Hne; [|exact He]. done. }
      assert (j' = j) by (by eapply (unique_key ml1 j' j e'' e Hnd)). subst j'.
      assert (e'' = e) by congruence. subst e''.
      destruct Hpt as (H1 & H2 & H3 & H4 & H5). unfold core. congruence.
    + by subst e'.
  - rewrite (proj2 (lookup_ge_None ml2 j)); [done|].
    rewrite Hlen. by apply lookup_ge_None.
Qed.

End Reingestion.

(** ** Deleting an upload *)

Section DeletingUploads.
Import LocalDatabase DiffSpec.

Lemma filter_filter_drop {A} (P Q : A -> Prop) `{forall x, Decision (P x)}
    `{forall x, Decision (Q x)} (l : list A) :
  (forall x, P x -> Q x) -> filter P (filter Q l) = filter P l.
Proof.
  intros HPQ. induction l as [|x l IH]; [done|].
  destruct (decide (Q x)) as [Hq|Hq].
  - rewrite (filter_cons_True Q) by done.
    destruct (decide (P x)) as [Hp|Hp].
    + rewrite !(filter_cons_True P) by done. by rewrite IH.
    + rewrite !(filter_cons_False P) by done. done.
  - rewrite (filter_cons_False Q) by done.
    rewrite (filter_cons_False P) by (intros Hp; by apply Hq, HPQ). done.
Qed.

Lemma filter_empty {A} (P Q : A -> Prop) `{forall x, Decision (P x)}
    `{forall x, Decision (Q x)} (l : list A) :
  (forall x, P x -> Q x -> False) -> filter P (filter Q l) = [].
Proof.
  intros HPQ. induction l as [|x l IH]; [done|].
  destruct (decide (Q x)) as [Hq|Hq].
  - rewrite (filter_cons_True Q) by done.
    rewrite (filter_cons_False P) by (intros Hp; by apply (HPQ x)). done.
  - by rewrite (filter_cons_False Q) by done.
Qed.

Lemma snapshot_after_delete (rd : list report_row) (u v : string) :
  v <> u ->
  filter (ofUpload v) (filter (fun r => upload_id r <> u) rd) = filter (ofUpload v) rd.
Proof.
  intros Hv. apply filter_filter_drop. unfold ofUpload. intros r -> . done.
Qed.

Lemma hbSet_after_delete (rd : list report_row) (u v : string) :
  v <> u -> hbSet (filter (fun r => upload_id r <> u) rd) v = hbSet rd v.
Proof.
  intros Hv. unfold hbSet. f_equal. f_equal.
  apply filter_filter_drop. unfold keyedOfUpload. intros r [-> _]. done.
Qed.

(** X1.  After [deleteUpload], the upload is unknown and owns no report row:
    every query on its id answers as for an empty first upload.  The
    other uploads keep their rows and their order, and the master list
    keeps every entry, those first seen in the deleted upload included. *)
Theorem deleteUpload_forgets (s : storage) (u : string) :
  let s' := (deleteUpload s u).1 in
  (deleteUpload s u).2 = true /\
  unknownUpload s' u /\
  (forall f, getReportData s' u f = []) /\
  getNewItemsData s' u = Some [] /\ detectNewItems s' u = Some 0%nat /\
  getRemovedItemsData s' u = Some [] /\ detectRemovedItems s' u = Some 0%nat /\
  (forall v f, v <> u -> getReportData s' v f = getReportData s v f) /\
  sublist (UPLOADS s') (UPLOADS s) /\
  (forall x, x ∈ UPLOADS s -> upload_key x <> u -> x ∈ UPLOADS s') /\
  MASTER_LIST s' = MASTER_LIST s.
Proof.
  cbv zeta.
  assert (Hu : unknownUpload (deleteUpload s u).1 u).
  { unfold unknownUpload. simpl. apply Forall_forall. intros x Hx.
    by apply list_elem_of_filter in Hx as [Hx _]. }
  assert (He : filter (ofUpload u) (REPORT_DATA (deleteUpload s u).1) = []).
  { simpl. apply filter_empty. unfold ofUpload. intros r Hr1 Hr2. done. }
  pose proof (noPrevious_unknown _ _ Hu) as Hn.
  split; [done|]. split; [done|].
  split.
  { intros f. unfold getReportData. rewrite He. simpl.
    by destruct (String.eqb f "with_frl"), (String.eqb f "without_frl"). }
  unfold getNewItemsData, detectNewItems, getRemovedItemsData, detectRemovedItems.
  rewrite Hn, He. split_and!; try done.
  - intros v f Hv. unfold getReportData. simpl.
    by rewrite snapshot_after_delete.
  - apply sublist_filter.
  - intros x Hx Hk. simpl. apply list_elem_of_filter. done.
Qed.

(** X2.  Deleting the upload that [saveUpload] and [saveReportData] have just
    stored gives back the storage as it was, whether the rows were stored
    or the call ended in a RangeError, when the new id was not in use
    before. *)
Theorem delete_undoes_save (maxArguments : nat) (st : stamp) (env : nat -> stamp)
    (s : storage) (name : string) (n : nat) (rows : list csv_row) :
  Forall (fun x => upload_key x <> generateId st) (UPLOADS s) ->
  Forall (fun r => upload_id r <> generateId st) (REPORT_DATA s) ->
  let saved := saveUpload st s name n in
  let after :=
    match saveReportDataOn maxArguments env saved.1 (upload_key saved.2) rows with
    | Some stored => stored.1
    | None => saved.1
    end in
  upload_key saved.2 = generateId st /\
  (deleteUpload after (upload_key saved.2)).1 = s.
Proof.
  intros Hu Hr. cbv zeta. split; [done|].
  assert (Hups : filter (fun u => upload_key u <> generateId st)
                   ({| upload_key := generateId st; filename := name; row_count := n;
                       upload_date := now_created st |} :: UPLOADS s) = UPLOADS s).
  { rewrite filter_cons_False by (intros H; by apply H). by apply filter_all. }
  unfold saveReportDataOn. destruct s as [ups rd ml]. simpl in *.
  case_decide; unfold deleteUpload; simpl; f_equal; try exact Hups.
  - rewrite filter_app, (filter_all _ rd) by done.
    rewrite filter_none; [apply app_nil_r|].
    apply Forall_forall. intros r Hin Hne.
    apply elem_of_lookup_imap in Hin as (i & row & -> & _). by apply Hne.
  - by apply filter_all.
Qed.

Lemma delete_undoes_save_witness :
  saveReportDataOn 1000 (Fixtures.stampFor "c")
    (saveUpload (Fixtures.stampFor "C" 0) Fixtures.storeAB "c.csv" 1).1 "C"
    [Fixtures.csvRow "C1" "5" "M1"]
  = Some (saveReportData (Fixtures.stampFor "c")
            (saveUpload (Fixtures.stampFor "C" 0) Fixtures.storeAB "c.csv" 1).1 "C"
            [Fixtures.csvRow "C1" "5" "M1"]) /\
  (deleteUpload
     (saveReportData (Fixtures.stampFor "c")
        (saveUpload (Fixtures.stampFor "C" 0) Fixtures.storeAB "c.csv" 1).1 "C"
        [Fixtures.csvRow "C1" "5" "M1"]).1 "C").1 = Fixtures.storeAB.
Proof.
  assert (H1 : Forall (fun x => upload_key x <> generateId (Fixtures.stampFor "C" 0))
                 (UPLOADS Fixtures.storeAB)) by (repeat constructor; discriminate).
  assert (H2 : Forall (fun r => upload_id r <> generateId (Fixtures.stampFor "C" 0))
                 (REPORT_DATA Fixtures.storeAB)) by (repeat constructor; discriminate).
  pose proof (delete_undoes_save 1000 (Fixtures.stampFor "C" 0) (Fixtures.stampFor "c")
                Fixtures.storeAB "c.csv" 1 [Fixtures.csvRow "C1" "5" "M1"] H1 H2) as H.
  cbv zeta in H. destruct H as (_ & H).
  split; [reflexivity|]. exact H.
Defined.

(** X3.  Deleting the upload that precedes [cur] links [cur] to the upload
    before the deleted one: the comparison is then made with that
    upload, and with nothing when none is left. *)
Theorem deleteUpload_relinks (s : storage) (cur prev : string)
    (newer : list upload) (c p : upload) (older : list upload) :
  UPLOADS s = newer ++ c :: p :: older ->
  upload_key c = cur -> upload_key p = prev -> cur <> prev ->
  Forall (fun x => upload_key x <> cur) newer ->
  Forall (fun x => upload_key x <> prev) older ->
  let s' := (deleteUpload s prev).1 in
  match older with
  | [] =>
      firstEver s' cur /\
      getNewItemsData s' cur = Some (snapshot s cur) /\
      getRemovedItemsData s' cur = Some []
  | q :: _ =>
      precededBy s' cur (upload_key q) /\
      getNewItemsData s' cur
        = Some (filter (keyedAndMissing (hbSet (REPORT_DATA s) (upload_key q)))
                       (snapshot s cur)) /\
      getRemovedItemsData s' cur
        = Some (filter (keyedAndMissing (hbSet (REPORT_DATA s) cur))
                       (snapshot s (upload_key q)))
  end.
Proof.
  intros Hups Hc Hp Hne Hnewer Holder. cbv zeta.
  assert (Hups' : UPLOADS (deleteUpload s prev).1
                  = filter (fun x => upload_key x <> prev) newer ++ c :: older).
  { simpl. rewrite Hups, filter_app.
    rewrite filter_cons_True by congruence.
    rewrite filter_cons_False by (intros H; by apply H).
    by rewrite (filter_all _ older). }
  assert (Hnewer' : Forall (fun x => upload_key x <> cur)
                      (filter (fun x => upload_key x <> prev) newer)).
  { apply Forall_forall. intros x Hx. apply list_elem_of_filter in Hx as [_ Hx].
    eapply Forall_forall in Hnewer; eauto. }
  assert (Hsnap : filter (ofUpload cur) (REPORT_DATA (deleteUpload s prev).1)
                  = snapshot s cur).
  { simpl. by apply snapshot_after_delete. }
  destruct older as [|q older'].
  - assert (Hf : firstEver (deleteUpload s prev).1 cur).
    { eexists _, c. split_and!; [exact Hups'|done|done]. }
    split; [done|]. apply noPrevious_first in Hf.
    unfold getNewItemsData, getRemovedItemsData. rewrite Hf, Hsnap. done.
  - apply Forall_cons in Holder as [Hq _].
    assert (Hpre : precededBy (deleteUpload s prev).1 cur (upload_key q)).
    { eexists _, c, q, older'. split_and!; [exact Hups'|done|done|done]. }
    split; [done|]. apply previous_found in Hpre as [Hg Hprev].
    unfold getNewItemsData, getRemovedItemsData. rewrite Hg, Hprev, Hsnap.
    simpl. rewrite !hbSet_after_delete by done.
    rewrite snapshot_after_delete by done. done.
Qed.

Lemma deleteUpload_relinks_witness :
  precededBy (deleteUpload Fixtures.storeABC "B").1 "C" "A" /\
  getNewItemsData (deleteUpload Fixtures.storeABC "B").1 "C"
    = Some [Fixtures.record "c1" "C" "3"; Fixtures.record "c2" "C" "4"] /\
  getRemovedItemsData (deleteUpload Fixtures.storeABC "B").1 "C"
    = Some [Fixtures.record "a1" "A" "1"; Fixtures.record "a2" "A" "2"].
Proof.
  pose proof (deleteUpload_relinks Fixtures.storeABC "C" "B" [] Fixtures.uploadC
                Fixtures.uploadB [Fixtures.uploadA]) as H.
  cbv zeta in H.
  destruct H as (Hp & Hn & Hr);
    [reflexivity|reflexivity|reflexivity|discriminate|constructor
    |repeat constructor; discriminate|].
  split; [exact Hp|]. split.
  - rewrite Hn. vm_compute. reflexivity.
  - rewrite Hr. vm_compute. reflexivity.
Defined.

End DeletingUploads.

(** ** Reading report data and the master list *)

Section StoredQueries.
Import LocalDatabase DiffSpec MasterSpec.

Lemma frlBlank_negb (f : option string) : frlBlank f = negb (frlFilled f).
Proof.
  destruct f as [v|]; [|done]. simpl.
  by rewrite negb_andb, negb_involutive.
Qed.

Lemma length_filter_split {A} (p : A -> bool) (l : list A) :
  (length (filter (fun x => p x = true) l)
   + length (filter (fun x => negb (p x) = true) l) = length l)%nat.
Proof.
  induction l as [|x l IH]; [done|].
  destruct (p x) eqn:E.
  - rewrite filter_cons_True by done.
    rewrite (filter_cons_False (fun x => negb (p x) = true)) by (rewrite E; done).
    simpl. lia.
  - rewrite filter_cons_False by (rewrite E; done).
    rewrite (filter_cons_True (fun x => negb (p x) = true)) by (rewrite E; done).
    simpl. lia.
Qed.

Lemma filter_blank_negb {A} (f : A -> option string) (l : list A) :
  filter (fun x => frlBlank (f x) = true) l
  = filter (fun x => negb (frlFilled (f x)) = true) l.
Proof. apply list_filter_iff. intros x. by rewrite frlBlank_negb. Qed.

Lemma getReportData_lengths (s : storage) (u : string) :
  (length (getReportData s u "with_frl") + length (getReportData s u "without_frl")
   = length (getReportData s u "all"))%nat.
Proof.
  unfold getReportData. simpl. rewrite filter_blank_negb.
  apply (length_filter_split (fun r => frlFilled (frl (row_item r)))).
Qed.

Lemma getReportData_other (s : storage) (u f : string) :
  f <> "with_frl" -> f <> "without_frl" ->
  getReportData s u f = getReportData s u "all".
Proof.
  intros H1 H2. unfold getReportData.
  destruct (String.eqb_spec f "with_frl"); [done|].
  by destruct (String.eqb_spec f "without_frl").
Qed.

(** X4.  The filters 'with_frl' and 'without_frl' of [getReportData] split
    the rows of the upload in two: each row is in exactly one of the two
    answers, both keep the stored order, and their lengths add up.  Any
    other filter name returns all the rows of the upload. *)
Theorem getReportData_partition (s : storage) (u : string) :
  let all := getReportData s u "all" in
  let filled := getReportData s u "with_frl" in
  let blank := getReportData s u "without_frl" in
  (forall r, r ∈ all -> (r ∈ filled /\ (r ∉ blank)) \/ ((r ∉ filled) /\ r ∈ blank)) /\
  sublist filled all /\ sublist blank all /\
  (length filled + length blank = length all)%nat /\
  (forall f, f <> "with_frl" -> f <> "without_frl" -> getReportData s u f = all).
Proof.
  cbv zeta. unfold getReportData. simpl.
  set (all := filter (ofUpload u) (REPORT_DATA s)).
  split_and!.
  - intros r Hr. rewrite !list_elem_of_filter, frlBlank_negb.
    destruct (frlFilled (frl (row_item r))); simpl; [left|right]; split; try done.
    + by intros [? _].
    + by intros [? _].
  - apply sublist_filter.
  - apply sublist_filter.
  - apply getReportData_lengths.
  - intros f H1 H2. by apply getReportData_other.
Qed.

(** X5.  What [saveReportData] stores is what [getReportData] reads back:
    the rows the upload had, followed by one record per CSV row, in
    order, with the seventeen fields of the row and its normalised key;
    the number returned is the number of CSV rows, and the rows of the
    other uploads are as before.  The call ends in a RangeError, with
    nothing stored, exactly when there are more rows than the engine
    takes as arguments. *)
Theorem saveReportData_read_back (maxArguments : nat) (env : nat -> stamp)
    (s : storage) (u : string) (rows : list csv_row) :
  (saveReportDataOn maxArguments env s u rows = None
   <-> (maxArguments < length rows)%nat) /\
  forall stored k,
    saveReportDataOn maxArguments env s u rows = Some (stored, k) ->
    k = length rows /\
    row_item <$> getReportData stored u "all"
      = (row_item <$> getReportData s u "all")
        ++ ((fun row => itemOf (normalizeHB (row !! "HB")) row) <$> rows) /\
    (forall v f, v <> u -> getReportData stored v f = getReportData s v f) /\
    UPLOADS stored = UPLOADS s /\ MASTER_LIST stored = MASTER_LIST s.
Proof.
  unfold saveReportDataOn. split.
  { case_decide; split; try done; lia. }
  intros stored k. case_decide; [|done]. intros [= <- <-].
  split; [simpl; by rewrite length_imap|].
  set (added := imap (fun i row => {| row_key := generateId (env i); upload_id := u;
                        row_item := itemOf (normalizeHB (row !! "HB")) row |}) rows).
  assert (Hall : Forall (ofUpload u) added).
  { apply Forall_forall. intros r Hr.
    by apply elem_of_lookup_imap in Hr as (i & row & -> & _). }
  split; [|split; [|done]].
  - unfold getReportData. simpl. fold added.
    rewrite filter_app, fmap_app, (filter_all _ added) by done. f_equal.
    unfold added. rewrite fmap_imap. apply list_eq. intros i.
    rewrite list_lookup_imap, list_lookup_fmap. by destruct (rows !! i).
  - intros v f Hv. unfold getReportData. simpl. fold added.
    rewrite filter_app, (filter_none _ added), app_nil_r; [done|].
    eapply Forall_impl; [exact Hall|]. unfold ofUpload. intros r -> . congruence.
Qed.

(** X6.  The three numbers of [getMasterListMetrics] are the lengths of the
    three answers of [getMasterListData]; the number without FRL, which
    the code obtains by subtraction, is never negative. *)
Theorem getMasterListMetrics_consistent (s : storage) :
  let m := getMasterListMetrics s in
  totalRows m = Z.of_nat (length (getMasterListData s "all")) /\
  withFrl m = Z.of_nat (length (getMasterListData s "with_frl")) /\
  withoutFrl m = Z.of_nat (length (getMasterListData s "without_frl")) /\
  totalRows m = withFrl m + withoutFrl m.
Proof.
  cbv zeta. unfold getMasterListMetrics, getMasterListData. simpl.
  rewrite filter_blank_negb.
  pose proof (length_filter_split (fun r => frlFilled (frl (entry_item r)))
                (MASTER_LIST s)) as H.
  split_and!; try done; lia.
Qed.

End StoredQueries.

(** ** What an ingestion does to the catalog *)

Section CatalogGrowth.
Import LocalDatabase MasterSpec StoreSpec.

Implicit Types (ml : list master_entry) (row : csv_row) (rows : list csv_row).

Lemma sameOrigin_refl e : sameOrigin e e.
Proof. by split_and!. Qed.

Lemma sameOrigin_trans e1 e2 e3 :
  sameOrigin e1 e2 -> sameOrigin e2 e3 -> sameOrigin e1 e3.
Proof. intros (?&?&?&?) (?&?&?&?). split_and!; congruence. Qed.

Lemma sameOrigin_list_refl ml : Forall2 sameOrigin ml ml.
Proof. induction ml; constructor; [apply sameOrigin_refl|done]. Qed.

Lemma sameOrigin_list_trans ml1 ml2 ml3 :
  Forall2 sameOrigin ml1 ml2 -> Forall2 sameOrigin ml2 ml3 -> Forall2 sameOrigin ml1 ml3.
Proof.
  intros H. revert ml3. induction H as [|x y l k Hxy _ IH]; intros ml3 H3.
  - by inversion H3.
  - inversion H3 as [|? z ? k' Hyz Hk]; subst. constructor.
    + by eapply sameOrigin_trans.
    + by apply IH.
Qed.

Lemma sameOrigin_insert ml j old e :
  ml !! j = Some old -> sameOrigin old e -> Forall2 sameOrigin ml (<[j := e]> ml).
Proof.
  revert j. induction ml as [|x ml IH]; intros [|j] Hj Hs; try done; simpl in *.
  - injection Hj as ->. constructor; [done|apply sameOrigin_list_refl].
  - constructor; [apply sameOrigin_refl|by apply IH].
Qed.

(** The catalog after some rows: the entries it had, each one possibly
    rewritten in place, followed by the entries that were added. *)
Lemma upsertRows_shape env i uploadId rows ml a b :
  let res := upsertRows env i uploadId rows (ml, a, b) in
  exists pre suf,
    res.1.1 = pre ++ suf /\ Forall2 sameOrigin ml pre /\
    Forall (fun m => first_seen_upload_id m = uploadId) suf /\
    res.1.2 = (a + length suf)%nat.
Proof.
  cbv zeta. revert i ml a b.
  induction rows as [|row rows IH]; intros i ml a b.
  { exists ml, []. simpl. rewrite app_nil_r.
    split_and!; [done|apply sameOrigin_list_refl|done|lia]. }
  rewrite upsertRows_cons.
  destruct (decide (rowKey row = "")) as [Hk|Hk].
  { rewrite upsertRow_skip by done. apply IH. }
  destruct (list_find (hasKey (rowKey row)) ml) as [[j old]|] eqn:Hfind.
  - rewrite (upsertRow_update _ _ _ _ _ _ _ _ Hk Hfind).
    apply list_find_Some in Hfind as (Hj & Hh & _).
    match goal with
    | |- context [upsertRows env ?i' uploadId rows (?ml', ?a', ?b')] =>
        destruct (IH i' ml' a' b') as (pre & suf & Hres & Hpre & Hsuf & Ha)
    end.
    exists pre, suf. split_and!; [exact Hres| |done|exact Ha].
    eapply sameOrigin_list_trans; [|exact Hpre].
    apply (sameOrigin_insert _ _ old); [done|]. by split_and!.
  - apply list_find_None in Hfind.
    rewrite upsertRow_add by done.
    match goal with
    | |- context [upsertRows env ?i' uploadId rows (?ml', ?a', ?b')] =>
        destruct (IH i' ml' a' b') as (pre & suf & Hres & Hpre & Hsuf & Ha)
    end.
    apply Forall2_app_inv_l in Hpre as (p1 & p2 & Hp1 & Hp2 & ->).
    apply Forall2_cons_inv_l in Hp2 as (e1 & t & He1 & Ht & ->).
    apply Forall2_nil_inv_l in Ht as ->.
    exists p1, (e1 :: suf). split_and!.
    + by rewrite Hres, <- app_assoc.
    + done.
    + constructor; [|done]. destruct He1 as (_ & _ & -> & _). done.
    + rewrite Ha. simpl. lia.
Qed.

(** Every row with a usable key is counted once, as added or as updated. *)
Lemma upsertRows_counts env i uploadId rows ml a b :
  let res := upsertRows env i uploadId rows (ml, a, b) in
  (res.1.2 + res.2 = a + b + length (filter (fun row => rowKey row <> "") rows))%nat.
Proof.
  cbv zeta. revert i ml a b.
  induction rows as [|row rows IH]; intros i ml a b; [simpl; lia|].
  rewrite upsertRows_cons.
  destruct (decide (rowKey row = "")) as [Hk|Hk].
  { rewrite upsertRow_skip, filter_cons_False by (done || by intros ?). apply IH. }
  rewrite filter_cons_True by done.
  destruct (list_find (hasKey (rowKey row)) ml) as [[j old]|] eqn:Hfind.
  - rewrite (upsertRow_update _ _ _ _ _ _ _ _ Hk Hfind), IH. simpl. lia.
  - apply list_find_None in Hfind.
    rewrite upsertRow_add, IH by done. simpl. lia.
Qed.

(** X7.  [updateMasterList] counts each row that has a usable key exactly
    once, as added or as updated, and no other row; the catalog grows by
    the number it reports as added; uploads and report data are not
    touched. *)
Theorem updateMasterList_accounting (env : nat -> stamp) (s : storage)
    (uploadId : string) (rows : list csv_row) :
  let r := updateMasterList env s uploadId rows in
  (itemsAdded r.2 + itemsUpdated r.2
   = length (filter (fun row => rowKey row <> "") rows))%nat /\
  length (MASTER_LIST r.1) = (length (MASTER_LIST s) + itemsAdded r.2)%nat /\
  UPLOADS r.1 = UPLOADS s /\ REPORT_DATA r.1 = REPORT_DATA s.
Proof.
  cbv zeta. unfold updateMasterList.
  pose proof (upsertRows_counts env 0 uploadId rows (MASTER_LIST s) 0 0) as Hc.
  destruct (upsertRows_shape env 0 uploadId rows (MASTER_LIST s) 0 0)
    as (pre & suf & Hres & Hpre & _ & Ha).
  cbv zeta in Hc.
  destruct (upsertRows env 0 uploadId rows (MASTER_LIST s, 0%nat, 0%nat))
    as [[ml' a'] b']; simpl in *.
  split; [lia|]. split; [|done].
  rewrite Hres, length_app, Ha. apply Forall2_length in Hpre. lia.
Qed.

(** X8.  [updateMasterList] never removes or moves an entry: each entry of
    the catalog is found afterwards at the same position with the same
    key, id, first-seen upload and creation time. *)
Theorem updateMasterList_keeps_entries (env : nat -> stamp) (s : storage)
    (uploadId : string) (rows : list csv_row) :
  let ml' := MASTER_LIST (updateMasterList env s uploadId rows).1 in
  Forall2 sameOrigin (MASTER_LIST s) (take (length (MASTER_LIST s)) ml') /\
  forall j e, MASTER_LIST s !! j = Some e ->
    exists e', ml' !! j = Some e' /\ sameOrigin e e'.
Proof.
  cbv zeta. rewrite updateMasterList_list.
  destruct (upsertRows_shape env 0 uploadId rows (MASTER_LIST s) 0 0)
    as (pre & suf & Hres & Hpre & _ & _).
  cbv zeta in Hres. rewrite Hres.
  pose proof (Forall2_length _ _ _ Hpre) as Hlen.
  split.
  - rewrite Hlen, take_app_length. done.
  - intros j e Hj.
    destruct (Forall2_lookup_l _ _ _ _ _ Hpre Hj) as (e' & He' & Hs).
    exists e'. split; [|done]. by apply lookup_app_l_Some.
Qed.

(** X9.  After [saveUpload] and [updateMasterList] under the new id, the
    answer of [getMasterListNewItems] is the part the ingestion appended
    to the catalog, and its count is the number reported as added; the
    new id must be non-empty and not yet a first-seen upload of the
    catalog. *)
Theorem new_items_after_ingest (st : stamp) (env : nat -> stamp) (s : storage)
    (name : string) (n : nat) (rows : list csv_row) :
  generateId st <> "" ->
  Forall (fun m => first_seen_upload_id m <> generateId st) (MASTER_LIST s) ->
  let saved := saveUpload st s name n in
  let r := updateMasterList env saved.1 (upload_key saved.2) rows in
  getLatestUploadId r.1 = Some (upload_key saved.2) /\
  data (getMasterListNewItems r.1)
    = drop (length (MASTER_LIST s)) (MASTER_LIST r.1) /\
  count (getMasterListNewItems r.1) = itemsAdded r.2.
Proof.
  intros Hid Hfresh. cbv zeta. simpl upload_key.
  unfold getMasterListNewItems, getLatestUploadId, updateMasterList.
  simpl UPLOADS. simpl MASTER_LIST at 1.
  destruct (upsertRows_shape env 0 (generateId st) rows (MASTER_LIST s) 0 0)
    as (pre & suf & Hres & Hpre & Hsuf & Ha).
  cbv zeta in Hres, Ha.
  change (MASTER_LIST (saveUpload st s name n).1) with (MASTER_LIST s).
  destruct (upsertRows env 0 (generateId st) rows (MASTER_LIST s, 0%nat, 0%nat))
    as [[ml' a'] b']; simpl in *.
  apply truthy_true in Hid. rewrite Hid. simpl.
  assert (Hfilter : filter (fun m => first_seen_upload_id m = generateId st) ml' = suf).
  { rewrite Hres, filter_app, (filter_all _ suf) by done.
    rewrite filter_none; [done|].
    apply Forall_forall. intros m Hm.
    apply list_elem_of_lookup in Hm as [j Hj].
    destruct (Forall2_lookup_r _ _ _ _ _ Hpre Hj) as (e & He & Hs).
    destruct Hs as (_ & _ & -> & _).
    eapply Forall_forall in Hfresh; [exact Hfresh|]. by eapply list_elem_of_lookup_2. }
  rewrite Hfilter. split; [done|]. split; [|lia].
  rewrite Hres. apply Forall2_length in Hpre. by rewrite Hpre, drop_app_length.
Qed.

Lemma new_items_after_ingest_witness :
  let saved := saveUpload (Fixtures.stampFor "A" 0) emptyStorage "a.csv" 2 in
  let r := updateMasterList (clock "t") saved.1 "A"
             [Fixtures.csvRow "C1" "1" "M1"; Fixtures.csvRow "C2" "2" "M1"] in
  count (getMasterListNewItems r.1) = 2%nat.
Proof.
  cbv zeta.
  pose proof (new_items_after_ingest (Fixtures.stampFor "A" 0) (clock "t") emptyStorage
                "a.csv" 2 [Fixtures.csvRow "C1" "1" "M1"; Fixtures.csvRow "C2" "2" "M1"])
    as H.
  cbv zeta in H. destruct H as (_ & _ & H); [discriminate|constructor|].
  etrans; [exact H|]. vm_compute. reflexivity.
Defined.

End CatalogGrowth.

(** ** Grouping rows by master bill *)

Section DockTally.
Import LocalDatabase StoreSpec.

Lemma containersOf_snoc rows x :
  containersOf (rows ++ [x]) = addContainer x (containersOf rows).
Proof. unfold containersOf. by rewrite foldl_app. Qed.

Lemma elem_of_setAdd c d l : c ∈ setAdd d l <-> c ∈ l \/ c = d.
Proof.
  unfold setAdd. case_decide as Hd.
  - split; [by left|]. intros [?| ->]; done.
  - rewrite elem_of_app, list_elem_of_singleton. done.
Qed.

Lemma NoDup_setAdd d l : NoDup l -> NoDup (setAdd d l).
Proof.
  intros Hl. unfold setAdd. case_decide as Hd; [done|].
  apply NoDup_app. split; [done|]. split; [|apply NoDup_singleton].
  intros c Hc Hc'. apply list_elem_of_singleton in Hc'. by subst.
Qed.

(** The containers of a group: each non-empty container of its rows,
    once. *)
Lemma containersOf_spec rows :
  NoDup (containersOf rows) /\
  forall c, c ∈ containersOf rows <->
            exists x, x ∈ rows /\ container (fieldsOf x) = Some c /\ c <> "".
Proof.
  induction rows as [|x rows IH] using rev_ind.
  { split; [constructor|]. intros c. split; [by intros ?%not_elem_of_nil|].
    by intros (x & ?%not_elem_of_nil & _). }
  destruct IH as [Hnd Hin]. rewrite containersOf_snoc. unfold addContainer.
  split.
  - destruct (container (fieldsOf x)) as [d|]; [|done].
    destruct (truthy d); [by apply NoDup_setAdd|done].
  - intros c. setoid_rewrite elem_of_app. setoid_rewrite list_elem_of_singleton.
    destruct (container (fieldsOf x)) as [d|] eqn:Hd.
    + destruct (truthy d) eqn:Ht.
      * rewrite elem_of_setAdd, Hin. apply truthy_true in Ht. split.
        -- intros [(y & Hy & Hc & Hne)| ->]; [exists y; by split_and!; [left|..]|].
           exists x. split_and!; [by right|done|done].
        -- intros (y & [Hy| ->] & Hc & Hne); [left; by exists y|].
           right. congruence.
      * rewrite Hin. split.
        -- intros (y & Hy & Hc & Hne). exists y. by split_and!; [left|..].
        -- intros (y & [Hy| ->] & Hc & Hne); [by exists y|].
           assert (d = c) as -> by congruence.
           apply truthy_true in Hne. congruence.
    + rewrite Hin. split.
      * intros (y & Hy & Hc & Hne). exists y. by split_and!; [left|..].
      * intros (y & [Hy| ->] & Hc & Hne); [by exists y|congruence].
Qed.

Lemma filter_snoc_True {A} (P : A -> Prop) `{forall x, Decision (P x)} (l : list A) x :
  P x -> filter P (l ++ [x]) = filter P l ++ [x].
Proof. intros Hx. by rewrite filter_app, (filter_cons_True P x []). Qed.

Lemma filter_snoc_False {A} (P : A -> Prop) `{forall x, Decision (P x)} (l : list A) x :
  ~ P x -> filter P (l ++ [x]) = filter P l.
Proof. intros Hx. by rewrite filter_app, (filter_cons_False P x []), app_nil_r. Qed.

(** One row: the loop body fails exactly on an inherited name, and
    otherwise extends the groups by the row. *)
Lemma groupRow_spec seen grouped x :
  grouping seen grouped ->
  if decide (groupName x ∈ objectPrototypeNames) then groupRow grouped x = None
  else exists grouped', groupRow grouped x = Some grouped' /\
                        grouping (seen ++ [x]) grouped'.
Proof.
  intros Hg. unfold groupRow. cbv zeta.
  pose proof (Hg (groupName x)) as Hx.
  destruct (grouped !! groupName x) as [g|] eqn:Hlook.
  - destruct Hx as (Hproto & Hmbl & Hitems & Hne & Hcont).
    rewrite decide_False by done. eexists. split; [reflexivity|].
    intros k. destruct (decide (k = groupName x)) as [->|Hk].
    + rewrite lookup_insert_eq. simpl. split_and!; try done.
      * by rewrite filter_snoc_True, Hitems.
      * by destruct (group_items g).
      * by rewrite containersOf_snoc, Hcont.
    + rewrite lookup_insert_ne by done. specialize (Hg k).
      destruct (grouped !! k) as [g'|].
      * destruct Hg as (? & ? & Hi & ? & ?). split_and!; try done.
        by rewrite filter_snoc_False.
      * apply Forall_app. split; [done|]. by constructor.
  - case_decide as Hproto; [done|].
    eexists. split; [reflexivity|].
    intros k. destruct (decide (k = groupName x)) as [->|Hk].
    + rewrite lookup_insert_eq. simpl. split_and!; try done.
      rewrite filter_snoc_True by done. rewrite filter_none; [done|].
      eapply Forall_impl; [exact Hx|]. done.
    + rewrite lookup_insert_ne by done. specialize (Hg k).
      destruct (grouped !! k) as [g'|].
      * destruct Hg as (? & ? & Hi & ? & ?). split_and!; try done.
        by rewrite filter_snoc_False.
      * apply Forall_app. split; [done|]. by constructor.
Qed.

Lemma groupRows_spec rows seen grouped :
  grouping seen grouped ->
  match groupRows rows grouped with
  | Some grouped' =>
      Forall (fun x => groupName x ∉ objectPrototypeNames) rows /\
      grouping (seen ++ rows) grouped'
  | None => Exists (fun x => groupName x ∈ objectPrototypeNames) rows
  end.
Proof.
  revert seen grouped. induction rows as [|x rows IH]; intros seen grouped Hg.
  { simpl. rewrite app_nil_r. by split. }
  simpl. pose proof (groupRow_spec seen grouped x Hg) as Hx.
  case_decide as Hproto.
  - rewrite Hx. simpl. by left.
  - destruct Hx as (grouped' & -> & Hg'). simpl.
    specialize (IH (seen ++ [x]) grouped' Hg').
    destruct (groupRows rows grouped') as [g2|].
    + destruct IH as [Hall Hg2]. split; [by constructor|].
      by rewrite <- app_assoc in Hg2.
    + by right.
Qed.

Lemma grouping_empty : grouping [] ∅.
Proof. intros k. rewrite lookup_empty. constructor. Qed.

Lemma getDataGroupedByMBL_rows s uploadId :
  getDataGroupedByMBL s uploadId = groupRows (tallyRows s uploadId) ∅.
Proof. unfold getDataGroupedByMBL, tallyRows. by destruct uploadId as [u|]. Qed.

(** X10.  [getDataGroupedByMBL] fails, with the TypeError of reading
    [containers] or [items] of an inherited property, exactly when some
    row has a master bill that is a property name of [Object.prototype]. *)
Theorem getDataGroupedByMBL_fails (s : storage) (uploadId : option string) :
  getDataGroupedByMBL s uploadId = None <->
  Exists (fun x => groupName x ∈ objectPrototypeNames) (tallyRows s uploadId).
Proof.
  rewrite getDataGroupedByMBL_rows.
  pose proof (groupRows_spec (tallyRows s uploadId) [] ∅ grouping_empty) as H.
  destruct (groupRows (tallyRows s uploadId) ∅) as [g|].
  - destruct H as [Hall _]. split; [done|]. intros Hex.
    apply Exists_exists in Hex as (x & Hx & Hp).
    eapply Forall_forall in Hall; [|exact Hx]. done.
  - done.
Qed.

(** X11.  When no master bill is such a name, [getDataGroupedByMBL] returns
    one group per master bill that occurs ('NO MBL' standing for a
    missing one): the group holds the rows with that master bill, in
    stored order, and each of their non-empty containers once. *)
Theorem getDataGroupedByMBL_groups (s : storage) (uploadId : option string) :
  Forall (fun x => groupName x ∉ objectPrototypeNames) (tallyRows s uploadId) ->
  exists grouped,
    getDataGroupedByMBL s uploadId = Some grouped /\
    (forall k, grouped !! k = None <->
               Forall (fun x => groupName x <> k) (tallyRows s uploadId)) /\
    (forall k g, grouped !! k = Some g ->
       group_mbl g = k /\
       group_items g = filter (fun x => groupName x = k) (tallyRows s uploadId) /\
       group_items g <> [] /\
       NoDup (group_containers g) /\
       forall c, c ∈ group_containers g <->
                 exists x, x ∈ group_items g /\ container (fieldsOf x) = Some c /\ c <> "").
Proof.
  intros Hall. rewrite getDataGroupedByMBL_rows.
  pose proof (groupRows_spec (tallyRows s uploadId) [] ∅ grouping_empty) as H.
  destruct (groupRows (tallyRows s uploadId) ∅) as [grouped|].
  2:{ apply Exists_exists in H as (x & Hx & Hp).
      eapply Forall_forall in Hall; [|exact Hx]. done. }
  destruct H as [_ Hg]. simpl in Hg. exists grouped. split; [done|]. split.
  - intros k. specialize (Hg k). destruct (grouped !! k) as [g|]; [|done].
    destruct Hg as (_ & _ & Hi & Hne & _). split; [done|]. intros Hno.
    exfalso. apply Hne. rewrite Hi. by apply filter_none.
  - intros k g Hk. specialize (Hg k). rewrite Hk in Hg.
    destruct Hg as (_ & Hm & Hi & Hne & Hc). split_and!; try done.
    + rewrite Hc. apply containersOf_spec.
    + intros c. rewrite Hc. apply containersOf_spec.
Qed.

Lemma getDataGroupedByMBL_groups_witness :
  exists grouped,
    getDataGroupedByMBL Fixtures.storeAB (Some "A") = Some grouped /\
    (grouped !! "M1" <> None) /\
    forall g, grouped !! "M1" = Some g ->
      group_items g = tallyRows Fixtures.storeAB (Some "A") /\
      forall c, c ∈ group_containers g -> c = "C1".
Proof.
  destruct (getDataGroupedByMBL_groups Fixtures.storeAB (Some "A"))
    as (grouped & Hg & Hnone & Hsome).
  { vm_compute. repeat constructor; intros H; apply list_elem_of_In in H; simpl in H;
      intuition discriminate. }
  exists grouped. split; [exact Hg|]. split.
  - intros Hn. apply Hnone in Hn. vm_compute in Hn.
    apply Forall_cons in Hn as [Hn _]. by apply Hn.
  - intros g Hk. destruct (Hsome "M1" g Hk) as (_ & Hitems & _ & _ & Hc).
    split; [rewrite Hitems; vm_compute; reflexivity|].
    intros c Hin. apply Hc in Hin as (x & Hx & Hcont & _).
    rewrite Hitems in Hx. vm_compute in Hx.
    apply list_elem_of_In in Hx. simpl in Hx.
    destruct Hx as [<-|[<-|[<-|[]]]]; vm_compute in Hcont; congruence.
Defined.

End DockTally.

(** ** Change detection on field values *)

Section ValueChanges.
Import LocalDatabase.

Lemma trimmedOrEmpty_trim (v : option string) :
  trimmedOrEmpty v = trim (default "" v).
Proof.
  destruct v as [s|]; [|done]. simpl. unfold truthy.
  by destruct (String.eqb_spec s "") as [->|].
Qed.

Lemma truthy_false (s : string) : truthy s = false <-> s = "".
Proof. unfold truthy. destruct (String.eqb_spec s ""); simpl; split; congruence. Qed.

(** X12.  [hasValueChanged] answers true exactly when the new value, trimmed,
    is not empty and differs from the old one, trimmed.  So a value
    compared with itself is unchanged, emptying a field is never a
    change, and white space around either value is ignored. *)
Theorem hasValueChanged_spec (oldVal newVal : option string) :
  (hasValueChanged oldVal newVal = true <->
     trimmedOrEmpty newVal <> "" /\ trimmedOrEmpty oldVal <> trimmedOrEmpty newVal) /\
  hasValueChanged oldVal oldVal = false /\
  hasValueChanged oldVal None = false /\
  hasValueChanged oldVal (Some "") = false /\
  hasValueChanged (Some (trimmedOrEmpty oldVal)) (Some (trimmedOrEmpty newVal))
    = hasValueChanged oldVal newVal.
Proof.
  assert (Hspec : forall o n, hasValueChanged o n = true <->
            trimmedOrEmpty n <> "" /\ trimmedOrEmpty o <> trimmedOrEmpty n).
  { intros o n. unfold hasValueChanged. cbv zeta.
    destruct (truthy (trimmedOrEmpty o)) eqn:Ho, (truthy (trimmedOrEmpty n)) eqn:Hn;
      simpl.
    - apply truthy_true in Ho, Hn.
      destruct (String.eqb_spec (trimmedOrEmpty o) (trimmedOrEmpty n)); simpl.
      + split; [done|]. by intros [_ ?].
      + done.
    - apply truthy_false in Hn. split; [done|]. by intros [? _].
    - apply truthy_false in Ho. apply truthy_true in Hn. split; [|done].
      intros _. split; [done|]. congruence.
    - apply truthy_false in Hn. split; [done|]. by intros [? _]. }
  assert (Hfalse : forall o n, (trimmedOrEmpty n = "" \/ trimmedOrEmpty o = trimmedOrEmpty n) ->
                               hasValueChanged o n = false).
  { intros o n H. destruct (hasValueChanged o n) eqn:E; [|done].
    apply Hspec in E as [E1 E2]. by destruct H. }
  split; [apply Hspec|]. split; [apply Hfalse; by right|].
  split; [apply Hfalse; by left|]. split; [apply Hfalse; by left|].
  assert (Hidem : forall v, trimmedOrEmpty (Some (trimmedOrEmpty v)) = trimmedOrEmpty v).
  { intros v. rewrite !trimmedOrEmpty_trim. simpl. apply trim_idem. }
  unfold hasValueChanged. by rewrite !Hidem.
Qed.

End ValueChanges.

(** ** The dashboard *)

Section DashboardView.
Import LocalDatabase DiffSpec.


End DashboardView.

(** ** Searching the rows shown *)

Section Searching.
Import LocalDatabase.

Lemma lowerChar_idem (c : ascii) : lowerChar (lowerChar c) = lowerChar c.
Proof. destruct c as [[] [] [] [] [] [] [] []]; vm_compute; reflexivity. Qed.

Lemma lowerChar_space (c : ascii) : isWhiteSpace (lowerChar c) = isWhiteSpace c.
Proof. destruct c as [[] [] [] [] [] [] [] []]; vm_compute; reflexivity. Qed.

Lemma toLowerCase_idem (s : string) : toLowerCase (toLowerCase s) = toLowerCase s.
Proof.
  unfold toLowerCase. rewrite chars_str, map_map. f_equal.
  apply map_ext. intros c. apply lowerChar_idem.
Qed.

Lemma dropWhile_lower (l : list ascii) :
  dropWhile isWhiteSpace (map lowerChar l) = map lowerChar (dropWhile isWhiteSpace l).
Proof.
  induction l as [|c l IH]; [done|]. simpl. rewrite lowerChar_space.
  destruct (isWhiteSpace c); [done|]. done.
Qed.

Lemma trim_toLowerCase (s : string) : trim (toLowerCase s) = toLowerCase (trim s).
Proof.
  unfold trim, toLowerCase, trimChars. rewrite !chars_str. f_equal.
  by rewrite dropWhile_lower, <- map_rev, dropWhile_lower, map_rev.
Qed.

Lemma truthy_toLowerCase (s : string) : truthy (toLowerCase s) = truthy s.
Proof.
  unfold truthy, toLowerCase. destruct s as [|c s]; [done|]. done.
Qed.

Lemma rowField_value (f : Dashboard.search_field) (x : stored_row) :
  f <> Dashboard.all -> Dashboard.rowField f x ∈ Dashboard.rowValues x.
Proof.
  intros Hf. apply list_elem_of_In.
  destruct x as [r|m], f; try done; simpl; tauto.
Qed.

(** X14.  The search only narrows the list: the answer is a part of the rows
    shown, in their order, and all of them when the text is blank.  A row
    found through one field is found through 'All Fields', and the
    letter case of the text makes no difference. *)
Theorem filteredData_narrows (data : list stored_row) (t : string)
    (f : Dashboard.search_field) :
  sublist (Dashboard.filteredData data t f) data /\
  (trim t = "" -> Dashboard.filteredData data t f = data) /\
  (forall x, x ∈ Dashboard.filteredData data t f ->
             x ∈ Dashboard.filteredData data t Dashboard.all) /\
  Dashboard.filteredData data (toLowerCase t) f = Dashboard.filteredData data t f.
Proof.
  unfold Dashboard.filteredData.
  rewrite trim_toLowerCase, truthy_toLowerCase, toLowerCase_idem.
  destruct (truthy (trim t)) eqn:Ht; simpl.
  - split_and!; [apply sublist_filter| |..|done].
    + intros H. apply truthy_true in Ht. done.
    + intros x. rewrite !list_elem_of_filter. intros [Hx Hin]. split; [|done].
      assert (Hf : f = Dashboard.all \/ f <> Dashboard.all)
        by (destruct f; (by left) || (by right)).
      destruct Hf as [->|Hf]; [done|].
      apply existsb_exists. exists (Dashboard.rowField f x).
      split; [apply list_elem_of_In; by apply rowField_value|].
      by destruct f.
  - by split_and!.
Qed.

End Searching.

(** ** Validation and cleaning of CSV rows *)

Section CsvCleaning.
Import CleanSpec.

Lemma filter_nil_Forall {A} (P : A -> Prop) `{forall x, Decision (P x)} (l : list A) :
  filter P l = [] -> Forall (fun x => ~ P x) l.
Proof.
  induction l as [|x l IH]; [constructor|].
  destruct (decide (P x)).
  - by rewrite filter_cons_True.
  - rewrite filter_cons_False by done. intros. constructor; auto.
Qed.

(** X15.  [validateColumns] accepts the headers exactly when each of the
    seventeen required names is among them, compared letter for letter;
    otherwise it lists the names that are not, in the order of
    [REQUIRED_COLUMNS], and joins them in the message.  Further columns
    and the order of the headers do not matter. *)
Theorem validateColumns_spec (headers : list string) :
  let v := CsvUtils.validateColumns headers in
  (CsvUtils.isValid v = true <->
     Forall (fun c => c ∈ headers) CsvUtils.REQUIRED_COLUMNS) /\
  (CsvUtils.isValid v = true <-> CsvUtils.missingColumns v = []) /\
  (forall c, c ∈ CsvUtils.missingColumns v <->
             c ∈ CsvUtils.REQUIRED_COLUMNS /\ (c ∉ headers)) /\
  sublist (CsvUtils.missingColumns v) CsvUtils.REQUIRED_COLUMNS /\
  CsvUtils.message v
    = (if CsvUtils.isValid v then "CSV is valid"
       else "Missing required columns: " +:+ join ", " (CsvUtils.missingColumns v)) /\
  (forall headers', headers ⊆ headers' -> CsvUtils.isValid v = true ->
     CsvUtils.validateColumns headers'
     = {| CsvUtils.isValid := true; CsvUtils.message := "CSV is valid";
          CsvUtils.missingColumns := [] |}).
Proof.
  assert (Hvalid : forall hs,
            Forall (fun c => c ∈ hs) CsvUtils.REQUIRED_COLUMNS ->
            CsvUtils.validateColumns hs
            = {| CsvUtils.isValid := true; CsvUtils.message := "CSV is valid";
                 CsvUtils.missingColumns := [] |}).
  { intros hs Hall. unfold CsvUtils.validateColumns. cbv zeta.
    rewrite filter_none; [done|].
    eapply Forall_impl; [exact Hall|]. intros c Hc Hn. done. }
  cbv zeta.
  destruct (filter (fun col => col ∉ headers) CsvUtils.REQUIRED_COLUMNS)
    as [|c0 rest] eqn:Hmiss.
  - assert (Hall : Forall (fun c => c ∈ headers) CsvUtils.REQUIRED_COLUMNS).
    { apply filter_nil_Forall in Hmiss. eapply Forall_impl; [exact Hmiss|].
      intros c Hc. simpl in Hc. destruct (decide (c ∈ headers)); [done|]. by destruct Hc. }
    rewrite (Hvalid headers Hall). simpl. split_and!; try done.
    + intros c. split; [by intros ?%not_elem_of_nil|]. intros [Hc Hn].
      eapply Forall_forall in Hall; [|exact Hc]. done.
    + apply sublist_nil_l.
    + intros headers' Hsub _. apply Hvalid.
      eapply Forall_impl; [exact Hall|]. intros c Hc. by apply Hsub.
  - unfold CsvUtils.validateColumns. cbv zeta. rewrite Hmiss. simpl.
    split_and!; try done.
    + split; [done|]. intros Hall.
      assert (Hc0 : c0 ∈ filter (fun col => col ∉ headers) CsvUtils.REQUIRED_COLUMNS)
        by (rewrite Hmiss; left).
      apply list_elem_of_filter in Hc0 as [Hn Hc0].
      eapply Forall_forall in Hall; [|exact Hc0]. done.
    + intros c. rewrite <- Hmiss, list_elem_of_filter. tauto.
    + rewrite <- Hmiss. apply sublist_filter.
Qed.

Lemma revised_trimmed (value : option string) :
  trim (CsvUtilsRevised.normalizeHB value) = CsvUtilsRevised.normalizeHB value.
Proof.
  destruct value as [v|]; [|done]. unfold CsvUtilsRevised.normalizeHB.
  destruct (String.eqb v ""); [done|]. cbv zeta.
  destruct (CsvUtilsRevised.isScientific (trim v)); [|apply trim_idem].
  destruct (isNaN (parseFloat (trim v))) eqn:Hnan; simpl; [apply trim_idem|].
  destruct (print_floor_fixed (parseFloat (trim v))) as (Ht & _).
  { apply parseFloat_wf. } { by destruct (parseFloat (trim v)). }
  done.
Qed.

Lemma legacy_trimmed (value : option string) :
  trim (CsvUtils.normalizeHB value) = CsvUtils.normalizeHB value.
Proof.
  destruct value as [v|]; [|done]. unfold CsvUtils.normalizeHB.
  destruct (String.eqb v ""); [done|]. cbv zeta.
  destruct (isNaN (parseFloat v)) eqn:Hnan; simpl; [apply trim_idem|].
  destruct (print_floor_fixed (parseFloat v)) as (Ht & _).
  { apply parseFloat_wf. } { by destruct (parseFloat v). }
  done.
Qed.

(** Trimming the argument first does not change the normalised key. *)
Lemma revised_trim_arg (v : string) :
  CsvUtilsRevised.normalizeHB (Some (trim v)) = CsvUtilsRevised.normalizeHB (Some v).
Proof.
  unfold CsvUtilsRevised.normalizeHB. rewrite trim_idem.
  destruct (String.eqb_spec v "") as [->|Hv]; [done|].
  destruct (String.eqb_spec (trim v) "") as [He|He]; [|done].
  rewrite He. done.
Qed.

Lemma revised_cleanRow_lookup (row : csv_row) (k : string) :
  CsvUtilsRevised.cleanRow row !! k
  = match row !! k with
    | Some v => Some (if String.eqb k "HB"
                      then CsvUtilsRevised.normalizeHB (Some (trim v)) else trim v)
    | None => None
    end.
Proof.
  unfold CsvUtilsRevised.cleanRow. rewrite map_lookup_imap.
  destruct (row !! k); reflexivity.
Qed.

Lemma cleanRow_lookup (row : csv_row) (k : string) :
  CsvUtils.cleanRow row !! k
  = match row !! k with
    | Some v => Some (if String.eqb k "HB"
                      then CsvUtils.normalizeHB (Some (trim v)) else trim v)
    | None => None
    end.
Proof.
  unfold CsvUtils.cleanRow. rewrite map_lookup_imap.
  destruct (row !! k); reflexivity.
Qed.

Lemma revised_cleanRow_idem (row : csv_row) :
  CsvUtilsRevised.cleanRow (CsvUtilsRevised.cleanRow row) = CsvUtilsRevised.cleanRow row.
Proof.
  apply map_eq. intros k. rewrite !revised_cleanRow_lookup.
  destruct (row !! k) as [v|]; [|reflexivity].
  destruct (String.eqb k "HB"); cbv beta iota; f_equal.
  - rewrite revised_trimmed. apply revised_idempotent.
  - apply trim_idem.
Qed.

Lemma cleanRow_idem (row : csv_row) :
  CsvUtils.cleanRow (CsvUtils.cleanRow row) = CsvUtils.cleanRow row.
Proof.
  apply map_eq. intros k. rewrite !cleanRow_lookup.
  destruct (row !! k) as [v|]; [|reflexivity].
  destruct (String.eqb k "HB"); cbv beta iota; f_equal.
  - rewrite legacy_trimmed. apply legacy_idempotent.
  - apply trim_idem.
Qed.

Lemma filter_fmap_idem {A} (f : A -> A) (P : A -> Prop) `{forall x, Decision (P x)}
    (l : list A) :
  (forall x, f (f x) = f x) ->
  filter P (f <$> filter P (f <$> l)) = filter P (f <$> l).
Proof.
  intros Hf.
  assert (Hid : f <$> filter P (f <$> l) = filter P (f <$> l)).
  { induction l as [|x l IH]; [done|]. rewrite fmap_cons.
    destruct (decide (P (f x))).
    - rewrite filter_cons_True by done. rewrite fmap_cons, Hf. by f_equal.
    - by rewrite filter_cons_False. }
  rewrite Hid. by apply filter_filter_drop.
Qed.

(** X16.  Cleaning is idempotent, in both copies of [cleanData]: rows that
    have been cleaned are neither changed nor dropped when cleaned
    again. *)
Theorem cleanData_idempotent (data : list csv_row) :
  CsvUtilsRevised.cleanData (CsvUtilsRevised.cleanData data)
    = CsvUtilsRevised.cleanData data /\
  CsvUtils.cleanData (CsvUtils.cleanData data) = CsvUtils.cleanData data.
Proof.
  split.
  - unfold CsvUtilsRevised.cleanData.
    apply (filter_fmap_idem CsvUtilsRevised.cleanRow). apply revised_cleanRow_idem.
  - unfold CsvUtils.cleanData.
    apply (filter_fmap_idem CsvUtils.cleanRow). apply cleanRow_idem.
Qed.

(** X17.  A cleaned row has the columns of the raw row, and none of its
    values, the normalised HB included, starts or ends with white space;
    both copies of [cleanData] return at most as many rows as they are
    given. *)
Theorem cleanData_trims (data : list csv_row) (r : csv_row) :
  (r ∈ CsvUtilsRevised.cleanData data \/ r ∈ CsvUtils.cleanData data ->
   (exists row, row ∈ data /\ dom r = dom row) /\
   forall k v, r !! k = Some v -> trim v = v) /\
  (length (CsvUtilsRevised.cleanData data) <= length data)%nat /\
  (length (CsvUtils.cleanData data) <= length data)%nat.
Proof.
  split; [|split].
  - intros [Hr|Hr].
    + apply revised_cleanData_admission in Hr as [(row & Hrow & ->) _]. split.
      * exists row. split; [exact Hrow|]. apply set_eq. intros k.
        rewrite !elem_of_dom, revised_cleanRow_lookup.
        destruct (row !! k); split; intros [x Hx]; try discriminate; eexists; reflexivity.
      * intros k v. rewrite revised_cleanRow_lookup.
        destruct (row !! k) as [w|]; [|discriminate]. intros Hv.
        apply (inj Some) in Hv. rewrite <- Hv.
        destruct (String.eqb k "HB"); [apply revised_trimmed|apply trim_idem].
    + apply cleanData_admission in Hr as [(row & Hrow & ->) _]. split.
      * exists row. split; [exact Hrow|]. apply set_eq. intros k.
        rewrite !elem_of_dom, cleanRow_lookup.
        destruct (row !! k); split; intros [x Hx]; try discriminate; eexists; reflexivity.
      * intros k v. rewrite cleanRow_lookup.
        destruct (row !! k) as [w|]; [|discriminate]. intros Hv.
        apply (inj Some) in Hv. rewrite <- Hv.
        destruct (String.eqb k "HB"); [apply legacy_trimmed|apply trim_idem].
  - unfold CsvUtilsRevised.cleanData.
    etrans; [apply length_filter|]. by rewrite length_fmap.
  - unfold CsvUtils.cleanData.
    etrans; [apply length_filter|]. by rewrite length_fmap.
Qed.

(** X18.  The key under which the local store files a cleaned row is the HB
    column of the cleaned row as it stands, and it is the key the raw
    row would have been filed under. *)
Theorem cleaned_row_key (row : csv_row) :
  let cleaned := CsvUtilsRevised.cleanRow row in
  LocalDatabase.normalizeHB (cleaned !! "HB") = default "" (cleaned !! "HB") /\
  LocalDatabase.normalizeHB (cleaned !! "HB") = LocalDatabase.normalizeHB (row !! "HB").
Proof.
  cbv zeta. change LocalDatabase.normalizeHB with CsvUtilsRevised.normalizeHB.
  rewrite revised_cleanRow_lookup. destruct (row !! "HB") as [v|]; [|split; reflexivity].
  change (String.eqb "HB" "HB") with true. cbv beta iota.
  change (default "" (Some ?x)) with x.
  rewrite revised_idempotent, revised_trim_arg. split; reflexivity.
Qed.

(** X19.  Every row that the older [cleanData] keeps is kept by the revised
    one, and the two cleaned rows differ in the HB column at most. *)
Theorem revised_keeps_more (data : list csv_row) (row : csv_row) :
  row ∈ data ->
  (CsvUtils.cleanRow row ∈ CsvUtils.cleanData data ->
   CsvUtilsRevised.cleanRow row ∈ CsvUtilsRevised.cleanData data) /\
  (forall k, k <> "HB" ->
     CsvUtils.cleanRow row !! k = CsvUtilsRevised.cleanRow row !! k) /\
  (length (CsvUtils.cleanData data) <= length (CsvUtilsRevised.cleanData data))%nat.
Proof.
  intros Hrow.
  assert (Hsame : forall r k, k <> "HB" ->
            CsvUtils.cleanRow r !! k = CsvUtilsRevised.cleanRow r !! k).
  { intros r k Hk. rewrite cleanRow_lookup, revised_cleanRow_lookup.
    destruct (String.eqb_spec k "HB"); [contradiction|reflexivity]. }
  split; [|split; [by apply Hsame|]].
  - intros Hin. apply cleanData_admission in Hin as [_ Hc].
    apply revised_cleanData_admission. split; [by exists row|]. left.
    by rewrite <- Hsame.
  - unfold CsvUtils.cleanData, CsvUtilsRevised.cleanData. clear Hrow.
    induction data as [|r data IH]; [done|]. rewrite !fmap_cons.
    destruct (decide (hasValue (CsvUtils.cleanRow r !! "CONTAINER") = true)) as [Hc|Hc].
    + rewrite filter_cons_True by done.
      rewrite (filter_cons_True _ (CsvUtilsRevised.cleanRow r)).
      2:{ cbv zeta. rewrite <- Hsame, Hc by done. done. }
      simpl. lia.
    + rewrite filter_cons_False by done.
      match goal with |- (_ <= length (filter ?P (?x :: ?l)))%nat =>
        destruct (decide (P x)) as [Hp|Hp];
        [rewrite (filter_cons_True P x l Hp)|rewrite (filter_cons_False P x l Hp)]
      end; simpl; lia.
Qed.

Lemma revised_keeps_more_witness :
  CsvUtilsRevised.cleanRow (Fixtures.csvRow "C1" "1" "M1")
    ∈ CsvUtilsRevised.cleanData [Fixtures.csvRow "C1" "1" "M1"].
Proof.
  destruct (revised_keeps_more [Fixtures.csvRow "C1" "1" "M1"]
              (Fixtures.csvRow "C1" "1" "M1")) as (H & _).
  { left. }
  apply H. apply cleanData_admission. split.
  - eexists. split; [left|reflexivity].
  - apply hasValue_carries. vm_compute. reflexivity.
Defined.

End CsvCleaning.

(** ** From ingestion to comparison *)

Section IngestThenCompare.
Import LocalDatabase DiffSpec MasterSpec.




End IngestThenCompare.
